(** * GtkPopover: positioning and transition engine

    A shallow embedding of [gtk/gtkpopover.c]: the side resolution of
    [gtk_popover_update_position], the arrow geometry of
    [gtk_popover_get_gap_coords], the pointing rectangle accessors, the
    instance initialiser and the show/hide transition state machine
    ([gtk_popover_popup], [gtk_popover_popdown], [show_animate_cb]).

    Conventions.
    - A [gint] is a [Z] in the 32-bit signed range; additions and
      subtractions wrap ([GInt.add], [GInt.sub]).
    - A [gdouble] is idealised as an exact rational ([Q]); the conversion
      of a [gdouble] to [gint] truncates toward zero ([GInt.of_double]).
    - Pointers to widgets are identifiers; a NULL pointer is [None].
    - What the popover asks of the rest of the toolkit (sizes, style,
      coordinate translation, settings) is read from an environment [Env].
    - Signals and calls whose only effect is outside the popover are
      appended to a chronological [trace]. *)

From Stdlib Require Import ZArith List Bool Lia QArith Lqa.
Import ListNotations.
Open Scope Z_scope.

(* ------------------------------------------------------------------ *)
(** ** Machine integers *)

Module GInt.

Definition G_MAXINT : Z := 2147483647.
Definition G_MININT : Z := -2147483648.

(** Two's complement reduction into the [gint] range. *)
Definition wrap (z : Z) : Z := (z + 2147483648) mod 4294967296 - 2147483648.

Definition add (a b : Z) : Z := wrap (a + b).
Definition sub (a b : Z) : Z := wrap (a - b).

(** C integer division truncates toward zero. *)
Definition div (a b : Z) : Z := Z.quot a b.

(** Conversion of a floating point value to [gint]: the fractional part
    is discarded. *)
Definition of_double (q : Q) : Z := Z.quot (Qnum q) (Zpos (Qden q)).

End GInt.

(** Modelled from the spec: the GLib macro [CLAMP] (gmacros.h is not part
    of this file); the spec says a value is "clamped into" a range.  The
    upper bound is tested first, as in
    [(x > high) ? high : ((x < low) ? low : x)]. *)
Definition CLAMP (x low high : Z) : Z :=
  if high <? x then high else if x <? low then low else x.

(* ------------------------------------------------------------------ *)
(** ** Plain data *)

Definition GtkWidget := nat.
Definition GtkWindow := nat.

Record GdkRectangle := {
  rx : Z;
  ry : Z;
  rwidth : Z;
  rheight : Z }.

Definition rect_zero : GdkRectangle :=
  {| rx := 0; ry := 0; rwidth := 0; rheight := 0 |}.

Record GtkBorder := {
  b_left : Z;
  b_right : Z;
  b_top : Z;
  b_bottom : Z }.

Record GtkRequisition := {
  req_width : Z;
  req_height : Z }.

Record GtkAllocation := {
  alloc_width : Z;
  alloc_height : Z }.

(** [GtkPositionType] is declared in gtkenums.h, which is not part of this
    file.  Its values index [overshoot[4]] and fit the 2-bit fields of the
    private struct, so they are 0..3; [gtk_popover_set_position] accepts
    exactly [position >= GTK_POS_LEFT && position <= GTK_POS_BOTTOM], so
    LEFT is the smallest and BOTTOM the largest.  The declaration order is
    LEFT, RIGHT, TOP, BOTTOM. *)
Inductive GtkPositionType :=
| GTK_POS_LEFT
| GTK_POS_RIGHT
| GTK_POS_TOP
| GTK_POS_BOTTOM.

Definition position_value (p : GtkPositionType) : Z :=
  match p with
  | GTK_POS_LEFT => 0
  | GTK_POS_RIGHT => 1
  | GTK_POS_TOP => 2
  | GTK_POS_BOTTOM => 3
  end.

(** Reading an integer back into a 2-bit position field. *)
Definition position_of_value (i : Z) : GtkPositionType :=
  match Z.land i 3 with
  | 0 => GTK_POS_LEFT
  | 1 => GTK_POS_RIGHT
  | 2 => GTK_POS_TOP
  | _ => GTK_POS_BOTTOM
  end.

Definition position_eqb (a b : GtkPositionType) : bool :=
  position_value a =? position_value b.

Inductive GtkPopoverConstraint :=
| GTK_POPOVER_CONSTRAINT_NONE
| GTK_POPOVER_CONSTRAINT_WINDOW.

Inductive PopoverState :=
| STATE_SHOWING
| STATE_SHOWN
| STATE_HIDING
| STATE_HIDDEN.

Definition state_eqb (a b : PopoverState) : bool :=
  match a, b with
  | STATE_SHOWING, STATE_SHOWING
  | STATE_SHOWN, STATE_SHOWN
  | STATE_HIDING, STATE_HIDING
  | STATE_HIDDEN, STATE_HIDDEN => true
  | _, _ => false
  end.

Definition TAIL_GAP_WIDTH : Z := 24.
Definition TAIL_HEIGHT : Z := 12.
Definition TRANSITION_DIFF : Z := 20.
Definition TRANSITION_DURATION : Z := 150 * 1000.

Definition POS_IS_VERTICAL (p : GtkPositionType) : bool :=
  position_eqb p GTK_POS_TOP || position_eqb p GTK_POS_BOTTOM.

(* ------------------------------------------------------------------ *)
(** ** The progress tracker

    gtkprogresstracker.c is not part of this file.  The popover uses a
    tracker through five calls: start, advance_frame, get_ease_out_cubic,
    get_state and finish. *)

Module Tracker.

Inductive GtkProgressState :=
| GTK_PROGRESS_STATE_BEFORE
| GTK_PROGRESS_STATE_DURING
| GTK_PROGRESS_STATE_AFTER.

(** Modelled from the spec: the state of the "monotonic progress
    tracker" of gtkprogresstracker.c: whether it runs, the time of the
    last frame it saw (0 before the first one), the duration of one
    iteration in microseconds, the linear progress so far and the
    number of iterations to play. *)
Record GtkProgressTracker := {
  is_running : bool;
  last_frame_time : Z;
  duration : Z;
  iteration : Q;
  iteration_count : Q }.

(** Modelled from the spec: gtk_progress_tracker_start; a transition
    starts with no progress and no time baseline. *)
Definition start (dur delay : Z) (count : Q) : GtkProgressTracker :=
  {| is_running := true;
     last_frame_time := 0;
     duration := dur;
     iteration := (inject_Z (- delay) / inject_Z dur)%Q;
     iteration_count := count |}.

(** Modelled from the spec: gtk_progress_tracker_finish; a finished
    tracker reports the after-end state. *)
Definition finish (t : GtkProgressTracker) : GtkProgressTracker :=
  {| is_running := false;
     last_frame_time := last_frame_time t;
     duration := duration t;
     iteration := iteration t;
     iteration_count := iteration_count t |}.

(** Modelled from the spec: gtk_progress_tracker_advance_frame,
    "advance a monotonic progress tracker by elapsed time".  The first
    frame a running tracker sees only gives it its time baseline; a
    frame from the past is ignored; otherwise the elapsed time, as a
    fraction of the duration, is added to the progress. *)
Definition advance_frame (t : GtkProgressTracker) (frame_time : Z)
  : GtkProgressTracker :=
  if negb (is_running t) then t
  else if last_frame_time t =? 0 then
    {| is_running := is_running t;
       last_frame_time := frame_time;
       duration := duration t;
       iteration := iteration t;
       iteration_count := iteration_count t |}
  else if frame_time <? last_frame_time t then t
  else
    {| is_running := is_running t;
       last_frame_time := frame_time;
       duration := duration t;
       iteration :=
         (iteration t
          + inject_Z (frame_time - last_frame_time t) / inject_Z (duration t))%Q;
       iteration_count := iteration_count t |}.

(** Modelled from the spec: gtk_progress_tracker_get_state, 'on
    progress reaching 1.0 (state reports "after-end")'. *)
Definition get_state (t : GtkProgressTracker) : GtkProgressState :=
  if negb (is_running t) || Qle_bool (iteration_count t) (iteration t)
  then GTK_PROGRESS_STATE_AFTER
  else if Qle_bool 0 (iteration t) then GTK_PROGRESS_STATE_DURING
  else GTK_PROGRESS_STATE_BEFORE.

Definition is_after (t : GtkProgressTracker) : bool :=
  match get_state t with
  | GTK_PROGRESS_STATE_AFTER => true
  | _ => false
  end.

(** Modelled from the spec: gtk_progress_tracker_get_progress for a
    tracker that plays forward: the linear progress kept in
    [0, iteration_count]. *)
Definition get_progress (t : GtkProgressTracker) : Q :=
  if Qle_bool (iteration_count t) (iteration t) then iteration_count t
  else if Qle_bool 0 (iteration t) then iteration t
  else 0%Q.

(** Modelled from the spec: gtk_progress_tracker_get_ease_out_cubic,
    "eased progress t in [0,1] using a cubic ease-out curve". *)
Definition get_ease_out_cubic (t : GtkProgressTracker) : Q :=
  let p := (get_progress t - 1)%Q in
  (p * p * p + 1)%Q.

End Tracker.
Import Tracker.

(* ------------------------------------------------------------------ *)
(** ** Environment, effects and the popover instance *)

(** What the popover reads from the rest of the toolkit when one of its
    functions runs. *)
Record Env := {
  (** gtk_settings_get_enable_animations *)
  enable_animations : bool;
  (** _gtk_widget_get_direction (popover) == GTK_TEXT_DIR_RTL *)
  text_dir_rtl : bool;
  (** GDK_WINDOWING_WAYLAND is defined and the display is a Wayland one *)
  wayland_display : bool;
  (** gtk_widget_get_preferred_size (popover, NULL, &req) *)
  preferred_size : GtkRequisition;
  (** gtk_widget_get_allocation (window) *)
  window_alloc : GtkAllocation;
  (** _gtk_window_get_shadow_width *)
  window_shadow : GtkBorder;
  (** gtk_widget_get_own_allocation of a widget *)
  own_allocation : GtkWidget -> GdkRectangle;
  (** gtk_widget_translate_coordinates from the anchor to the window *)
  translate_to_window : Z -> Z -> Z * Z;
  (** gtk_widget_translate_coordinates from the anchor to the popover *)
  translate_to_popover : Z -> Z -> Z * Z;
  (** gdk_window_get_origin of the popover's window *)
  window_origin : Z * Z;
  (** gtk_widget_get_width / gtk_widget_get_height of the popover *)
  popover_width : Z;
  popover_height : Z;
  (** border and border radius of the contents node *)
  contents_border : GtkBorder;
  border_radius : Z;
  (** whether the parent of the popover is mapped *)
  parent_mapped : bool;
  (** gtk_window_get_focus (window) *)
  window_focus : option GtkWidget;
  (** gtk_widget_is_drawable, GTK_IS_ENTRY *)
  is_drawable : GtkWidget -> bool;
  is_entry : GtkWidget -> bool;
  (** gtk_widget_get_ancestor (widget, GTK_TYPE_WINDOW) *)
  ancestor_window : GtkWidget -> option GtkWindow }.

Inductive Effect :=
| EmitClosed
| GrabAdd
| GrabRemove
| WindowSetFocusNull
| GrabFocusPopover
| GrabFocusWidget (w : GtkWidget)
| GrabFocusEntryWithoutSelecting (w : GtkWidget)
| GrabFocusWindow
| ConnectWindowHandlers
| DisconnectWindowHandlers
| InputShapeEmpty
| InputShapeUnset
| UpdateShape
| RaisePopover
| QueueAllocateWindow
| SetPopoverPosition (pos : GtkPositionType) (rect : GdkRectangle).

Definition is_closed (ev : Effect) : bool :=
  match ev with
  | EmitClosed => true
  | _ => false
  end.

(** How many times the closed signal was emitted. *)
Definition closed_count (tr : list Effect) : nat :=
  length (filter is_closed tr).

(** struct _GtkPopoverPrivate, the fields the engine uses. *)
Record GtkPopoverPrivate := {
  widget : option GtkWidget;
  window : option GtkWindow;
  prev_focus_widget : option GtkWidget;
  pointing_to : GdkRectangle;
  constraint : GtkPopoverConstraint;
  tracker : GtkProgressTracker;
  has_pointing_to : bool;
  preferred_position : GtkPositionType;
  final_position : GtkPositionType;
  current_position : GtkPositionType;
  modal : bool;
  state : PopoverState;
  visible : bool;
  first_frame_skipped : bool;
  transition_diff : Z;
  tick_id : Z }.

(** Modelled from the spec: what the popover inherits from GtkWidget
    (gtkwidget.c is not part of this file): the visible, realized and
    mapped flags ("make the popover visible", "the surface is fully
    initialized"), the opacity last set, and the frame-tick subscriptions
    of the "frame clock service" ([add_tick_callback] returns a token,
    [remove_tick_callback] takes it back). *)
Record GtkWidgetPart := {
  w_visible : bool;
  w_realized : bool;
  w_mapped : bool;
  w_opacity : Q;
  w_ticks : list Z;
  w_last_tick_id : Z }.

Record GtkPopover := {
  priv : GtkPopoverPrivate;
  wdg : GtkWidgetPart;
  trace : list Effect }.

Definition priv_set_widget (v : option GtkWidget) (r : GtkPopoverPrivate) : GtkPopoverPrivate :=
  {| widget := v; window := window r; prev_focus_widget := prev_focus_widget r;
     pointing_to := pointing_to r; constraint := constraint r; tracker := tracker r;
     has_pointing_to := has_pointing_to r; preferred_position := preferred_position r;
     final_position := final_position r; current_position := current_position r;
     modal := modal r; state := state r; visible := visible r;
     first_frame_skipped := first_frame_skipped r;
     transition_diff := transition_diff r; tick_id := tick_id r |}.

Definition priv_set_window (v : option GtkWindow) (r : GtkPopoverPrivate) : GtkPopoverPrivate :=
  {| widget := widget r; window := v; prev_focus_widget := prev_focus_widget r;
     pointing_to := pointing_to r; constraint := constraint r; tracker := tracker r;
     has_pointing_to := has_pointing_to r; preferred_position := preferred_position r;
     final_position := final_position r; current_position := current_position r;
     modal := modal r; state := state r; visible := visible r;
     first_frame_skipped := first_frame_skipped r;
     transition_diff := transition_diff r; tick_id := tick_id r |}.

Definition priv_set_prev_focus_widget (v : option GtkWidget) (r : GtkPopoverPrivate) : GtkPopoverPrivate :=
  {| widget := widget r; window := window r; prev_focus_widget := v;
     pointing_to := pointing_to r; constraint := constraint r; tracker := tracker r;
     has_pointing_to := has_pointing_to r; preferred_position := preferred_position r;
     final_position := final_position r; current_position := current_position r;
     modal := modal r; state := state r; visible := visible r;
     first_frame_skipped := first_frame_skipped r;
     transition_diff := transition_diff r; tick_id := tick_id r |}.

Definition priv_set_pointing_to (v : GdkRectangle) (r : GtkPopoverPrivate) : GtkPopoverPrivate :=
  {| widget := widget r; window := window r; prev_focus_widget := prev_focus_widget r;
     pointing_to := v; constraint := constraint r; tracker := tracker r;
     has_pointing_to := has_pointing_to r; preferred_position := preferred_position r;
     final_position := final_position r; current_position := current_position r;
     modal := modal r; state := state r; visible := visible r;
     first_frame_skipped := first_frame_skipped r;
     transition_diff := transition_diff r; tick_id := tick_id r |}.

Definition priv_set_constraint (v : GtkPopoverConstraint) (r : GtkPopoverPrivate) : GtkPopoverPrivate :=
  {| widget := widget r; window := window r; prev_focus_widget := prev_focus_widget r;
     pointing_to := pointing_to r; constraint := v; tracker := tracker r;
     has_pointing_to := has_pointing_to r; preferred_position := preferred_position r;
     final_position := final_position r; current_position := current_position r;
     modal := modal r; state := state r; visible := visible r;
     first_frame_skipped := first_frame_skipped r;
     transition_diff := transition_diff r; tick_id := tick_id r |}.

Definition priv_set_tracker (v : GtkProgressTracker) (r : GtkPopoverPrivate) : GtkPopoverPrivate :=
  {| widget := widget r; window := window r; prev_focus_widget := prev_focus_widget r;
     pointing_to := pointing_to r; constraint := constraint r; tracker := v;
     has_pointing_to := has_pointing_to r; preferred_position := preferred_position r;
     final_position := final_position r; current_position := current_position r;
     modal := modal r; state := state r; visible := visible r;
     first_frame_skipped := first_frame_skipped r;
     transition_diff := transition_diff r; tick_id := tick_id r |}.

Definition priv_set_has_pointing_to (v : bool) (r : GtkPopoverPrivate) : GtkPopoverPrivate :=
  {| widget := widget r; window := window r; prev_focus_widget := prev_focus_widget r;
     pointing_to := pointing_to r; constraint := constraint r; tracker := tracker r;
     has_pointing_to := v; preferred_position := preferred_position r;
     final_position := final_position r; current_position := current_position r;
     modal := modal r; state := state r; visible := visible r;
     first_frame_skipped := first_frame_skipped r;
     transition_diff := transition_diff r; tick_id := tick_id r |}.

Definition priv_set_preferred_position (v : GtkPositionType) (r : GtkPopoverPrivate) : GtkPopoverPrivate :=
  {| widget := widget r; window := window r; prev_focus_widget := prev_focus_widget r;
     pointing_to := pointing_to r; constraint := constraint r; tracker := tracker r;
     has_pointing_to := has_pointing_to r; preferred_position := v;
     final_position := final_position r; current_position := current_position r;
     modal := modal r; state := state r; visible := visible r;
     first_frame_skipped := first_frame_skipped r;
     transition_diff := transition_diff r; tick_id := tick_id r |}.

Definition priv_set_final_position (v : GtkPositionType) (r : GtkPopoverPrivate) : GtkPopoverPrivate :=
  {| widget := widget r; window := window r; prev_focus_widget := prev_focus_widget r;
     pointing_to := pointing_to r; constraint := constraint r; tracker := tracker r;
     has_pointing_to := has_pointing_to r; preferred_position := preferred_position r;
     final_position := v; current_position := current_position r; modal := modal r;
     state := state r; visible := visible r;
     first_frame_skipped := first_frame_skipped r;
     transition_diff := transition_diff r; tick_id := tick_id r |}.

Definition priv_set_current_position (v : GtkPositionType) (r : GtkPopoverPrivate) : GtkPopoverPrivate :=
  {| widget := widget r; window := window r; prev_focus_widget := prev_focus_widget r;
     pointing_to := pointing_to r; constraint := constraint r; tracker := tracker r;
     has_pointing_to := has_pointing_to r; preferred_position := preferred_position r;
     final_position := final_position r; current_position := v; modal := modal r;
     state := state r; visible := visible r;
     first_frame_skipped := first_frame_skipped r;
     transition_diff := transition_diff r; tick_id := tick_id r |}.

Definition priv_set_modal (v : bool) (r : GtkPopoverPrivate) : GtkPopoverPrivate :=
  {| widget := widget r; window := window r; prev_focus_widget := prev_focus_widget r;
     pointing_to := pointing_to r; constraint := constraint r; tracker := tracker r;
     has_pointing_to := has_pointing_to r; preferred_position := preferred_position r;
     final_position := final_position r; current_position := current_position r;
     modal := v; state := state r; visible := visible r;
     first_frame_skipped := first_frame_skipped r;
     transition_diff := transition_diff r; tick_id := tick_id r |}.

Definition priv_set_state (v : PopoverState) (r : GtkPopoverPrivate) : GtkPopoverPrivate :=
  {| widget := widget r; window := window r; prev_focus_widget := prev_focus_widget r;
     pointing_to := pointing_to r; constraint := constraint r; tracker := tracker r;
     has_pointing_to := has_pointing_to r; preferred_position := preferred_position r;
     final_position := final_position r; current_position := current_position r;
     modal := modal r; state := v; visible := visible r;
     first_frame_skipped := first_frame_skipped r;
     transition_diff := transition_diff r; tick_id := tick_id r |}.

Definition priv_set_visible (v : bool) (r : GtkPopoverPrivate) : GtkPopoverPrivate :=
  {| widget := widget r; window := window r; prev_focus_widget := prev_focus_widget r;
     pointing_to := pointing_to r; constraint := constraint r; tracker := tracker r;
     has_pointing_to := has_pointing_to r; preferred_position := preferred_position r;
     final_position := final_position r; current_position := current_position r;
     modal := modal r; state := state r; visible := v;
     first_frame_skipped := first_frame_skipped r;
     transition_diff := transition_diff r; tick_id := tick_id r |}.

Definition priv_set_first_frame_skipped (v : bool) (r : GtkPopoverPrivate) : GtkPopoverPrivate :=
  {| widget := widget r; window := window r; prev_focus_widget := prev_focus_widget r;
     pointing_to := pointing_to r; constraint := constraint r; tracker := tracker r;
     has_pointing_to := has_pointing_to r; preferred_position := preferred_position r;
     final_position := final_position r; current_position := current_position r;
     modal := modal r; state := state r; visible := visible r;
     first_frame_skipped := v; transition_diff := transition_diff r;
     tick_id := tick_id r |}.

Definition priv_set_transition_diff (v : Z) (r : GtkPopoverPrivate) : GtkPopoverPrivate :=
  {| widget := widget r; window := window r; prev_focus_widget := prev_focus_widget r;
     pointing_to := pointing_to r; constraint := constraint r; tracker := tracker r;
     has_pointing_to := has_pointing_to r; preferred_position := preferred_position r;
     final_position := final_position r; current_position := current_position r;
     modal := modal r; state := state r; visible := visible r;
     first_frame_skipped := first_frame_skipped r; transition_diff := v;
     tick_id := tick_id r |}.

Definition priv_set_tick_id (v : Z) (r : GtkPopoverPrivate) : GtkPopoverPrivate :=
  {| widget := widget r; window := window r; prev_focus_widget := prev_focus_widget r;
     pointing_to := pointing_to r; constraint := constraint r; tracker := tracker r;
     has_pointing_to := has_pointing_to r; preferred_position := preferred_position r;
     final_position := final_position r; current_position := current_position r;
     modal := modal r; state := state r; visible := visible r;
     first_frame_skipped := first_frame_skipped r;
     transition_diff := transition_diff r; tick_id := v |}.

Definition wdg_set_w_visible (v : bool) (r : GtkWidgetPart) : GtkWidgetPart :=
  {| w_visible := v; w_realized := w_realized r; w_mapped := w_mapped r;
     w_opacity := w_opacity r; w_ticks := w_ticks r; w_last_tick_id := w_last_tick_id r |}.

Definition wdg_set_w_realized (v : bool) (r : GtkWidgetPart) : GtkWidgetPart :=
  {| w_visible := w_visible r; w_realized := v; w_mapped := w_mapped r;
     w_opacity := w_opacity r; w_ticks := w_ticks r; w_last_tick_id := w_last_tick_id r |}.

Definition wdg_set_w_mapped (v : bool) (r : GtkWidgetPart) : GtkWidgetPart :=
  {| w_visible := w_visible r; w_realized := w_realized r; w_mapped := v;
     w_opacity := w_opacity r; w_ticks := w_ticks r; w_last_tick_id := w_last_tick_id r |}.

Definition wdg_set_w_opacity (v : Q) (r : GtkWidgetPart) : GtkWidgetPart :=
  {| w_visible := w_visible r; w_realized := w_realized r; w_mapped := w_mapped r;
     w_opacity := v; w_ticks := w_ticks r; w_last_tick_id := w_last_tick_id r |}.

Definition wdg_set_w_ticks (v : list Z) (r : GtkWidgetPart) : GtkWidgetPart :=
  {| w_visible := w_visible r; w_realized := w_realized r; w_mapped := w_mapped r;
     w_opacity := w_opacity r; w_ticks := v; w_last_tick_id := w_last_tick_id r |}.

Definition wdg_set_w_last_tick_id (v : Z) (r : GtkWidgetPart) : GtkWidgetPart :=
  {| w_visible := w_visible r; w_realized := w_realized r; w_mapped := w_mapped r;
     w_opacity := w_opacity r; w_ticks := w_ticks r; w_last_tick_id := v |}.


Definition on_priv (f : GtkPopoverPrivate -> GtkPopoverPrivate) (p : GtkPopover)
  : GtkPopover :=
  {| priv := f (priv p); wdg := wdg p; trace := trace p |}.

Definition on_wdg (f : GtkWidgetPart -> GtkWidgetPart) (p : GtkPopover)
  : GtkPopover :=
  {| priv := priv p; wdg := f (wdg p); trace := trace p |}.

(** Record an effect on the outside world. *)
Definition emit (ev : Effect) (p : GtkPopover) : GtkPopover :=
  {| priv := priv p; wdg := wdg p; trace := trace p ++ [ev] |}.

(* ------------------------------------------------------------------ *)
(** ** Pointing rectangle *)

(** gtk_popover_update_pointing_to *)
Definition gtk_popover_update_pointing_to (pointing : option GdkRectangle)
  (p : GtkPopover) : GtkPopover :=
  match pointing with
  | Some r =>
      on_priv (fun q => priv_set_has_pointing_to true (priv_set_pointing_to r q)) p
  | None => on_priv (priv_set_has_pointing_to false) p
  end.

(** gtk_popover_get_pointing_to: the result and the content of the
    out-parameter, which held [rect] before the call. *)
Definition gtk_popover_get_pointing_to (e : Env) (p : GtkPopover)
  (rect : GdkRectangle) : bool * GdkRectangle :=
  let rect :=
    if has_pointing_to (priv p) then pointing_to (priv p)
    else match widget (priv p) with
         | Some w => own_allocation e w
         | None => rect
         end in
  (has_pointing_to (priv p), rect).

(* ------------------------------------------------------------------ *)
(** ** Side resolution *)

(** get_effective_position *)
Definition get_effective_position (e : Env) (pos : GtkPositionType)
  : GtkPositionType :=
  if text_dir_rtl e then
    if position_eqb pos GTK_POS_LEFT then GTK_POS_RIGHT
    else if position_eqb pos GTK_POS_RIGHT then GTK_POS_LEFT
    else pos
  else pos.

(** opposite_position *)
Definition opposite_position (pos : GtkPositionType) : GtkPositionType :=
  match pos with
  | GTK_POS_LEFT => GTK_POS_RIGHT
  | GTK_POS_RIGHT => GTK_POS_LEFT
  | GTK_POS_TOP => GTK_POS_BOTTOM
  | GTK_POS_BOTTOM => GTK_POS_TOP
  end.

(** The pointing rectangle moved into the coordinates given by
    [translate], as [gtk_widget_translate_coordinates] does on
    [rect.x], [rect.y]. *)
Definition translate_rect (translate : Z -> Z -> Z * Z) (rect : GdkRectangle)
  : GdkRectangle :=
  let (x, y) := translate (rx rect) (ry rect) in
  {| rx := x; ry := y; rwidth := rwidth rect; rheight := rheight rect |}.

(** The array [overshoot[4]] of gtk_popover_update_position, indexed by
    side. *)
Definition overshoot (e : Env) (rect : GdkRectangle) (j : GtkPositionType) : Z :=
  let req := preferred_size e in
  let window_alloc := window_alloc e in
  let window_shadow := window_shadow e in
  match j with
  | GTK_POS_TOP =>
      GInt.add (GInt.sub (req_height req) (ry rect)) (b_top window_shadow)
  | GTK_POS_BOTTOM =>
      GInt.add
        (GInt.sub (GInt.add (GInt.add (ry rect) (rheight rect)) (req_height req))
                  (alloc_height window_alloc))
        (b_bottom window_shadow)
  | GTK_POS_LEFT =>
      GInt.add (GInt.sub (req_width req) (rx rect)) (b_left window_shadow)
  | GTK_POS_RIGHT =>
      GInt.add
        (GInt.sub (GInt.add (GInt.add (rx rect) (rwidth rect)) (req_width req))
                  (alloc_width window_alloc))
        (b_right window_shadow)
  end.

(** One turn of the loop [for (i = 0; i < 4; i++)]: the pair is
    [(pos, best)]. *)
Definition best_step (e : Env) (ov : GtkPositionType -> Z)
  (acc : GtkPositionType * Z) (i : Z) : GtkPositionType * Z :=
  let j := get_effective_position e (position_of_value i) in
  if ov j <? snd acc then (position_of_value i, ov j) else acc.

(** The whole loop, from [best = G_MAXINT; pos = 0]. *)
Definition best_position (e : Env) (ov : GtkPositionType -> Z) : GtkPositionType :=
  fst (fold_left (best_step e ov) [0; 1; 2; 3]
                 (position_of_value 0, GInt.G_MAXINT)).

(** The branch of gtk_popover_update_position that is compiled under
    GDK_WINDOWING_WAYLAND. *)
Definition unconstrained (e : Env) (p : GtkPopover) : bool :=
  wayland_display e &&
  match constraint (priv p) with
  | GTK_POPOVER_CONSTRAINT_NONE => true
  | GTK_POPOVER_CONSTRAINT_WINDOW => false
  end.

(** The value gtk_popover_update_position gives to [final_position]. *)
Definition choose_final_position (e : Env) (p : GtkPopover) (rect : GdkRectangle)
  : GtkPositionType :=
  let pos := get_effective_position e (preferred_position (priv p)) in
  if unconstrained e p then preferred_position (priv p)
  else if overshoot e rect pos <=? 0 then preferred_position (priv p)
  else if overshoot e rect (opposite_position pos) <=? 0
       then opposite_position (preferred_position (priv p))
  else best_position e (overshoot e rect).

(** The pointing rectangle in window coordinates, as
    gtk_popover_update_position computes it. *)
Definition anchor_rect (e : Env) (p : GtkPopover) : GdkRectangle :=
  translate_rect (translate_to_window e)
                 (snd (gtk_popover_get_pointing_to e p rect_zero)).

(** The switch on [final_position] that moves the rectangle by
    [transition_diff]. *)
Definition offset_rect (pos : GtkPositionType) (diff : Z) (rect : GdkRectangle)
  : GdkRectangle :=
  match pos with
  | GTK_POS_TOP =>
      {| rx := rx rect; ry := GInt.add (ry rect) diff;
         rwidth := rwidth rect; rheight := rheight rect |}
  | GTK_POS_BOTTOM =>
      {| rx := rx rect; ry := GInt.sub (ry rect) diff;
         rwidth := rwidth rect; rheight := rheight rect |}
  | GTK_POS_LEFT =>
      {| rx := GInt.add (rx rect) diff; ry := ry rect;
         rwidth := rwidth rect; rheight := rheight rect |}
  | GTK_POS_RIGHT =>
      {| rx := GInt.sub (rx rect) diff; ry := ry rect;
         rwidth := rwidth rect; rheight := rheight rect |}
  end.

(** gtk_popover_update_shape: nothing on Wayland, otherwise the surface
    is reshaped. *)
Definition gtk_popover_update_shape (e : Env) (p : GtkPopover) : GtkPopover :=
  if wayland_display e then p else emit UpdateShape p.

(** gtk_widget_is_drawable (popover) *)
Definition popover_is_drawable (p : GtkPopover) : bool :=
  w_visible (wdg p) && w_mapped (wdg p).

(** gtk_popover_update_position.  The last call,
    _gtk_popover_update_child_visible, only toggles the child-visible
    flag inside a scrollable parent and is left out. *)
Definition gtk_popover_update_position (e : Env) (p : GtkPopover) : GtkPopover :=
  match window (priv p) with
  | None => p
  | Some _ =>
      let p := on_priv (fun q => priv_set_final_position (preferred_position q) q) p in
      let rect := anchor_rect e p in
      let final := choose_final_position e p rect in
      let p := on_priv (priv_set_final_position final) p in
      let rect := offset_rect final (transition_diff (priv p)) rect in
      let p := emit (SetPopoverPosition final rect) p in
      if negb (position_eqb (final_position (priv p)) (current_position (priv p)))
      then
        let p := if popover_is_drawable p then gtk_popover_update_shape e p else p in
        on_priv (priv_set_current_position (final_position (priv p))) p
      else p
  end.

(* ------------------------------------------------------------------ *)
(** ** Arrow geometry *)

Record GapCoords := {
  initial_x : Z;
  initial_y : Z;
  tip_x : Z;
  tip_y : Z;
  final_x : Z;
  final_y : Z }.

(** The pointing rectangle in popover coordinates, as
    gtk_popover_get_gap_coords computes it. *)
Definition gap_rect (e : Env) (p : GtkPopover) : GdkRectangle :=
  let rect := snd (gtk_popover_get_pointing_to e p rect_zero) in
  if wayland_display e then
    let rect := translate_rect (translate_to_window e) rect in
    {| rx := GInt.sub (rx rect) (fst (window_origin e));
       ry := GInt.sub (ry rect) (snd (window_origin e));
       rwidth := rwidth rect; rheight := rheight rect |}
  else translate_rect (translate_to_popover e) rect.

(** gtk_popover_get_gap_coords *)
Definition gtk_popover_get_gap_coords (e : Env) (p : GtkPopover) : GapCoords :=
  let rect := gap_rect e p in
  let popover_width := popover_width e in
  let popover_height := popover_height e in
  let border := contents_border e in
  let pos := get_effective_position e (final_position (priv p)) in
  let border_radius := border_radius e in
  let '(base, tip) :=
    match pos with
    | GTK_POS_BOTTOM | GTK_POS_RIGHT =>
        (GInt.add (GInt.add 0 TAIL_HEIGHT) (b_top border), 0)
    | GTK_POS_TOP =>
        let base := GInt.sub (GInt.sub popover_height (b_bottom border)) TAIL_HEIGHT in
        (base, GInt.add base TAIL_HEIGHT)
    | GTK_POS_LEFT =>
        let base := GInt.sub (GInt.sub popover_width (b_right border)) TAIL_HEIGHT in
        (base, GInt.add base TAIL_HEIGHT)
    end in
  if POS_IS_VERTICAL pos then
    let tip_pos := GInt.add (rx rect) (GInt.div (rwidth rect) 2) in
    {| initial_x :=
         CLAMP (GInt.sub tip_pos (GInt.div TAIL_GAP_WIDTH 2))
               border_radius
               (GInt.sub (GInt.sub popover_width TAIL_GAP_WIDTH) border_radius);
       initial_y := base;
       tip_x := CLAMP tip_pos 0 popover_width;
       tip_y := tip;
       final_x :=
         CLAMP (GInt.add tip_pos (GInt.div TAIL_GAP_WIDTH 2))
               (GInt.add border_radius TAIL_GAP_WIDTH)
               (GInt.sub popover_width border_radius);
       final_y := base |}
  else
    let tip_pos := GInt.add (ry rect) (GInt.div (rheight rect) 2) in
    {| initial_x := base;
       initial_y :=
         CLAMP (GInt.sub tip_pos (GInt.div TAIL_GAP_WIDTH 2))
               border_radius
               (GInt.sub (GInt.sub popover_height TAIL_GAP_WIDTH) border_radius);
       tip_x := tip;
       tip_y := CLAMP tip_pos 0 popover_height;
       final_x := base;
       final_y :=
         CLAMP (GInt.add tip_pos (GInt.div TAIL_GAP_WIDTH 2))
               (GInt.add border_radius TAIL_GAP_WIDTH)
               (GInt.sub popover_height border_radius) |}.

(* ------------------------------------------------------------------ *)
(** ** Modality *)

(** popover_unset_prev_focus *)
Definition popover_unset_prev_focus (p : GtkPopover) : GtkPopover :=
  match prev_focus_widget (priv p) with
  | None => p
  | Some _ => on_priv (priv_set_prev_focus_widget None) p
  end.

(** gtk_popover_apply_modality *)
Definition gtk_popover_apply_modality (e : Env) (m : bool) (p : GtkPopover)
  : GtkPopover :=
  match window (priv p) with
  | None => p
  | Some _ =>
      if m then
        let p := on_priv (priv_set_prev_focus_widget (window_focus e)) p in
        let p := emit GrabAdd p in
        let p := emit WindowSetFocusNull p in
        let p := emit GrabFocusPopover p in
        emit ConnectWindowHandlers p
      else
        let p := emit DisconnectWindowHandlers p in
        let p := emit GrabRemove p in
        let p :=
          match prev_focus_widget (priv p) with
          | Some w =>
              if is_drawable e w then
                if is_entry e w then emit (GrabFocusEntryWithoutSelecting w) p
                else emit (GrabFocusWidget w) p
              else emit GrabFocusWindow p
          | None => emit GrabFocusWindow p
          end in
        popover_unset_prev_focus p
  end.

(* ------------------------------------------------------------------ *)
(** ** Transition state machine *)

(** gtk_popover_hide_internal *)
Definition gtk_popover_hide_internal (e : Env) (p : GtkPopover) : GtkPopover :=
  if negb (visible (priv p)) then p
  else
    let p := on_priv (priv_set_visible false) p in
    let p := emit EmitClosed p in
    let p := if modal (priv p) then gtk_popover_apply_modality e false p else p in
    if w_realized (wdg p) then emit InputShapeEmpty p else p.

(** Modelled from the spec: gtk_widget_remove_tick_callback of the
    "frame clock service", [remove_tick_callback(token)]. *)
Definition gtk_widget_remove_tick_callback (id : Z) (p : GtkPopover) : GtkPopover :=
  on_wdg (fun w => wdg_set_w_ticks (remove Z.eq_dec id (w_ticks w)) w) p.

(** Modelled from the spec: gtk_widget_add_tick_callback of the "frame
    clock service", [add_tick_callback(fn) -> token]; the token is fresh
    and not 0. *)
Definition gtk_widget_add_tick_callback (p : GtkPopover) : GtkPopover * Z :=
  let id := w_last_tick_id (wdg p) + 1 in
  (on_wdg (fun w => wdg_set_w_last_tick_id id (wdg_set_w_ticks (w_ticks w ++ [id]) w)) p,
   id).

(** gtk_popover_stop_transition *)
Definition gtk_popover_stop_transition (p : GtkPopover) : GtkPopover :=
  if negb (tick_id (priv p) =? 0) then
    let p := gtk_widget_remove_tick_callback (tick_id (priv p)) p in
    on_priv (priv_set_tick_id 0) p
  else p.

(** gtk_popover_start_transition *)
Definition gtk_popover_start_transition (p : GtkPopover) : GtkPopover :=
  if negb (tick_id (priv p) =? 0) then p
  else
    let p := on_priv (priv_set_first_frame_skipped false) p in
    let p := on_priv (priv_set_tracker (Tracker.start TRANSITION_DURATION 0 1)) p in
    let (p, id) := gtk_widget_add_tick_callback p in
    on_priv (priv_set_tick_id id) p.

(** gtk_popover_map, after the parent class has marked the widget
    mapped: the position is recomputed. *)
Definition gtk_popover_map (e : Env) (p : GtkPopover) : GtkPopover :=
  gtk_popover_update_position e (on_wdg (wdg_set_w_mapped true) p).

(** Modelled from the spec: the parent class handler of show
    (gtk_widget_real_show): "make the popover visible"; when the parent
    is mapped the widget is realized if needed ("the surface is fully
    initialized") and mapped. *)
Definition gtk_widget_real_show (e : Env) (p : GtkPopover) : GtkPopover :=
  let p := on_wdg (wdg_set_w_visible true) p in
  if parent_mapped e && negb (w_mapped (wdg p)) then
    gtk_popover_map e (on_wdg (wdg_set_w_realized true) p)
  else p.

(** Modelled from the spec: the parent class handler of hide
    (gtk_widget_real_hide): "making the popover invisible"; a mapped
    widget is unmapped. *)
Definition gtk_widget_real_hide (p : GtkPopover) : GtkPopover :=
  on_wdg (fun w => wdg_set_w_mapped false (wdg_set_w_visible false w)) p.

(** gtk_popover_show, the show handler of the class *)
Definition gtk_popover_show (e : Env) (p : GtkPopover) : GtkPopover :=
  let p := match window (priv p) with
           | Some _ => emit RaisePopover p
           | None => p
           end in
  let p := on_priv (priv_set_visible true) p in
  let p := gtk_widget_real_show e p in
  let p := if modal (priv p) then gtk_popover_apply_modality e true p else p in
  let p := on_priv (priv_set_state STATE_SHOWN) p in
  if w_realized (wdg p) then emit InputShapeUnset p else p.

(** gtk_popover_hide, the hide handler of the class *)
Definition gtk_popover_hide (e : Env) (p : GtkPopover) : GtkPopover :=
  let p := gtk_popover_hide_internal e p in
  let p := gtk_popover_stop_transition p in
  let p := on_priv (priv_set_state STATE_HIDDEN) p in
  let p := on_priv (priv_set_transition_diff 0) p in
  let p := on_priv (fun q => priv_set_tracker (Tracker.finish (tracker q)) q) p in
  let p := on_wdg (wdg_set_w_opacity 1%Q) p in
  gtk_widget_real_hide p.

(** Modelled from the spec: gtk_widget_show runs the show handler of a
    widget that is not visible yet and does nothing otherwise. *)
Definition gtk_widget_show (e : Env) (p : GtkPopover) : GtkPopover :=
  if w_visible (wdg p) then p else gtk_popover_show e p.

(** Modelled from the spec: gtk_widget_hide runs the hide handler of a
    visible widget and does nothing otherwise. *)
Definition gtk_widget_hide (e : Env) (p : GtkPopover) : GtkPopover :=
  if w_visible (wdg p) then gtk_popover_hide e p else p.

(** Modelled from the spec: gtk_widget_set_visible shows or hides. *)
Definition gtk_widget_set_visible (e : Env) (v : bool) (p : GtkPopover) : GtkPopover :=
  if v then gtk_widget_show e p else gtk_widget_hide e p.

(** transitions_enabled *)
Definition transitions_enabled (e : Env) : bool := enable_animations e.

(** gtk_popover_set_state *)
Definition gtk_popover_set_state (e : Env) (st : PopoverState) (p : GtkPopover)
  : GtkPopover :=
  let st :=
    if negb (transitions_enabled e) || negb (w_realized (wdg p)) then
      match st with
      | STATE_SHOWING => STATE_SHOWN
      | STATE_HIDING => STATE_HIDDEN
      | _ => st
      end
    else st in
  let p := on_priv (priv_set_state st) p in
  match st with
  | STATE_SHOWING | STATE_HIDING => gtk_popover_start_transition p
  | _ =>
      let p := gtk_popover_stop_transition p in
      gtk_widget_set_visible e (state_eqb st STATE_SHOWN) p
  end.

(** show_animate_cb: the popover after the tick and whether the
    callback stays subscribed (G_SOURCE_CONTINUE). *)
Definition show_animate_cb (e : Env) (frame_time : Z) (p : GtkPopover)
  : GtkPopover * bool :=
  let p :=
    if first_frame_skipped (priv p) then
      on_priv (fun q => priv_set_tracker (Tracker.advance_frame (tracker q) frame_time) q) p
    else on_priv (priv_set_first_frame_skipped true) p in
  let t := Tracker.get_ease_out_cubic (tracker (priv p)) in
  let p :=
    match state (priv p) with
    | STATE_SHOWING =>
        let p := on_priv (priv_set_transition_diff
                   (GInt.of_double (inject_Z TRANSITION_DIFF - inject_Z TRANSITION_DIFF * t)%Q)) p in
        on_wdg (wdg_set_w_opacity t) p
    | STATE_HIDING =>
        let p := on_priv (priv_set_transition_diff
                   (GInt.of_double (inject_Z (- TRANSITION_DIFF) * t)%Q)) p in
        on_wdg (wdg_set_w_opacity (1 - t)%Q) p
    | _ => p
    end in
  let p := gtk_popover_update_position e p in
  let p := emit QueueAllocateWindow p in
  if Tracker.is_after (tracker (priv p)) then
    let p :=
      match state (priv p) with
      | STATE_SHOWING =>
          let p := gtk_popover_set_state e STATE_SHOWN p in
          if negb (visible (priv p)) then gtk_popover_set_state e STATE_HIDING p
          else p
      | _ => gtk_widget_hide e p
      end in
    (on_priv (priv_set_tick_id 0) p, false)
  else (p, true).

(** Modelled from the spec: the turn of one callback in a display
    refresh; a callback that is still subscribed when its turn comes is
    "invoked once per refresh" and is dropped when it returns the stop
    signal.  Every callback of a popover is show_animate_cb. *)
Definition run_tick_callback (e : Env) (frame_time : Z) (p : GtkPopover) (id : Z)
  : GtkPopover :=
  if existsb (Z.eqb id) (w_ticks (wdg p)) then
    let (p, continue) := show_animate_cb e frame_time p in
    if continue then p else gtk_widget_remove_tick_callback id p
  else p.

(** Modelled from the spec: one display refresh, over the callbacks
    subscribed when it starts. *)
Definition frame_tick (e : Env) (frame_time : Z) (p : GtkPopover) : GtkPopover :=
  fold_left (run_tick_callback e frame_time) (w_ticks (wdg p)) p.

(** Successive display refreshes, oldest first. *)
Definition run_frames (frames : list (Env * Z)) (p : GtkPopover) : GtkPopover :=
  fold_left (fun p f => frame_tick (fst f) (snd f) p) frames p.

(** gtk_popover_popup *)
Definition gtk_popover_popup (e : Env) (p : GtkPopover) : GtkPopover :=
  match state (priv p) with
  | STATE_SHOWING | STATE_SHOWN => p
  | _ =>
      let p := gtk_widget_show e p in
      if transitions_enabled e then gtk_popover_set_state e STATE_SHOWING p else p
  end.

(** gtk_popover_popdown *)
Definition gtk_popover_popdown (e : Env) (p : GtkPopover) : GtkPopover :=
  match state (priv p) with
  | STATE_HIDING | STATE_HIDDEN => p
  | _ =>
      let p :=
        if negb (transitions_enabled e) then gtk_widget_hide e p
        else gtk_popover_set_state e STATE_HIDING p in
      gtk_popover_hide_internal e p
  end.

(* ------------------------------------------------------------------ *)
(** ** Construction and setters *)

(** gtk_popover_init, on the instance [p] the type system hands it. *)
Definition gtk_popover_init (p : GtkPopover) : GtkPopover :=
  let p := on_priv (priv_set_modal true) p in
  let p := on_priv (priv_set_tick_id 0) p in
  let p := on_priv (priv_set_state STATE_HIDDEN) p in
  let p := on_priv (priv_set_visible false) p in
  let p := on_priv (priv_set_preferred_position GTK_POS_TOP) p in
  on_priv (priv_set_constraint GTK_POPOVER_CONSTRAINT_WINDOW) p.

(** A zero-filled instance, as the type system allocates it. *)
Definition zero_instance : GtkPopover :=
  {| priv :=
       {| widget := None; window := None; prev_focus_widget := None;
          pointing_to := rect_zero;
          constraint := GTK_POPOVER_CONSTRAINT_NONE;
          tracker := {| is_running := false; last_frame_time := 0; duration := 0;
                        iteration := 0; iteration_count := 0 |};
          has_pointing_to := false;
          preferred_position := position_of_value 0;
          final_position := position_of_value 0;
          current_position := position_of_value 0;
          modal := false; state := STATE_SHOWING; visible := false;
          first_frame_skipped := false; transition_diff := 0; tick_id := 0 |};
     wdg := {| w_visible := false; w_realized := false; w_mapped := false;
               w_opacity := 1; w_ticks := []; w_last_tick_id := 0 |};
     trace := [] |}.

(** gtk_popover_update_relative_to, as far as the private fields go: the
    popover leaves its old window, forgets the saved focus and follows
    [relative_to] into that widget's window.  The signal connections and
    the ownership bookkeeping are left out. *)
Definition gtk_popover_update_relative_to (e : Env) (relative_to : option GtkWidget)
  (p : GtkPopover) : GtkPopover :=
  let same :=
    match widget (priv p), relative_to with
    | None, None => true
    | Some a, Some b => Nat.eqb a b
    | _, _ => false
    end in
  if same then p
  else
    let p := on_priv (priv_set_window None) p in
    let p := popover_unset_prev_focus p in
    let p := on_priv (priv_set_widget relative_to) p in
    match widget (priv p) with
    | Some w => on_priv (priv_set_window (ancestor_window e w)) p
    | None => p
    end.

(** gtk_popover_set_relative_to *)
Definition gtk_popover_set_relative_to (e : Env) (relative_to : option GtkWidget)
  (p : GtkPopover) : GtkPopover :=
  let p := gtk_popover_update_relative_to e relative_to p in
  match relative_to with
  | Some _ => gtk_popover_update_position e p
  | None => p
  end.

(** gtk_popover_new: the instance is initialised and the construction
    property relative-to is set. *)
Definition gtk_popover_new (e : Env) (relative_to : option GtkWidget) : GtkPopover :=
  gtk_popover_set_relative_to e relative_to (gtk_popover_init zero_instance).

(** gtk_popover_set_pointing_to; the setter refuses a NULL rectangle. *)
Definition gtk_popover_set_pointing_to (e : Env) (rect : GdkRectangle)
  (p : GtkPopover) : GtkPopover :=
  let p := gtk_popover_update_pointing_to (Some rect) p in
  gtk_popover_update_position e p.

(** gtk_popover_set_position *)
Definition gtk_popover_set_position (e : Env) (position : GtkPositionType)
  (p : GtkPopover) : GtkPopover :=
  let p := if position_eqb (preferred_position (priv p)) position then p
           else on_priv (priv_set_preferred_position position) p in
  gtk_popover_update_position e p.

(** gtk_popover_set_constrain_to *)
Definition gtk_popover_set_constrain_to (e : Env) (c : GtkPopoverConstraint)
  (p : GtkPopover) : GtkPopover :=
  match constraint (priv p), c with
  | GTK_POPOVER_CONSTRAINT_NONE, GTK_POPOVER_CONSTRAINT_NONE
  | GTK_POPOVER_CONSTRAINT_WINDOW, GTK_POPOVER_CONSTRAINT_WINDOW => p
  | _, _ =>
      let p := on_priv (priv_set_constraint c) p in
      gtk_popover_update_position e p
  end.

(* ------------------------------------------------------------------ *)
(** ** Scenarios

    A window of 800 x 600 without shadow, a popover that asks for
    200 x 100, and an anchor widget allocated 20 x 20 whose origin lies
    at [(dx, dy)] in the window. *)

Definition scenario_env (rtl wayland animations : bool) (dx dy : Z) : Env :=
  {| enable_animations := animations;
     text_dir_rtl := rtl;
     wayland_display := wayland;
     preferred_size := {| req_width := 200; req_height := 100 |};
     window_alloc := {| alloc_width := 800; alloc_height := 600 |};
     window_shadow := {| b_left := 0; b_right := 0; b_top := 0; b_bottom := 0 |};
     own_allocation := fun _ => {| rx := 0; ry := 0; rwidth := 20; rheight := 20 |};
     translate_to_window := fun x y => (x + dx, y + dy);
     translate_to_popover := fun x y => (x + 100, y + 100);
     window_origin := (0, 0);
     popover_width := 200;
     popover_height := 100;
     contents_border := {| b_left := 1; b_right := 1; b_top := 1; b_bottom := 1 |};
     border_radius := 5;
     parent_mapped := true;
     window_focus := Some 7%nat;
     is_drawable := fun _ => true;
     is_entry := fun _ => false;
     ancestor_window := fun _ => Some 0%nat |}.

(** The anchor of the scenarios is widget 1. *)
Definition scenario_popover (e : Env) (pos : GtkPositionType)
  (c : GtkPopoverConstraint) : GtkPopover :=
  gtk_popover_set_constrain_to e c
    (gtk_popover_set_position e pos (gtk_popover_new e (Some 1%nat))).

(** A window of 100 x 100 and a popover of 100 x 100 around an anchor in
    the middle: no side has room. *)
Definition crowded_env (rtl wayland : bool) (req_w req_h dx dy : Z) : Env :=
  {| enable_animations := true;
     text_dir_rtl := rtl;
     wayland_display := wayland;
     preferred_size := {| req_width := req_w; req_height := req_h |};
     window_alloc := {| alloc_width := 100; alloc_height := 100 |};
     window_shadow := {| b_left := 0; b_right := 0; b_top := 0; b_bottom := 0 |};
     own_allocation := fun _ => {| rx := 0; ry := 0; rwidth := 20; rheight := 20 |};
     translate_to_window := fun x y => (x + dx, y + dy);
     translate_to_popover := fun x y => (x, y);
     window_origin := (0, 0);
     popover_width := req_w;
     popover_height := req_h;
     contents_border := {| b_left := 1; b_right := 1; b_top := 1; b_bottom := 1 |};
     border_radius := 5;
     parent_mapped := true;
     window_focus := None;
     is_drawable := fun _ => true;
     is_entry := fun _ => false;
     ancestor_window := fun _ => Some 0%nat |}.

(** The first side of least overshoot in the order the specification
    names: TOP, BOTTOM, LEFT, RIGHT. *)
Definition spec_first_minimum (ov : GtkPositionType -> Z) : GtkPositionType :=
  fst (fold_left
         (fun acc s => if ov s <? snd acc then (s, ov s) else acc)
         [GTK_POS_BOTTOM; GTK_POS_LEFT; GTK_POS_RIGHT]
         (GTK_POS_TOP, ov GTK_POS_TOP)).

(** What the specification means by a value [x] "clamped into"
    [[low, high]]: where the range is not empty, a value of the range,
    [x] itself when it lies inside and the nearer bound otherwise. *)
Definition clamped_into (x low high r : Z) : Prop :=
  low <= high ->
  low <= r <= high /\
  (low <= x <= high -> r = x) /\
  (x < low -> r = low) /\
  (high < x -> r = high).

(** Coordinates and sizes far from the ends of the [gint] range, so that
    the sums of the arrow geometry do not overflow. *)
Definition pixel (z : Z) : Prop := -536870912 <= z <= 536870912.

(* ------------------------------------------------------------------ *)
(** ** Histories

    What a client or the toolkit may ask of a popover that keeps its
    anchor widget, and the popover after a list of such requests, oldest
    first.  Each request comes with the environment it runs in. *)

Inductive Request :=
| Popup
| Popdown
| Show
| Hide
| Frame (frame_time : Z)
| SetPosition (pos : GtkPositionType)
| SetConstrainTo (c : GtkPopoverConstraint)
| SetPointingTo (rect : GdkRectangle)
| UpdatePosition.

Definition request (p : GtkPopover) (r : Env * Request) : GtkPopover :=
  let e := fst r in
  match snd r with
  | Popup => gtk_popover_popup e p
  | Popdown => gtk_popover_popdown e p
  | Show => gtk_widget_show e p
  | Hide => gtk_widget_hide e p
  | Frame t => frame_tick e t p
  | SetPosition pos => gtk_popover_set_position e pos p
  | SetConstrainTo c => gtk_popover_set_constrain_to e c p
  | SetPointingTo rect => gtk_popover_set_pointing_to e rect p
  | UpdatePosition => gtk_popover_update_position e p
  end.

Definition run (reqs : list (Env * Request)) (p : GtkPopover) : GtkPopover :=
  fold_left request reqs p.

Definition sets_rectangle (r : Env * Request) : bool :=
  match snd r with
  | SetPointingTo _ => true
  | _ => false
  end.

(** What gtk_popover_get_pointing_to looks at. *)
Definition pointing (p : GtkPopover) : option GtkWidget * GdkRectangle * bool :=
  (widget (priv p), pointing_to (priv p), has_pointing_to (priv p)).

(* ------------------------------------------------------------------ *)
(** ** Phases of a transition

    The situations a popover goes through between a popup and the end of
    the following popdown.  [bound] is a time no frame has exceeded so
    far. *)

(** A tracker the popover started and has not finished. *)
Definition tracker_running (bound : Z) (t : GtkProgressTracker) : Prop :=
  is_running t = true /\
  duration t = TRANSITION_DURATION /\
  iteration_count t = 1%Q /\
  (0 <= iteration t)%Q /\
  last_frame_time t <= bound.

(** Hidden and at rest: nothing is shown and no tick is subscribed. *)
Definition hidden_idle (p : GtkPopover) : Prop :=
  state (priv p) = STATE_HIDDEN /\
  visible (priv p) = false /\
  w_visible (wdg p) = false /\
  tick_id (priv p) = 0 /\
  w_ticks (wdg p) = [] /\
  0 <= w_last_tick_id (wdg p).

(** Shown and at rest. *)
Definition shown_idle (p : GtkPopover) : Prop :=
  state (priv p) = STATE_SHOWN /\
  visible (priv p) = true /\
  w_visible (wdg p) = true /\
  tick_id (priv p) = 0 /\
  w_ticks (wdg p) = [] /\
  0 <= w_last_tick_id (wdg p).

(** A transition is playing in state [st]; [vis] is the [visible] flag of
    the popover. *)
Definition animating (st : PopoverState) (vis : bool) (bound : Z) (p : GtkPopover)
  : Prop :=
  state (priv p) = st /\
  visible (priv p) = vis /\
  w_visible (wdg p) = true /\
  w_realized (wdg p) = true /\
  tick_id (priv p) <> 0 /\
  w_ticks (wdg p) = [tick_id (priv p)] /\
  0 <= w_last_tick_id (wdg p) /\
  tracker_running bound (tracker (priv p)).

(** Between popup and popdown, and after popdown. *)
Definition after_popup (bound : Z) (p : GtkPopover) : Prop :=
  shown_idle p \/ animating STATE_SHOWING true bound p.


(** The tracker as show_animate_cb reads it on a tick: advanced, unless
    the tick is the first of its transition. *)
Definition tick_tracker (frame_time : Z) (p : GtkPopover) : GtkProgressTracker :=
  if first_frame_skipped (priv p)
  then Tracker.advance_frame (tracker (priv p)) frame_time
  else tracker (priv p).

(** An environment like [e] in which the parent of the popover is not
    mapped. *)
Definition parent_unmapped (e : Env) : Env :=
  {| enable_animations := enable_animations e;
     text_dir_rtl := text_dir_rtl e;
     wayland_display := wayland_display e;
     preferred_size := preferred_size e;
     window_alloc := window_alloc e;
     window_shadow := window_shadow e;
     own_allocation := own_allocation e;
     translate_to_window := translate_to_window e;
     translate_to_popover := translate_to_popover e;
     window_origin := window_origin e;
     popover_width := popover_width e;
     popover_height := popover_height e;
     contents_border := contents_border e;
     border_radius := border_radius e;
     parent_mapped := false;
     window_focus := window_focus e;
     is_drawable := is_drawable e;
     is_entry := is_entry e;
     ancestor_window := ancestor_window e |}.

(** What gtk_popover_hide_internal emits on [p]: nothing when the
    popover is not marked visible; otherwise closed, once, with the grab
    released when the popover is modal and has a window and the input
    shape emptied when it is realized. *)
Definition hide_effects (p : GtkPopover) (effects : list Effect) : Prop :=
  if visible (priv p) then
    closed_count effects = 1%nat /\
    (modal (priv p) = true -> window (priv p) <> None -> In GrabRemove effects) /\
    (w_realized (wdg p) = true -> In InputShapeEmpty effects)
  else effects = [].

(** The offset and the opacity show_animate_cb sets in state [st] for
    the eased progress [t]; [d] and [o] are the values before the tick,
    kept in the states without a transition. *)
Definition tick_diff (st : PopoverState) (t : Q) (d : Z) : Z :=
  match st with
  | STATE_SHOWING =>
      GInt.of_double (inject_Z TRANSITION_DIFF - inject_Z TRANSITION_DIFF * t)%Q
  | STATE_HIDING => GInt.of_double (inject_Z (- TRANSITION_DIFF) * t)%Q
  | _ => d
  end.

Definition tick_opacity (st : PopoverState) (t : Q) (o : Q) : Q :=
  match st with
  | STATE_SHOWING => t
  | STATE_HIDING => (1 - t)%Q
  | _ => o
  end.

(** The widget is visible in every state but HIDDEN. *)
Definition visible_unless_hidden (p : GtkPopover) : Prop :=
  state (priv p) = STATE_HIDDEN \/ w_visible (wdg p) = true.

(* ------------------------------------------------------------------ *)
(** ** Size negotiation *)

Inductive GtkOrientation :=
| GTK_ORIENTATION_HORIZONTAL
| GTK_ORIENTATION_VERTICAL.

(** The GLib macro [MAX], [((a) > (b)) ? (a) : (b)]. *)
Definition MAX (a b : Z) : Z := if b <? a then a else b.

(** get_minimal_size; [radius] is what get_border_radius reads from the
    style of the popover. *)
Definition get_minimal_size (e : Env) (radius : Z) (p : GtkPopover)
  (orientation : GtkOrientation) : Z :=
  let minimal_size := GInt.wrap (2 * radius) in
  let pos := get_effective_position e (preferred_position (priv p)) in
  if match orientation with
     | GTK_ORIENTATION_HORIZONTAL => POS_IS_VERTICAL pos
     | GTK_ORIENTATION_VERTICAL => negb (POS_IS_VERTICAL pos)
     end
  then GInt.add minimal_size TAIL_GAP_WIDTH
  else minimal_size.

(** gtk_popover_measure: the pair [(minimum, natural)].  [has_child] says
    whether the bin has a child; [contents_measure] is gtk_widget_measure
    on the contents widget, from the orientation and [for_size] to its
    minimum and natural size. *)
Definition gtk_popover_measure (e : Env) (radius : Z) (has_child : bool)
  (contents_measure : GtkOrientation -> Z -> Z * Z)
  (p : GtkPopover) (orientation : GtkOrientation) (for_size : Z) : Z * Z :=
  let '(minimum, natural) :=
    if has_child then
      let for_size :=
        if 0 <=? for_size then GInt.sub for_size TAIL_HEIGHT else for_size in
      contents_measure orientation for_size
    else (0, 0) in
  let minimal_size := get_minimal_size e radius p orientation in
  let minimum := MAX minimum minimal_size in
  let natural := MAX natural minimal_size in
  (GInt.add minimum TAIL_HEIGHT, GInt.add natural TAIL_HEIGHT).

(** gtk_popover_size_allocate: the allocation handed to the contents
    widget, and the popover afterwards.  A realized popover is reshaped;
    the move of its GDK window is not followed. *)
Definition gtk_popover_size_allocate (e : Env) (allocation : GdkRectangle)
  (p : GtkPopover) : GdkRectangle * GtkPopover :=
  let x := rx allocation in
  let y := ry allocation in
  let height := GInt.sub (rheight allocation) TAIL_HEIGHT in
  let width := GInt.sub (rwidth allocation) TAIL_HEIGHT in
  let child_alloc :=
    match current_position (priv p) with
    | GTK_POS_TOP =>
        {| rx := GInt.add x (GInt.div TAIL_HEIGHT 2); ry := y;
           rwidth := width; rheight := height |}
    | GTK_POS_BOTTOM =>
        {| rx := GInt.add x (GInt.div TAIL_HEIGHT 2); ry := GInt.add y TAIL_HEIGHT;
           rwidth := width; rheight := height |}
    | GTK_POS_LEFT =>
        {| rx := x; ry := GInt.add y (GInt.div TAIL_HEIGHT 2);
           rwidth := width; rheight := height |}
    | GTK_POS_RIGHT =>
        {| rx := GInt.add x TAIL_HEIGHT; ry := GInt.add y (GInt.div TAIL_HEIGHT 2);
           rwidth := width; rheight := height |}
    end in
  (child_alloc,
   if w_realized (wdg p) then gtk_popover_update_shape e p else p).

(** The scrollable ancestor of the anchor, as
    _gtk_popover_update_child_visible looks at it: the translation of
    anchor coordinates into the parent of the scrollable, and the
    allocation of that parent. *)
Record ScrollableParent := {
  translate_to_parent : Z -> Z -> Z * Z;
  parent_allocation : GtkAllocation }.

(** _gtk_popover_update_child_visible: the flag it passes to
    gtk_widget_set_child_visible; [parent_scrollable] is the field of
    that name. *)
Definition _gtk_popover_update_child_visible
  (parent_scrollable : option ScrollableParent) (p : GtkPopover) : bool :=
  match parent_scrollable with
  | None => true
  | Some s =>
      let rect := translate_rect (translate_to_parent s) (pointing_to (priv p)) in
      let allocation := parent_allocation s in
      if (GInt.add (rx rect) (rwidth rect) <? 0)
         || (alloc_width allocation <? rx rect)
         || (GInt.add (ry rect) (rheight rect) <? 0)
         || (alloc_height allocation <? ry rect)
      then false
      else true
  end.

(** Two rectangles with their edges have a point in common. *)
Definition rectangles_meet (a b : GdkRectangle) : Prop :=
  exists x y : Z,
    rx a <= x <= rx a + rwidth a /\ ry a <= y <= ry a + rheight a /\
    rx b <= x <= rx b + rwidth b /\ ry b <= y <= ry b + rheight b.

(* ------------------------------------------------------------------ *)
(** ** Accessors *)

(** gtk_popover_get_relative_to *)
Definition gtk_popover_get_relative_to (p : GtkPopover) : option GtkWidget :=
  widget (priv p).

(** gtk_popover_get_position *)
Definition gtk_popover_get_position (p : GtkPopover) : GtkPositionType :=
  preferred_position (priv p).

(** gtk_popover_get_modal *)
Definition gtk_popover_get_modal (p : GtkPopover) : bool :=
  modal (priv p).

(** gtk_popover_get_constrain_to *)
Definition gtk_popover_get_constrain_to (p : GtkPopover) : GtkPopoverConstraint :=
  constraint (priv p).

(** gtk_popover_set_modal; [is_visible] is the answer of
    gtk_widget_is_visible (popover). *)
Definition gtk_popover_set_modal (e : Env) (is_visible : bool) (m : bool)
  (p : GtkPopover) : GtkPopover :=
  if Bool.eqb (modal (priv p)) m then p
  else
    let p := on_priv (priv_set_modal m) p in
    if is_visible then gtk_popover_apply_modality e (modal (priv p)) p else p.

(** _gtk_popover_parent_unmap, the handler of the unmap signal of the
    anchor widget. *)
Definition _gtk_popover_parent_unmap (e : Env) (p : GtkPopover) : GtkPopover :=
  match state (priv p) with
  | STATE_SHOWING => on_priv (priv_set_visible false) p
  | STATE_SHOWN => gtk_popover_set_state e STATE_HIDING p
  | _ => p
  end.

(** The requests that write the preferred side, and those that write the
    placement constraint. *)
Definition sets_position (r : Request) : bool :=
  match r with
  | SetPosition _ => true
  | _ => false
  end.

Definition sets_constraint (r : Request) : bool :=
  match r with
  | SetConstrainTo _ => true
  | _ => false
  end.

(* ------------------------------------------------------------------ *)
(** ** Notifications

    Requests of a client, together with what the toolkit tells the
    popover about its anchor and what a client does to its modality. *)

Inductive Notification :=
| FromClient (r : Request)
| AnchorUnmapped
| SetModal (is_visible m : bool).

Definition notify (p : GtkPopover) (n : Env * Notification) : GtkPopover :=
  let e := fst n in
  match snd n with
  | FromClient r => request p (e, r)
  | AnchorUnmapped => _gtk_popover_parent_unmap e p
  | SetModal is_visible m => gtk_popover_set_modal e is_visible m p
  end.

Definition play (ns : list (Env * Notification)) (p : GtkPopover) : GtkPopover :=
  fold_left notify ns p.

(** The lifecycle state and the flags agree: the state is HIDDEN exactly
    when the widget is not visible, and a popover marked visible is a
    visible widget. *)
Definition lifecycle_consistent (p : GtkPopover) : Prop :=
  (state (priv p) = STATE_HIDDEN <-> w_visible (wdg p) = false) /\
  (visible (priv p) = true -> w_visible (wdg p) = true).

(** What gtk_popover_apply_modality does to give the focus back to
    [prev_focus], the widget it saved. *)
Definition restore_focus (e : Env) (prev_focus : option GtkWidget) : Effect :=
  match prev_focus with
  | Some w =>
      if is_drawable e w then
        if is_entry e w then GrabFocusEntryWithoutSelecting w
        else GrabFocusWidget w
      else GrabFocusWindow
  | None => GrabFocusWindow
  end.

(** From [p] to [q] the closed signal was emitted once if the visible
    flag went from set to cleared, and not at all otherwise. *)
Definition closed_on_drop (p q : GtkPopover) : Prop :=
  closed_count (trace q)
  = (closed_count (trace p)
     + (if visible (priv p) && negb (visible (priv q)) then 1 else 0))%nat.

(** From [p] to [q] the visible flag was not set, and closed was emitted
    exactly if it was cleared. *)
Definition drops (p q : GtkPopover) : Prop :=
  (visible (priv q) = true -> visible (priv p) = true) /\ closed_on_drop p q.


(* ------------------------------------------------------------------ *)
(** ** The instance in its window

    The popover together with the fields of struct _GtkPopoverPrivate
    that the input handlers and the default-widget bookkeeping use, and
    the default widget of its window. *)

Record PopoverInstance := {
  core : GtkPopover;
  button_pressed : bool;
  default_widget : option GtkWidget;
  prev_default : option GtkWidget;
  window_default : option GtkWidget }.

Definition set_core (v : GtkPopover) (s : PopoverInstance) : PopoverInstance :=
  {| core := v; button_pressed := button_pressed s;
     default_widget := default_widget s; prev_default := prev_default s;
     window_default := window_default s |}.

Definition set_button_pressed (v : bool) (s : PopoverInstance) : PopoverInstance :=
  {| core := core s; button_pressed := v;
     default_widget := default_widget s; prev_default := prev_default s;
     window_default := window_default s |}.

Definition set_default_widget (v : option GtkWidget) (s : PopoverInstance)
  : PopoverInstance :=
  {| core := core s; button_pressed := button_pressed s;
     default_widget := v; prev_default := prev_default s;
     window_default := window_default s |}.

Definition set_prev_default (v : option GtkWidget) (s : PopoverInstance)
  : PopoverInstance :=
  {| core := core s; button_pressed := button_pressed s;
     default_widget := default_widget s; prev_default := v;
     window_default := window_default s |}.

Definition set_window_default (v : option GtkWidget) (s : PopoverInstance)
  : PopoverInstance :=
  {| core := core s; button_pressed := button_pressed s;
     default_widget := default_widget s; prev_default := prev_default s;
     window_default := v |}.

(** Comparison of two widget pointers. *)
Definition widget_eqb (a b : option GtkWidget) : bool :=
  match a, b with
  | None, None => true
  | Some x, Some y => Nat.eqb x y
  | _, _ => false
  end.

(** Modelled from the spec: the "Window service" keeps the default
    widget of the window ([set_default_widget]); asked about no window
    (a NULL pointer) it answers NULL and sets nothing. *)
Definition gtk_window_get_default_widget (s : PopoverInstance) : option GtkWidget :=
  match window (priv (core s)) with
  | Some _ => window_default s
  | None => None
  end.

Definition gtk_window_set_default (v : option GtkWidget) (s : PopoverInstance)
  : PopoverInstance :=
  match window (priv (core s)) with
  | Some _ => set_window_default v s
  | None => s
  end.

Module Instance.

(** gtk_popover_map, the map handler of the class, with the default
    widget: what it does to the popover itself is [gtk_popover_map]. *)
Definition gtk_popover_map (e : Env) (s : PopoverInstance) : PopoverInstance :=
  let s := set_prev_default (gtk_window_get_default_widget s) s in
  let s := set_core (gtk_popover_map e (core s)) s in
  gtk_window_set_default (default_widget s) s.

(** gtk_popover_unmap, the unmap handler of the class. *)
Definition gtk_popover_unmap (s : PopoverInstance) : PopoverInstance :=
  let s := set_button_pressed false s in
  let s := set_core (on_wdg (wdg_set_w_mapped false) (core s)) s in
  let s :=
    if widget_eqb (gtk_window_get_default_widget s) (default_widget s)
    then gtk_window_set_default (prev_default s) s
    else s in
  set_prev_default None s.

End Instance.

(** gtk_popover_set_default_widget; [can_default] is
    gtk_widget_get_can_default.  The setter refuses (g_return_if_fail) a
    widget that is not NULL and cannot be the default. *)
Definition gtk_popover_set_default_widget (can_default : GtkWidget -> bool)
  (w : option GtkWidget) (s : PopoverInstance) : PopoverInstance :=
  if negb (match w with
           | None => true
           | Some x => can_default x
           end)
  then s
  else if widget_eqb (default_widget s) w then s
  else
    let s := set_default_widget w s in
    if w_mapped (wdg (core s)) then gtk_window_set_default (default_widget s) s
    else s.

(** gtk_popover_get_default_widget *)
Definition gtk_popover_get_default_widget (s : PopoverInstance)
  : option GtkWidget :=
  default_widget s.

Inductive GdkEventType :=
| GDK_BUTTON_PRESS
| GDK_BUTTON_RELEASE
| GDK_OTHER_EVENT.

(** An event as gtk_popover_event reads it: its type and what
    gdk_event_get_coords answers. *)
Record GdkEvent := {
  event_type : GdkEventType;
  event_coords : option (Q * Q) }.

Definition GDK_EVENT_PROPAGATE : bool := false.
Definition GDK_EVENT_STOP : bool := true.

(** The test of gtk_popover_event on the coordinates of a button release:
    the point lies outside the allocation of the child. *)
Definition outside_child (child_alloc : GdkRectangle) (x y : Q) : bool :=
  negb (Qle_bool (inject_Z (rx child_alloc)) x)
  || negb (Qle_bool x (inject_Z (GInt.add (rx child_alloc) (rwidth child_alloc))))
  || negb (Qle_bool (inject_Z (ry child_alloc)) y)
  || negb (Qle_bool y (inject_Z (GInt.add (ry child_alloc) (rheight child_alloc)))).

(** The point lies in the allocation, edges included. *)
Definition within_allocation (a : GdkRectangle) (x y : Q) : Prop :=
  (inject_Z (rx a) <= x <= inject_Z (rx a + rwidth a))%Q /\
  (inject_Z (ry a) <= y <= inject_Z (ry a + rheight a))%Q.

(** gtk_popover_event.  [popdown] is gtk_popover_popdown on the instance
    and [child_alloc] the allocation of the child of the bin, if it has
    one.  The result is [None] where the handler reads the allocation of a
    child that is not there. *)
Definition gtk_popover_event (popdown : PopoverInstance -> PopoverInstance)
  (child_alloc : option GdkRectangle) (event : GdkEvent) (s : PopoverInstance)
  : option (PopoverInstance * bool) :=
  match event_type event with
  | GDK_BUTTON_PRESS => Some (set_button_pressed true s, GDK_EVENT_PROPAGATE)
  | GDK_BUTTON_RELEASE =>
      if negb (button_pressed s) then Some (s, GDK_EVENT_PROPAGATE)
      else
        match event_coords event with
        | None => Some (s, GDK_EVENT_PROPAGATE)
        | Some (x, y) =>
            match child_alloc with
            | None => None
            | Some a =>
                if outside_child a x y
                then Some (popdown s, GDK_EVENT_PROPAGATE)
                else Some (s, GDK_EVENT_PROPAGATE)
            end
        end
  | GDK_OTHER_EVENT => Some (s, GDK_EVENT_PROPAGATE)
  end.

(** A show transition on a popover that is no longer marked visible, and
    the hide transition that follows it: its callback is subscribed, but
    the popover does not hold its token. *)
Definition cancelled_showing (bound : Z) (p : GtkPopover) : Prop :=
  animating STATE_SHOWING false bound p /\
  tick_id (priv p) <= w_last_tick_id (wdg p) /\
  0 <= bound.

Definition orphan_hiding (bound : Z) (p : GtkPopover) : Prop :=
  state (priv p) = STATE_HIDING /\
  visible (priv p) = false /\
  w_visible (wdg p) = true /\
  w_realized (wdg p) = true /\
  tick_id (priv p) = 0 /\
  (exists id, id <> 0 /\ w_ticks (wdg p) = [id]) /\
  0 <= w_last_tick_id (wdg p) /\
  tracker_running bound (tracker (priv p)).

(** After the anchor was unmapped during the show transition. *)
Definition after_cancel (bound : Z) (p : GtkPopover) : Prop :=
  cancelled_showing bound p \/ orphan_hiding bound p \/ hidden_idle p.

(* ================================================================== *)
(** * Properties *)

(* ------------------------------------------------------------------ *)
(** ** Machine integers and sides *)

Lemma wrap_range : forall z, GInt.G_MININT <= GInt.wrap z <= GInt.G_MAXINT.
Proof.
  intro z. unfold GInt.wrap, GInt.G_MININT, GInt.G_MAXINT.
  pose proof (Z.mod_pos_bound (z + 2147483648) 4294967296 ltac:(lia)). lia.
Qed.

Lemma wrap_small : forall z,
  GInt.G_MININT <= z <= GInt.G_MAXINT -> GInt.wrap z = z.
Proof.
  intros z H. unfold GInt.wrap, GInt.G_MININT, GInt.G_MAXINT in *.
  rewrite Z.mod_small by lia. lia.
Qed.

Lemma overshoot_range : forall e rect j,
  GInt.G_MININT <= overshoot e rect j <= GInt.G_MAXINT.
Proof.
  intros e rect j. destruct j; cbn; unfold GInt.add; apply wrap_range.
Qed.

Lemma opposite_effective : forall e pos,
  get_effective_position e (opposite_position pos)
  = opposite_position (get_effective_position e pos).
Proof.
  intros e pos. unfold get_effective_position.
  destruct (text_dir_rtl e), pos; reflexivity.
Qed.

(* ------------------------------------------------------------------ *)
(** ** What gtk_popover_update_position touches *)

Lemma anchor_rect_set_final : forall e p,
  anchor_rect e (on_priv (fun q => priv_set_final_position (preferred_position q) q) p)
  = anchor_rect e p.
Proof. reflexivity. Qed.

Lemma update_position_final : forall e p w,
  window (priv p) = Some w ->
  final_position (priv (gtk_popover_update_position e p))
  = choose_final_position e p (anchor_rect e p).
Proof.
  intros e p w Hw. unfold gtk_popover_update_position. rewrite Hw.
  cbv zeta. rewrite anchor_rect_set_final.
  set (q := on_priv (fun q => priv_set_final_position (preferred_position q) q) p).
  assert (Hq : choose_final_position e q (anchor_rect e p)
               = choose_final_position e p (anchor_rect e p)) by reflexivity.
  rewrite Hq.
  set (final := choose_final_position e p (anchor_rect e p)).
  match goal with |- context [if ?c then _ else _] => destruct c end;
    [ match goal with |- context [if ?c then _ else _] => destruct c end | ];
    unfold gtk_popover_update_shape;
    try match goal with |- context [if ?c then _ else _] => destruct c end;
    reflexivity.
Qed.

Lemma update_position_no_window : forall e p,
  window (priv p) = None -> gtk_popover_update_position e p = p.
Proof.
  intros e p H. unfold gtk_popover_update_position. rewrite H. reflexivity.
Qed.

Lemma closed_count_app : forall a b,
  closed_count (a ++ b) = (closed_count a + closed_count b)%nat.
Proof.
  intros a b. unfold closed_count. rewrite filter_app, length_app. reflexivity.
Qed.

(** gtk_popover_update_position writes [final_position] and
    [current_position], and tells the window and the surface; it emits
    no signal. *)
Lemma update_position_shape : forall e p,
  exists f c tr,
    gtk_popover_update_position e p
    = {| priv := priv_set_current_position c (priv_set_final_position f (priv p));
         wdg := wdg p;
         trace := trace p ++ tr |} /\
    closed_count tr = 0%nat.
Proof.
  intros e p. unfold gtk_popover_update_position.
  destruct (window (priv p)) eqn:Hw.
  - cbv zeta.
    set (q := on_priv (fun q => priv_set_final_position (preferred_position q) q) p).
    set (final := choose_final_position e q (anchor_rect e q)).
    set (rect := offset_rect final _ _).
    destruct (negb (position_eqb _ _)).
    + unfold gtk_popover_update_shape.
      destruct (popover_is_drawable _); [destruct (wayland_display e)|].
      * exists final, final, [SetPopoverPosition final rect]. split; reflexivity.
      * exists final, final, [SetPopoverPosition final rect; UpdateShape].
        split; [|reflexivity].
        unfold emit, on_priv. cbn. rewrite <- app_assoc. reflexivity.
      * exists final, final, [SetPopoverPosition final rect]. split; reflexivity.
    + exists final, (current_position (priv p)), [SetPopoverPosition final rect].
      split; reflexivity.
  - exists (final_position (priv p)), (current_position (priv p)), [].
    split; [|reflexivity].
    destruct p as [pr wd tr]. destruct pr. cbn. rewrite app_nil_r. reflexivity.
Qed.


(* ------------------------------------------------------------------ *)
(** ** Side resolution *)

(** C1: when the overshoot of the effective preferred side is at most 0,
    recomputing the position of a popover that has a window resolves to
    the preferred side. *)
Theorem update_position_keeps_preferred_side :
  forall (e : Env) (p : GtkPopover) (w : GtkWindow),
    window (priv p) = Some w ->
    overshoot e (anchor_rect e p)
              (get_effective_position e (preferred_position (priv p))) <= 0 ->
    final_position (priv (gtk_popover_update_position e p))
    = preferred_position (priv p).
Proof.
  intros e p w Hw Hov.
  rewrite (update_position_final e p w Hw).
  unfold choose_final_position.
  destruct (unconstrained e p); [reflexivity|].
  apply Z.leb_le in Hov. rewrite Hov. reflexivity.
Qed.

Lemma update_position_keeps_preferred_side_witness :
  let e := scenario_env false false true 100 100 in
  let p := scenario_popover e GTK_POS_TOP GTK_POPOVER_CONSTRAINT_WINDOW in
  overshoot e (anchor_rect e p) GTK_POS_TOP = 0 /\
  final_position (priv (gtk_popover_update_position e p)) = GTK_POS_TOP.
Proof.
  split; [reflexivity|].
  apply (update_position_keeps_preferred_side
           (scenario_env false false true 100 100)
           (scenario_popover (scenario_env false false true 100 100)
                             GTK_POS_TOP GTK_POPOVER_CONSTRAINT_WINDOW)
           0%nat).
  - reflexivity.
  - vm_compute. discriminate.
Defined.

(** C2, as the code has it: when placement is constrained (the display
    is not a Wayland one, or the constraint is not NONE), the overshoot of
    the effective preferred side is positive and the overshoot of its
    opposite is at most 0, the resolved side is the opposite of the
    preferred side. *)
Theorem update_position_flips_to_opposite :
  forall (e : Env) (p : GtkPopover) (w : GtkWindow),
    window (priv p) = Some w ->
    unconstrained e p = false ->
    0 < overshoot e (anchor_rect e p)
                  (get_effective_position e (preferred_position (priv p))) ->
    overshoot e (anchor_rect e p)
              (opposite_position
                 (get_effective_position e (preferred_position (priv p)))) <= 0 ->
    final_position (priv (gtk_popover_update_position e p))
    = opposite_position (preferred_position (priv p)).
Proof.
  intros e p w Hw Hu Hpos Hopp.
  rewrite (update_position_final e p w Hw).
  unfold choose_final_position. rewrite Hu.
  apply Z.leb_gt in Hpos. rewrite Hpos.
  apply Z.leb_le in Hopp. rewrite Hopp. reflexivity.
Qed.

Lemma update_position_flips_to_opposite_witness :
  let e := scenario_env false false true 100 5 in
  let p := scenario_popover e GTK_POS_TOP GTK_POPOVER_CONSTRAINT_WINDOW in
  overshoot e (anchor_rect e p) GTK_POS_TOP = 95 /\
  overshoot e (anchor_rect e p) GTK_POS_BOTTOM = -475 /\
  final_position (priv (gtk_popover_update_position e p)) = GTK_POS_BOTTOM.
Proof.
  split; [reflexivity|]. split; [reflexivity|].
  apply (update_position_flips_to_opposite
           (scenario_env false false true 100 5)
           (scenario_popover (scenario_env false false true 100 5)
                             GTK_POS_TOP GTK_POPOVER_CONSTRAINT_WINDOW)
           0%nat).
  - reflexivity.
  - reflexivity.
  - vm_compute. reflexivity.
  - vm_compute. discriminate.
Defined.

(** C2 as stated fails on a Wayland display with the constraint NONE:
    the anchor is 5 pixels below the top edge, the overshoot of TOP is 95
    and the overshoot of BOTTOM is -475, and the resolved side stays
    TOP. *)
Lemma update_position_flip_counterexample :
  let e := scenario_env false true true 100 5 in
  let p := scenario_popover e GTK_POS_TOP GTK_POPOVER_CONSTRAINT_NONE in
  window (priv p) = Some 0%nat /\
  0 < overshoot e (anchor_rect e p)
                (get_effective_position e (preferred_position (priv p))) /\
  overshoot e (anchor_rect e p)
            (opposite_position
               (get_effective_position e (preferred_position (priv p)))) <= 0 /\
  final_position (priv (gtk_popover_update_position e p))
  <> opposite_position (preferred_position (priv p)).
Proof.
  vm_compute. repeat split; try discriminate.
Qed.

Lemma best_position_first_minimum : forall (e : Env) (ov : GtkPositionType -> Z),
  (forall j, ov j <= GInt.G_MAXINT) ->
  let r := best_position e ov in
  (forall s, ov (get_effective_position e r) <= ov (get_effective_position e s)) /\
  (forall s, position_value s < position_value r ->
             ov (get_effective_position e r) < ov (get_effective_position e s)).
Proof.
  intros e ov Hmax.
  pose proof (Hmax (get_effective_position e GTK_POS_LEFT)) as H0.
  pose proof (Hmax (get_effective_position e GTK_POS_RIGHT)) as H1.
  pose proof (Hmax (get_effective_position e GTK_POS_TOP)) as H2.
  pose proof (Hmax (get_effective_position e GTK_POS_BOTTOM)) as H3.
  unfold best_position, best_step. cbn [fold_left fst snd].
  change (position_of_value 0) with GTK_POS_LEFT.
  change (position_of_value 1) with GTK_POS_RIGHT.
  change (position_of_value 2) with GTK_POS_TOP.
  change (position_of_value 3) with GTK_POS_BOTTOM.
  set (a := ov (get_effective_position e GTK_POS_LEFT)) in *.
  set (b := ov (get_effective_position e GTK_POS_RIGHT)) in *.
  set (c := ov (get_effective_position e GTK_POS_TOP)) in *.
  set (d := ov (get_effective_position e GTK_POS_BOTTOM)) in *.
  destruct (Z.ltb_spec a GInt.G_MAXINT); cbv beta iota; cbn [fst snd];
    (match goal with |- context [b <? ?x] => destruct (Z.ltb_spec b x) end);
    cbv beta iota; cbn [fst snd];
    (match goal with |- context [c <? ?x] => destruct (Z.ltb_spec c x) end);
    cbv beta iota; cbn [fst snd];
    (match goal with |- context [d <? ?x] => destruct (Z.ltb_spec d x) end);
    cbv beta iota; cbn [fst snd];
    (split; intros s; destruct s; cbn [position_value]; fold a b c d; intros; lia).
Qed.

(** C3, as the code has it: when placement is constrained and all four
    overshoot values are positive, the resolved side has the least
    overshoot (taken, as in the other branches, on its effective side),
    and every side that comes before it in the numeric order of
    GtkPositionType - LEFT, RIGHT, TOP, BOTTOM - has a strictly larger
    one: the first minimum in that order wins. *)
Theorem update_position_minimal_overshoot :
  forall (e : Env) (p : GtkPopover) (w : GtkWindow),
    window (priv p) = Some w ->
    unconstrained e p = false ->
    (forall s, 0 < overshoot e (anchor_rect e p) s) ->
    let r := final_position (priv (gtk_popover_update_position e p)) in
    let ov := fun s => overshoot e (anchor_rect e p) (get_effective_position e s) in
    (forall s, ov r <= ov s) /\
    (forall s, position_value s < position_value r -> ov r < ov s).
Proof.
  intros e p w Hw Hu Hall r ov. subst r ov.
  rewrite (update_position_final e p w Hw).
  unfold choose_final_position. rewrite Hu.
  pose proof (Hall (get_effective_position e (preferred_position (priv p)))) as Hp.
  pose proof (Hall (opposite_position
                      (get_effective_position e (preferred_position (priv p))))) as Ho.
  apply Z.leb_gt in Hp. rewrite Hp.
  apply Z.leb_gt in Ho. rewrite Ho.
  apply (best_position_first_minimum e (overshoot e (anchor_rect e p))).
  intro j. apply overshoot_range.
Qed.

Lemma update_position_minimal_overshoot_witness :
  let e := crowded_env false false 100 120 40 40 in
  let p := scenario_popover e GTK_POS_TOP GTK_POPOVER_CONSTRAINT_WINDOW in
  let r := final_position (priv (gtk_popover_update_position e p)) in
  let ov := fun s => overshoot e (anchor_rect e p) (get_effective_position e s) in
  (forall s, ov r <= ov s) /\
  (forall s, position_value s < position_value r -> ov r < ov s).
Proof.
  apply (update_position_minimal_overshoot
           (crowded_env false false 100 120 40 40)
           (scenario_popover (crowded_env false false 100 120 40 40)
                             GTK_POS_TOP GTK_POPOVER_CONSTRAINT_WINDOW)
           0%nat).
  - reflexivity.
  - reflexivity.
  - intro s. destruct s; vm_compute; reflexivity.
Defined.

(** C3 as stated fails in two ways.  With every overshoot equal to 60
    the code resolves to LEFT, the first side in the numeric order of
    GtkPositionType, where the order TOP, BOTTOM, LEFT, RIGHT gives TOP.
    And on a Wayland display with the constraint NONE the preferred side
    BOTTOM is kept although LEFT and RIGHT overshoot less. *)
Lemma update_position_tie_counterexample :
  (let e := crowded_env false false 100 100 40 40 in
   let p := scenario_popover e GTK_POS_TOP GTK_POPOVER_CONSTRAINT_WINDOW in
   window (priv p) = Some 0%nat /\
   map (overshoot e (anchor_rect e p))
       [GTK_POS_TOP; GTK_POS_BOTTOM; GTK_POS_LEFT; GTK_POS_RIGHT] = [60; 60; 60; 60] /\
   spec_first_minimum (overshoot e (anchor_rect e p)) = GTK_POS_TOP /\
   final_position (priv (gtk_popover_update_position e p)) = GTK_POS_LEFT) /\
  (let e := crowded_env false true 100 120 40 40 in
   let p := scenario_popover e GTK_POS_BOTTOM GTK_POPOVER_CONSTRAINT_NONE in
   window (priv p) = Some 0%nat /\
   map (overshoot e (anchor_rect e p))
       [GTK_POS_TOP; GTK_POS_BOTTOM; GTK_POS_LEFT; GTK_POS_RIGHT] = [80; 80; 60; 60] /\
   spec_first_minimum (overshoot e (anchor_rect e p)) = GTK_POS_LEFT /\
   final_position (priv (gtk_popover_update_position e p)) = GTK_POS_BOTTOM).
Proof.
  vm_compute. repeat split.
Qed.

(** C4, as the code has it: on a Wayland display, a popover whose
    constraint is NONE resolves to its preferred side whatever the anchor
    rectangle, the popover size and the window size are; no overshoot is
    consulted. *)
Theorem update_position_unconstrained :
  forall (e : Env) (p : GtkPopover) (w : GtkWindow),
    window (priv p) = Some w ->
    wayland_display e = true ->
    constraint (priv p) = GTK_POPOVER_CONSTRAINT_NONE ->
    final_position (priv (gtk_popover_update_position e p))
    = preferred_position (priv p).
Proof.
  intros e p w Hw Hway Hc.
  rewrite (update_position_final e p w Hw).
  unfold choose_final_position, unconstrained. rewrite Hway, Hc. reflexivity.
Qed.

Lemma update_position_unconstrained_witness :
  let e := scenario_env false true true 100 5 in
  let p := scenario_popover e GTK_POS_TOP GTK_POPOVER_CONSTRAINT_NONE in
  0 < overshoot e (anchor_rect e p) GTK_POS_TOP /\
  final_position (priv (gtk_popover_update_position e p)) = GTK_POS_TOP.
Proof.
  split; [reflexivity|].
  apply (update_position_unconstrained
           (scenario_env false true true 100 5)
           (scenario_popover (scenario_env false true true 100 5)
                             GTK_POS_TOP GTK_POPOVER_CONSTRAINT_NONE)
           0%nat); reflexivity.
Defined.

(** C4 as stated fails where the display is not a Wayland one: with the
    constraint NONE and the anchor 5 pixels below the top edge, the
    overshoot tests run and the preferred side TOP is flipped to
    BOTTOM. *)
Lemma update_position_none_counterexample :
  let e := scenario_env false false true 100 5 in
  let p := scenario_popover e GTK_POS_TOP GTK_POPOVER_CONSTRAINT_NONE in
  window (priv p) = Some 0%nat /\
  constraint (priv p) = GTK_POPOVER_CONSTRAINT_NONE /\
  preferred_position (priv p) = GTK_POS_TOP /\
  final_position (priv (gtk_popover_update_position e p)) = GTK_POS_BOTTOM.
Proof.
  vm_compute. repeat split.
Qed.

(* ------------------------------------------------------------------ *)
(** ** Arrow geometry *)

Lemma CLAMP_clamped_into : forall x low high,
  clamped_into x low high (CLAMP x low high).
Proof.
  intros x low high Hle. unfold CLAMP.
  destruct (Z.ltb_spec high x); [|destruct (Z.ltb_spec x low)]; lia.
Qed.

Lemma effective_vertical : forall e pos,
  POS_IS_VERTICAL (get_effective_position e pos) = POS_IS_VERTICAL pos.
Proof.
  intros e pos. unfold get_effective_position.
  destruct (text_dir_rtl e), pos; reflexivity.
Qed.

(** Remove the wrap-around of sums that stay in range, innermost first. *)
Ltac gint_small :=
  unfold GInt.add, GInt.sub, GInt.div, TAIL_GAP_WIDTH, TAIL_HEIGHT, pixel in *;
  repeat match goal with
         | |- context [GInt.wrap ?z] =>
             lazymatch z with
             | context [GInt.wrap _] => fail
             | _ => rewrite (wrap_small z)
                      by (unfold GInt.G_MININT, GInt.G_MAXINT;
                          Z.to_euclidean_division_equations; lia)
             end
         end.

(** The three clamps of gtk_popover_get_gap_coords, where no sum
    overflows. *)
Lemma gap_coords_clamps :
  forall (e : Env) (p : GtkPopover),
    let rect := gap_rect e p in
    let g := gtk_popover_get_gap_coords e p in
    let radius := border_radius e in
    pixel (rx rect) -> pixel (ry rect) ->
    pixel (rwidth rect) -> pixel (rheight rect) ->
    pixel (popover_width e) -> pixel (popover_height e) -> pixel radius ->
    match final_position (priv p) with
    | GTK_POS_TOP | GTK_POS_BOTTOM =>
        let mid := rx rect + Z.quot (rwidth rect) 2 in
        let size := popover_width e in
        tip_x g = CLAMP mid 0 size /\
        initial_x g = CLAMP (mid - 12) radius (size - 24 - radius) /\
        final_x g = CLAMP (mid + 12) (radius + 24) (size - radius)
    | GTK_POS_LEFT | GTK_POS_RIGHT =>
        let mid := ry rect + Z.quot (rheight rect) 2 in
        let size := popover_height e in
        tip_y g = CLAMP mid 0 size /\
        initial_y g = CLAMP (mid - 12) radius (size - 24 - radius) /\
        final_y g = CLAMP (mid + 12) (radius + 24) (size - radius)
    end.
Proof.
  intros e p rect g radius Hx Hy Hw Hh Hpw Hph Hr.
  subst g. unfold gtk_popover_get_gap_coords.
  fold rect. fold radius.
  rewrite effective_vertical.
  set (bt := match get_effective_position e (final_position (priv p)) with
             | GTK_POS_LEFT => _ | _ => _ end).
  destruct bt as [base tip].
  destruct (final_position (priv p));
    match goal with
    | |- context [POS_IS_VERTICAL ?s] =>
        let b := eval vm_compute in (POS_IS_VERTICAL s) in
        change (POS_IS_VERTICAL s) with b
    end;
    cbv beta iota zeta;
    cbn [initial_x initial_y tip_x tip_y final_x final_y];
    change (GInt.div TAIL_GAP_WIDTH 2) with 12;
    (split; [|split]); f_equal; gint_small; lia.
Qed.

(** C8, with the condition the ranges need.  For every resolved side,
    the tip coordinate along the edge the arrow points at is the midpoint
    of the anchor rectangle (in popover coordinates) clamped into
    [0, popover size] where the size is not negative, and, where the
    popover is at least 24 + 2 * border_radius long on that axis, the two
    ends of the gap are that midpoint minus and plus half the gap width
    of 24, clamped into [border_radius, size - 24 - border_radius] and
    [border_radius + 24, size - border_radius].  On a shorter popover
    these two ranges are empty, and each end is the upper bound of its
    range if the value to clamp lies above it and the lower bound
    otherwise.  The axis is x for TOP and BOTTOM and y for LEFT and
    RIGHT. *)
Theorem gap_coords_tip_and_gap :
  forall (e : Env) (p : GtkPopover),
    let rect := gap_rect e p in
    let g := gtk_popover_get_gap_coords e p in
    let radius := border_radius e in
    pixel (rx rect) -> pixel (ry rect) ->
    pixel (rwidth rect) -> pixel (rheight rect) ->
    pixel (popover_width e) -> pixel (popover_height e) -> pixel radius ->
    match final_position (priv p) with
    | GTK_POS_TOP | GTK_POS_BOTTOM =>
        let mid := rx rect + Z.quot (rwidth rect) 2 in
        let size := popover_width e in
        clamped_into mid 0 size (tip_x g) /\
        clamped_into (mid - Z.quot TAIL_GAP_WIDTH 2)
                     radius (size - TAIL_GAP_WIDTH - radius) (initial_x g) /\
        clamped_into (mid + Z.quot TAIL_GAP_WIDTH 2)
                     (radius + TAIL_GAP_WIDTH) (size - radius) (final_x g) /\
        (0 <= size -> 0 <= tip_x g <= size) /\
        (TAIL_GAP_WIDTH + 2 * radius <= size ->
         radius <= initial_x g <= size - TAIL_GAP_WIDTH - radius /\
         radius + TAIL_GAP_WIDTH <= final_x g <= size - radius) /\
        (size < TAIL_GAP_WIDTH + 2 * radius ->
         initial_x g
         = (if size - TAIL_GAP_WIDTH - radius <? mid - Z.quot TAIL_GAP_WIDTH 2
            then size - TAIL_GAP_WIDTH - radius else radius) /\
         final_x g
         = (if size - radius <? mid + Z.quot TAIL_GAP_WIDTH 2
            then size - radius else radius + TAIL_GAP_WIDTH))
    | GTK_POS_LEFT | GTK_POS_RIGHT =>
        let mid := ry rect + Z.quot (rheight rect) 2 in
        let size := popover_height e in
        clamped_into mid 0 size (tip_y g) /\
        clamped_into (mid - Z.quot TAIL_GAP_WIDTH 2)
                     radius (size - TAIL_GAP_WIDTH - radius) (initial_y g) /\
        clamped_into (mid + Z.quot TAIL_GAP_WIDTH 2)
                     (radius + TAIL_GAP_WIDTH) (size - radius) (final_y g) /\
        (0 <= size -> 0 <= tip_y g <= size) /\
        (TAIL_GAP_WIDTH + 2 * radius <= size ->
         radius <= initial_y g <= size - TAIL_GAP_WIDTH - radius /\
         radius + TAIL_GAP_WIDTH <= final_y g <= size - radius) /\
        (size < TAIL_GAP_WIDTH + 2 * radius ->
         initial_y g
         = (if size - TAIL_GAP_WIDTH - radius <? mid - Z.quot TAIL_GAP_WIDTH 2
            then size - TAIL_GAP_WIDTH - radius else radius) /\
         final_y g
         = (if size - radius <? mid + Z.quot TAIL_GAP_WIDTH 2
            then size - radius else radius + TAIL_GAP_WIDTH))
    end.
Proof.
  intros e p rect g radius Hx Hy Hw Hh Hpw Hph Hr.
  pose proof (gap_coords_clamps e p Hx Hy Hw Hh Hpw Hph Hr) as H.
  cbv zeta in H. fold rect in H. fold g in H. fold radius in H.
  assert (Hq : Z.quot TAIL_GAP_WIDTH 2 = 12) by reflexivity.
  assert (Hg : TAIL_GAP_WIDTH = 24) by reflexivity.
  assert (Hshort : forall x low high,
             high < low -> CLAMP x low high = if high <? x then high else low).
  { intros x low high Hlt. unfold CLAMP.
    destruct (Z.ltb_spec high x); [reflexivity|].
    destruct (Z.ltb_spec x low); [reflexivity|lia]. }
  assert (Hin : forall x low high,
             low <= high -> low <= CLAMP x low high <= high).
  { intros x low high Hle. apply CLAMP_clamped_into. exact Hle. }
  destruct (final_position (priv p));
    cbv zeta; rewrite Hq, Hg;
    destruct H as (Ht & Hi & Hf); rewrite Ht, Hi, Hf;
    (split; [apply CLAMP_clamped_into|]);
    (split; [apply CLAMP_clamped_into|]);
    (split; [apply CLAMP_clamped_into|]);
    (split; [intro Hs; apply Hin; exact Hs|]);
    (split; [intro Hs; split; apply Hin; lia|]);
    (intro Hs; split; apply Hshort; lia).
Qed.

Lemma gap_coords_tip_and_gap_witness :
  let e := scenario_env false false true 100 100 in
  let p := scenario_popover e GTK_POS_TOP GTK_POPOVER_CONSTRAINT_WINDOW in
  let g := gtk_popover_get_gap_coords e p in
  final_position (priv p) = GTK_POS_TOP /\
  clamped_into 110 0 200 (tip_x g) /\
  clamped_into 98 5 171 (initial_x g) /\
  clamped_into 122 29 195 (final_x g) /\
  tip_x g = 110 /\ initial_x g = 98 /\ final_x g = 122.
Proof.
  split; [vm_compute; reflexivity|].
  pose proof (gap_coords_tip_and_gap
                (scenario_env false false true 100 100)
                (scenario_popover (scenario_env false false true 100 100)
                                  GTK_POS_TOP GTK_POPOVER_CONSTRAINT_WINDOW)) as H.
  vm_compute in H. vm_compute.
  destruct H as (H1 & H2 & H3 & _);
    try (split; discriminate).
  split; [exact H1|]. split; [exact H2|]. split; [exact H3|].
  repeat split.
Defined.

(** C8 as stated fails on a popover shorter than 24 + 2 * border_radius
    along the edge the arrow points at.  A popover whose preferred side is
    LEFT need only be 2 * 5 + 12 = 22 wide; placed on TOP of an anchor
    rectangle that leaves no room on either side, its gap ranges along x
    are [5, -7] and [29, 17], which hold no value, and the code puts the
    ends of the gap at -7 and 17, outside the popover on the left and
    17 - (-7) = 24 apart, with the tip at 22. *)
Lemma gap_coords_short_popover_counterexample :
  let e := crowded_env false false 22 50 0 0 in
  let p := gtk_popover_set_pointing_to
             e {| rx := 10; ry := 60; rwidth := 80; rheight := 10 |}
             (gtk_popover_set_position e GTK_POS_LEFT
                (gtk_popover_new e (Some 1%nat))) in
  let g := gtk_popover_get_gap_coords e p in
  let radius := border_radius e in
  let size := popover_width e in
  let mid := rx (gap_rect e p) + Z.quot (rwidth (gap_rect e p)) 2 in
  preferred_position (priv p) = GTK_POS_LEFT /\
  final_position (priv p) = GTK_POS_TOP /\
  fst (gtk_popover_measure e radius false (fun _ _ => (0, 0)) p
         GTK_ORIENTATION_HORIZONTAL (-1)) = size /\
  size = 22 /\ radius = 5 /\ mid = 50 /\
  (radius, size - TAIL_GAP_WIDTH - radius) = (5, -7) /\
  (radius + TAIL_GAP_WIDTH, size - radius) = (29, 17) /\
  tip_x g = 22 /\
  initial_x g = -7 /\
  final_x g = 17 /\
  ~ (radius <= initial_x g <= size - TAIL_GAP_WIDTH - radius) /\
  ~ (radius + TAIL_GAP_WIDTH <= final_x g <= size - radius).
Proof.
  vm_compute. repeat split; intros [H1 H2]; first [apply H1 | apply H2]; reflexivity.
Qed.

(* ------------------------------------------------------------------ *)
(** ** A new popover *)

(** C10: whatever instance memory it is given, gtk_popover_init leaves
    the popover modal, with preferred side TOP, constraint WINDOW, state
    HIDDEN, no tick subscription and not visible; gtk_popover_new, which
    then only attaches the popover to its anchor, returns it so, with no
    tick callback registered on the widget. *)
Theorem gtk_popover_init_defaults :
  forall (p0 : GtkPopover),
    let p := gtk_popover_init p0 in
    (modal (priv p) = true /\
     preferred_position (priv p) = GTK_POS_TOP /\
     constraint (priv p) = GTK_POPOVER_CONSTRAINT_WINDOW /\
     state (priv p) = STATE_HIDDEN /\
     tick_id (priv p) = 0 /\
     visible (priv p) = false) /\
    forall (e : Env) (relative_to : option GtkWidget),
      let q := gtk_popover_new e relative_to in
      modal (priv q) = true /\
      preferred_position (priv q) = GTK_POS_TOP /\
      constraint (priv q) = GTK_POPOVER_CONSTRAINT_WINDOW /\
      state (priv q) = STATE_HIDDEN /\
      tick_id (priv q) = 0 /\
      w_ticks (wdg q) = [] /\
      visible (priv q) = false /\
      w_visible (wdg q) = false.
Proof.
  intro p0. split.
  - repeat split.
  - intros e relative_to q. subst q.
    unfold gtk_popover_new, gtk_popover_set_relative_to,
      gtk_popover_update_relative_to.
    destruct relative_to as [w|]; [|repeat split].
    change (match widget (priv (gtk_popover_init zero_instance)) with
            | Some _ => false
            | None => false
            end) with false.
    cbv iota.
    match goal with
    | |- context [gtk_popover_update_position e ?x] =>
        destruct (update_position_shape e x) as (f & c & tr & Heq & _);
        rewrite Heq
    end.
    repeat split.
Qed.

(* ------------------------------------------------------------------ *)
(** ** The pointing rectangle is only written by its setter *)

Ltac split_cases :=
  repeat match goal with
         | |- context [if ?c then _ else _] => destruct c
         | |- context [match ?x with _ => _ end] => destruct x
         end.

Lemma pointing_on_priv : forall f p,
  (forall q, (widget (f q), pointing_to (f q), has_pointing_to (f q))
             = (widget q, pointing_to q, has_pointing_to q)) ->
  pointing (on_priv f p) = pointing p.
Proof. intros f p H. unfold pointing. cbn. apply H. Qed.

Lemma pointing_on_wdg : forall f p, pointing (on_wdg f p) = pointing p.
Proof. reflexivity. Qed.

Lemma pointing_emit : forall ev p, pointing (emit ev p) = pointing p.
Proof. reflexivity. Qed.

Create Rewrite HintDb pointing_frame.

Lemma pointing_update_position : forall e p,
  pointing (gtk_popover_update_position e p) = pointing p.
Proof.
  intros e p. destruct (update_position_shape e p) as (f & c & tr & Heq & _).
  rewrite Heq. reflexivity.
Qed.

#[local] Hint Rewrite pointing_on_priv using (intro; reflexivity) : pointing_frame.
#[local] Hint Rewrite pointing_on_wdg pointing_emit pointing_update_position
  : pointing_frame.

Ltac pointing_frame :=
  intros; cbv zeta; split_cases; autorewrite with pointing_frame; reflexivity.

Lemma pointing_unset_prev_focus : forall p,
  pointing (popover_unset_prev_focus p) = pointing p.
Proof. unfold popover_unset_prev_focus. pointing_frame. Qed.
#[local] Hint Rewrite pointing_unset_prev_focus : pointing_frame.

Lemma pointing_apply_modality : forall e m p,
  pointing (gtk_popover_apply_modality e m p) = pointing p.
Proof. unfold gtk_popover_apply_modality. pointing_frame. Qed.
#[local] Hint Rewrite pointing_apply_modality : pointing_frame.

Lemma pointing_hide_internal : forall e p,
  pointing (gtk_popover_hide_internal e p) = pointing p.
Proof. unfold gtk_popover_hide_internal. pointing_frame. Qed.
#[local] Hint Rewrite pointing_hide_internal : pointing_frame.

Lemma pointing_stop_transition : forall p,
  pointing (gtk_popover_stop_transition p) = pointing p.
Proof.
  unfold gtk_popover_stop_transition, gtk_widget_remove_tick_callback.
  pointing_frame.
Qed.
#[local] Hint Rewrite pointing_stop_transition : pointing_frame.

Lemma pointing_start_transition : forall p,
  pointing (gtk_popover_start_transition p) = pointing p.
Proof.
  unfold gtk_popover_start_transition, gtk_widget_add_tick_callback.
  pointing_frame.
Qed.
#[local] Hint Rewrite pointing_start_transition : pointing_frame.

Lemma pointing_show : forall e p, pointing (gtk_popover_show e p) = pointing p.
Proof.
  unfold gtk_popover_show, gtk_widget_real_show, gtk_popover_map. pointing_frame.
Qed.
#[local] Hint Rewrite pointing_show : pointing_frame.

Lemma pointing_hide : forall e p, pointing (gtk_popover_hide e p) = pointing p.
Proof. unfold gtk_popover_hide, gtk_widget_real_hide. pointing_frame. Qed.
#[local] Hint Rewrite pointing_hide : pointing_frame.

Lemma pointing_set_visible : forall e v p,
  pointing (gtk_widget_set_visible e v p) = pointing p.
Proof.
  unfold gtk_widget_set_visible, gtk_widget_show, gtk_widget_hide. pointing_frame.
Qed.
#[local] Hint Rewrite pointing_set_visible : pointing_frame.

Lemma pointing_set_state : forall e st p,
  pointing (gtk_popover_set_state e st p) = pointing p.
Proof. unfold gtk_popover_set_state. pointing_frame. Qed.
#[local] Hint Rewrite pointing_set_state : pointing_frame.

Lemma pointing_show_animate_cb : forall e t p,
  pointing (fst (show_animate_cb e t p)) = pointing p.
Proof.
  unfold show_animate_cb, gtk_widget_hide. intros; cbv zeta.
  split_cases; cbn [fst]; autorewrite with pointing_frame; reflexivity.
Qed.

Lemma pointing_frame_tick : forall e t p,
  pointing (frame_tick e t p) = pointing p.
Proof.
  intros e t p. unfold frame_tick.
  generalize (w_ticks (wdg p)). intro l. revert p.
  induction l as [|id l IH]; intro p; [reflexivity|].
  cbn [fold_left]. rewrite IH. unfold run_tick_callback.
  destruct (existsb _ _); [|reflexivity].
  pose proof (pointing_show_animate_cb e t p) as H.
  destruct (show_animate_cb e t p) as [q continue]. cbn [fst] in H.
  destruct continue; [exact H|].
  unfold gtk_widget_remove_tick_callback. rewrite pointing_on_wdg. exact H.
Qed.

Lemma pointing_request : forall p r,
  sets_rectangle r = false -> pointing (request p r) = pointing p.
Proof.
  intros p [e r] H. unfold request. cbn [fst snd].
  destruct r; try discriminate H.
  - unfold gtk_popover_popup, gtk_widget_show. pointing_frame.
  - unfold gtk_popover_popdown, gtk_widget_hide. pointing_frame.
  - unfold gtk_widget_show. pointing_frame.
  - unfold gtk_widget_hide. pointing_frame.
  - apply pointing_frame_tick.
  - unfold gtk_popover_set_position. pointing_frame.
  - unfold gtk_popover_set_constrain_to. pointing_frame.
  - apply pointing_update_position.
Qed.

Lemma pointing_run : forall reqs p,
  forallb (fun r => negb (sets_rectangle r)) reqs = true ->
  pointing (run reqs p) = pointing p.
Proof.
  induction reqs as [|r reqs IH]; intros p H; [reflexivity|].
  cbn [forallb] in H. apply andb_true_iff in H. destruct H as [Hr Hrest].
  unfold run. cbn [fold_left]. fold (run reqs (request p r)).
  rewrite IH by exact Hrest.
  apply pointing_request. apply negb_true_iff. exact Hr.
Qed.

Lemma get_pointing_to_pointing : forall e p q rect,
  pointing p = pointing q ->
  gtk_popover_get_pointing_to e p rect = gtk_popover_get_pointing_to e q rect.
Proof.
  intros e p q rect H. unfold pointing in H. injection H as Hw Hr Hb.
  unfold gtk_popover_get_pointing_to. rewrite Hw, Hr, Hb. reflexivity.
Qed.

(** C9: after gtk_popover_set_pointing_to, and until it is called again,
    gtk_popover_get_pointing_to returns TRUE and fills in exactly the
    rectangle that was passed; on a new popover whose rectangle was never
    set it returns FALSE and fills in the own allocation of the anchor
    widget.  [reqs] is any history of requests without the setter. *)
Theorem pointing_to_round_trip :
  forall (reqs : list (Env * Request)) (e e' : Env) (r rect : GdkRectangle)
         (p : GtkPopover) (w : GtkWidget),
    forallb (fun r => negb (sets_rectangle r)) reqs = true ->
    gtk_popover_get_pointing_to
      e' (run reqs (gtk_popover_set_pointing_to e r p)) rect = (true, r) /\
    gtk_popover_get_pointing_to
      e' (run reqs (gtk_popover_new e (Some w))) rect = (false, own_allocation e' w).
Proof.
  intros reqs e e' r rect p w H. split.
  - rewrite (get_pointing_to_pointing e' _ (gtk_popover_set_pointing_to e r p) rect)
      by (apply pointing_run; exact H).
    unfold gtk_popover_set_pointing_to.
    rewrite (get_pointing_to_pointing e' _
               (gtk_popover_update_pointing_to (Some r) p) rect)
      by apply pointing_update_position.
    reflexivity.
  - rewrite (get_pointing_to_pointing e' _ (gtk_popover_new e (Some w)) rect)
      by (apply pointing_run; exact H).
    unfold gtk_popover_new, gtk_popover_set_relative_to.
    rewrite (get_pointing_to_pointing e' _
               (gtk_popover_update_relative_to e (Some w)
                  (gtk_popover_init zero_instance)) rect)
      by apply pointing_update_position.
    unfold gtk_popover_update_relative_to, gtk_popover_get_pointing_to.
    cbn. destruct (ancestor_window e w); reflexivity.
Qed.

Lemma pointing_to_round_trip_witness :
  let e := scenario_env false false true 100 100 in
  let r := {| rx := 3; ry := 4; rwidth := 10; rheight := 6 |} in
  let reqs := [(e, Popup); (e, Frame 1000); (e, SetPosition GTK_POS_LEFT);
               (e, Popdown); (e, Frame 2000)] in
  gtk_popover_get_pointing_to
    e (run reqs (gtk_popover_set_pointing_to e r (gtk_popover_new e (Some 1%nat))))
    rect_zero = (true, r) /\
  gtk_popover_get_pointing_to e (run reqs (gtk_popover_new e (Some 1%nat))) rect_zero
  = (false, {| rx := 0; ry := 0; rwidth := 20; rheight := 20 |}).
Proof.
  apply (pointing_to_round_trip
           [(scenario_env false false true 100 100, Popup);
            (scenario_env false false true 100 100, Frame 1000);
            (scenario_env false false true 100 100, SetPosition GTK_POS_LEFT);
            (scenario_env false false true 100 100, Popdown);
            (scenario_env false false true 100 100, Frame 2000)]
           (scenario_env false false true 100 100)
           (scenario_env false false true 100 100)
           {| rx := 3; ry := 4; rwidth := 10; rheight := 6 |}
           rect_zero
           (gtk_popover_new (scenario_env false false true 100 100) (Some 1%nat))
           1%nat).
  reflexivity.
Defined.

(* ------------------------------------------------------------------ *)
(** ** The progress tracker *)

Lemma Qdiv_inject_nonneg : forall n d : Z,
  0 <= n -> 0 < d -> (0 <= inject_Z n / inject_Z d)%Q.
Proof.
  intros n d Hn Hd. apply Qle_shift_div_l.
  - change 0%Q with (inject_Z 0). rewrite <- Zlt_Qlt. exact Hd.
  - rewrite Qmult_0_l. change 0%Q with (inject_Z 0). rewrite <- Zle_Qle. exact Hn.
Qed.

Lemma Qdiv_inject_ge_1 : forall n d : Z,
  0 < d -> d <= n -> (1 <= inject_Z n / inject_Z d)%Q.
Proof.
  intros n d Hd Hn. apply Qle_shift_div_l.
  - change 0%Q with (inject_Z 0). rewrite <- Zlt_Qlt. exact Hd.
  - rewrite Qmult_1_l. rewrite <- Zle_Qle. exact Hn.
Qed.

Lemma advance_frame_running : forall bound t frame_time,
  tracker_running bound t -> frame_time <= bound ->
  tracker_running bound (Tracker.advance_frame t frame_time).
Proof.
  intros bound t ft (Hrun & Hd & Hc & Hi & Hl) Hft.
  unfold Tracker.advance_frame. rewrite Hrun. cbn [negb].
  destruct (Z.eqb_spec (last_frame_time t) 0).
  - repeat split; cbn; assumption.
  - destruct (Z.ltb_spec ft (last_frame_time t)).
    + repeat split; assumption.
    + repeat split; cbn; try assumption.
      rewrite Hd.
      pose proof (Qdiv_inject_nonneg (ft - last_frame_time t) TRANSITION_DURATION
                    ltac:(lia) ltac:(reflexivity)) as Hq.
      lra.
Qed.

Lemma tracker_running_weaken : forall b b' t,
  tracker_running b t -> b <= b' -> tracker_running b' t.
Proof.
  intros b b' t (Hrun & Hd & Hc & Hi & Hl) Hb. repeat split; try assumption. lia.
Qed.

Lemma start_running : forall bound,
  0 <= bound -> tracker_running bound (Tracker.start TRANSITION_DURATION 0 1).
Proof.
  intros bound Hb. repeat split; cbn; try assumption; try discriminate.
Qed.

Lemma advance_frame_sets_baseline : forall t frame_time,
  is_running t = true -> last_frame_time t <= frame_time ->
  last_frame_time (Tracker.advance_frame t frame_time) = frame_time.
Proof.
  intros t ft Hrun Hl. unfold Tracker.advance_frame. rewrite Hrun. cbn [negb].
  destruct (Z.eqb_spec (last_frame_time t) 0); [reflexivity|].
  destruct (Z.ltb_spec ft (last_frame_time t)); [lia|reflexivity].
Qed.

Lemma advance_frame_completes : forall bound t frame_time,
  tracker_running bound t ->
  last_frame_time t <> 0 ->
  last_frame_time t + TRANSITION_DURATION <= frame_time ->
  Tracker.is_after (Tracker.advance_frame t frame_time) = true.
Proof.
  intros bound t ft (Hrun & Hd & Hc & Hi & Hl) Hne Hft.
  unfold Tracker.is_after, Tracker.get_state, Tracker.advance_frame.
  rewrite Hrun. cbn [negb].
  destruct (Z.eqb_spec (last_frame_time t) 0); [contradiction|].
  assert (Hpos : 0 < TRANSITION_DURATION) by reflexivity.
  destruct (Z.ltb_spec ft (last_frame_time t)); [lia|].
  cbn [is_running iteration iteration_count negb orb].
  rewrite ?Hrun, Hc, Hd. cbn [negb orb].
  pose proof (Qdiv_inject_ge_1 (ft - last_frame_time t) TRANSITION_DURATION
                Hpos ltac:(lia)) as Hq.
  assert (Hle : (1 <= iteration t
                      + inject_Z (ft - last_frame_time t) / inject_Z TRANSITION_DURATION)%Q)
    by lra.
  apply Qle_bool_iff in Hle. rewrite Hle. reflexivity.
Qed.

(* ------------------------------------------------------------------ *)
(** ** What each step of the state machine writes *)

#[local] Arguments gtk_popover_update_position : simpl never.
#[local] Arguments Tracker.advance_frame : simpl never.
#[local] Arguments Tracker.get_ease_out_cubic : simpl never.
#[local] Arguments Tracker.is_after : simpl never.
#[local] Arguments Tracker.start : simpl never.
#[local] Arguments Tracker.finish : simpl never.
#[local] Arguments GInt.of_double : simpl never.
#[local] Arguments Qplus : simpl never.
#[local] Arguments Qminus : simpl never.
#[local] Arguments Qmult : simpl never.
#[local] Arguments inject_Z : simpl never.
#[local] Arguments Z.eqb : simpl never.
#[local] Arguments Z.add : simpl never.

(** Project the fields of a popover through the record updates. *)
Ltac fields :=
  cbn [
       priv wdg trace emit on_priv on_wdg widget window prev_focus_widget
       pointing_to constraint tracker has_pointing_to preferred_position
       final_position current_position modal state visible first_frame_skipped
       transition_diff tick_id w_visible w_realized w_mapped w_opacity w_ticks
       w_last_tick_id priv_set_widget priv_set_window priv_set_prev_focus_widget
       priv_set_pointing_to priv_set_constraint priv_set_tracker
       priv_set_has_pointing_to priv_set_preferred_position priv_set_final_position
       priv_set_current_position priv_set_modal priv_set_state priv_set_visible
       priv_set_first_frame_skipped priv_set_transition_diff priv_set_tick_id
       wdg_set_w_visible wdg_set_w_realized wdg_set_w_mapped wdg_set_w_opacity
       wdg_set_w_ticks wdg_set_w_last_tick_id ].

Ltac fields_in H :=
  cbn [
       priv wdg trace emit on_priv on_wdg widget window prev_focus_widget
       pointing_to constraint tracker has_pointing_to preferred_position
       final_position current_position modal state visible first_frame_skipped
       transition_diff tick_id w_visible w_realized w_mapped w_opacity w_ticks
       w_last_tick_id priv_set_widget priv_set_window priv_set_prev_focus_widget
       priv_set_pointing_to priv_set_constraint priv_set_tracker
       priv_set_has_pointing_to priv_set_preferred_position priv_set_final_position
       priv_set_current_position priv_set_modal priv_set_state priv_set_visible
       priv_set_first_frame_skipped priv_set_transition_diff priv_set_tick_id
       wdg_set_w_visible wdg_set_w_realized wdg_set_w_mapped wdg_set_w_opacity
       wdg_set_w_ticks wdg_set_w_last_tick_id ] in H.

(** Two popovers with the same fields are equal. *)
Lemma priv_ext : forall a b : GtkPopoverPrivate,
  widget a = widget b ->
  window a = window b ->
  prev_focus_widget a = prev_focus_widget b ->
  pointing_to a = pointing_to b ->
  constraint a = constraint b ->
  tracker a = tracker b ->
  has_pointing_to a = has_pointing_to b ->
  preferred_position a = preferred_position b ->
  final_position a = final_position b ->
  current_position a = current_position b ->
  modal a = modal b ->
  state a = state b ->
  visible a = visible b ->
  first_frame_skipped a = first_frame_skipped b ->
  transition_diff a = transition_diff b ->
  tick_id a = tick_id b ->
  a = b.
Proof.
  intros a b. destruct a, b. cbn. intros. subst. reflexivity.
Qed.

Lemma wdg_ext : forall a b : GtkWidgetPart,
  w_visible a = w_visible b ->
  w_realized a = w_realized b ->
  w_mapped a = w_mapped b ->
  w_opacity a = w_opacity b ->
  w_ticks a = w_ticks b ->
  w_last_tick_id a = w_last_tick_id b ->
  a = b.
Proof.
  intros a b. destruct a, b. cbn. intros. subst. reflexivity.
Qed.

Lemma popover_ext : forall a b : GtkPopover,
  priv a = priv b -> wdg a = wdg b -> trace a = trace b -> a = b.
Proof.
  intros a b. destruct a, b. cbn. intros. subst. reflexivity.
Qed.

(** Prove an equation between popovers field by field. *)
Ltac by_fields :=
  apply popover_ext;
  [ apply priv_ext; fields; try reflexivity; try congruence
  | apply wdg_ext; fields; try reflexivity; try congruence
  | fields; rewrite <- ?app_assoc; try reflexivity;
    try (rewrite app_nil_r; reflexivity) ].

(** Replace one call of gtk_popover_update_position by what it writes. *)
Ltac step_update_position :=
  match goal with
  | |- context [gtk_popover_update_position ?e ?x] =>
      let f := fresh "f" in
      let c := fresh "c" in
      let tr := fresh "tr" in
      let Heq := fresh "Heq" in
      let Hc := fresh "Hc" in
      destruct (update_position_shape e x) as (f & c & tr & Heq & Hc);
      rewrite Heq; clear Heq; fields
  end.

Lemma apply_modality_shape : forall e m p,
  exists pf effects,
    gtk_popover_apply_modality e m p
    = {| priv := priv_set_prev_focus_widget pf (priv p);
         wdg := wdg p;
         trace := trace p ++ effects |} /\
    closed_count effects = 0%nat /\
    (m = false -> window (priv p) <> None -> In GrabRemove effects).
Proof.
  intros e m p.
  unfold gtk_popover_apply_modality, popover_unset_prev_focus.
  destruct (window (priv p)) as [win|] eqn:Hw.
  - destruct m.
    + exists (window_focus e),
        [GrabAdd; WindowSetFocusNull; GrabFocusPopover; ConnectWindowHandlers].
      split; [by_fields|]. split; [reflexivity|discriminate].
    + cbv zeta. fields.
      destruct (prev_focus_widget (priv p)) as [w|] eqn:Hpf;
        [destruct (is_drawable e w); [destruct (is_entry e w)|]|];
        fields; rewrite ?Hpf.
      * exists None,
          [DisconnectWindowHandlers; GrabRemove; GrabFocusEntryWithoutSelecting w].
        split; [by_fields|]. split; [reflexivity|]. intros; cbn; tauto.
      * exists None, [DisconnectWindowHandlers; GrabRemove; GrabFocusWidget w].
        split; [by_fields|]. split; [reflexivity|]. intros; cbn; tauto.
      * exists None, [DisconnectWindowHandlers; GrabRemove; GrabFocusWindow].
        split; [by_fields|]. split; [reflexivity|]. intros; cbn; tauto.
      * exists None, [DisconnectWindowHandlers; GrabRemove; GrabFocusWindow].
        split; [by_fields|].
        split; [reflexivity|]. intros; cbn; tauto.
  - exists (prev_focus_widget (priv p)), [].
    split; [by_fields|]. split; [reflexivity|]. intros _ H. contradiction.
Qed.

Ltac step_apply_modality :=
  match goal with
  | |- context [gtk_popover_apply_modality ?e ?m ?x] =>
      let pf := fresh "pf" in
      let eff := fresh "eff" in
      let Heq := fresh "Heq" in
      let Hc := fresh "Hc" in
      let Hg := fresh "Hg" in
      destruct (apply_modality_shape e m x) as (pf & eff & Heq & Hc & Hg);
      rewrite Heq; clear Heq; fields; fields_in Hg
  end.

Lemma hide_internal_shape : forall e p,
  exists pf effects,
    gtk_popover_hide_internal e p
    = {| priv := priv_set_prev_focus_widget pf (priv_set_visible false (priv p));
         wdg := wdg p;
         trace := trace p ++ effects |} /\
    hide_effects p effects.
Proof.
  intros e p. unfold gtk_popover_hide_internal, hide_effects.
  destruct (visible (priv p)) eqn:Hv; cbn [negb];
    [|exists (prev_focus_widget (priv p)), [];
      split; [by_fields|reflexivity]].
  cbv zeta. fields. destruct (modal (priv p)) eqn:Hmod.
  - step_apply_modality.
    destruct (w_realized (wdg p)) eqn:Hreal.
    + exists pf, ([EmitClosed] ++ eff ++ [InputShapeEmpty]).
      split; [by_fields|].
      split; [rewrite !closed_count_app, Hc; reflexivity|].
      split; [intros _ Hw; apply in_or_app; right; apply in_or_app; left;
              apply Hg; [reflexivity|exact Hw]|].
      intros _. apply in_or_app. right. apply in_or_app. right. left. reflexivity.
    + exists pf, ([EmitClosed] ++ eff).
      split; [by_fields|].
      split; [rewrite !closed_count_app, Hc; reflexivity|].
      split; [intros _ Hw; apply in_or_app; right; apply Hg;
              [reflexivity|exact Hw]|discriminate].
  - fields. destruct (w_realized (wdg p)) eqn:Hreal.
    + exists (prev_focus_widget (priv p)), [EmitClosed; InputShapeEmpty].
      split; [by_fields|].
      split; [reflexivity|]. split; [discriminate|]. intros _. right. left. reflexivity.
    + exists (prev_focus_widget (priv p)), [EmitClosed].
      split; [by_fields|].
      split; [reflexivity|]. split; discriminate.
Qed.

Ltac step_hide_internal :=
  match goal with
  | |- context [gtk_popover_hide_internal ?e ?x] =>
      let pf := fresh "pf" in
      let eff := fresh "eff" in
      let Heq := fresh "Heq" in
      let He := fresh "He" in
      destruct (hide_internal_shape e x) as (pf & eff & Heq & He);
      rewrite Heq; clear Heq; unfold hide_effects in He; fields; fields_in He
  end.

Lemma stop_transition_shape : forall p,
  gtk_popover_stop_transition p
  = {| priv := priv_set_tick_id 0 (priv p);
       wdg := wdg_set_w_ticks
                (if tick_id (priv p) =? 0 then w_ticks (wdg p)
                 else remove Z.eq_dec (tick_id (priv p)) (w_ticks (wdg p)))
                (wdg p);
       trace := trace p |}.
Proof.
  intro p.
  unfold gtk_popover_stop_transition, gtk_widget_remove_tick_callback.
  destruct (Z.eqb_spec (tick_id (priv p)) 0) as [H0|H0]; cbn [negb]; by_fields.
Qed.

Lemma start_transition_shape : forall p,
  gtk_popover_start_transition p
  = if tick_id (priv p) =? 0 then
      {| priv := priv_set_tick_id (w_last_tick_id (wdg p) + 1)
                   (priv_set_tracker (Tracker.start TRANSITION_DURATION 0 1)
                      (priv_set_first_frame_skipped false (priv p)));
         wdg := wdg_set_w_last_tick_id (w_last_tick_id (wdg p) + 1)
                  (wdg_set_w_ticks (w_ticks (wdg p) ++ [w_last_tick_id (wdg p) + 1])
                     (wdg p));
         trace := trace p |}
    else p.
Proof.
  intro p.
  unfold gtk_popover_start_transition, gtk_widget_add_tick_callback.
  destruct (tick_id (priv p) =? 0); cbn [negb]; [by_fields|reflexivity].
Qed.

Lemma hide_shape : forall e p,
  exists pf effects,
    gtk_popover_hide e p
    = {| priv := priv_set_tracker (Tracker.finish (tracker (priv p)))
                   (priv_set_transition_diff 0
                      (priv_set_state STATE_HIDDEN
                         (priv_set_tick_id 0
                            (priv_set_prev_focus_widget pf
                               (priv_set_visible false (priv p))))));
         wdg := wdg_set_w_mapped false
                  (wdg_set_w_visible false
                     (wdg_set_w_opacity 1%Q
                        (wdg_set_w_ticks
                           (if tick_id (priv p) =? 0 then w_ticks (wdg p)
                            else remove Z.eq_dec (tick_id (priv p)) (w_ticks (wdg p)))
                           (wdg p))));
         trace := trace p ++ effects |} /\
    hide_effects p effects.
Proof.
  intros e p.
  unfold gtk_popover_hide, gtk_widget_real_hide. cbv zeta.
  step_hide_internal. rewrite stop_transition_shape.
  exists pf, eff. split; [by_fields|exact He].
Qed.

Ltac step_hide :=
  match goal with
  | |- context [gtk_popover_hide ?e ?x] =>
      let pf := fresh "pf" in
      let eff := fresh "eff" in
      let Heq := fresh "Heq" in
      let He := fresh "He" in
      destruct (hide_shape e x) as (pf & eff & Heq & He);
      rewrite Heq; clear Heq; unfold hide_effects in He; fields; fields_in He
  end.

Lemma show_shape : forall e p,
  exists pf f c effects,
    gtk_popover_show e p
    = {| priv := priv_set_state STATE_SHOWN
                   (priv_set_prev_focus_widget pf
                      (priv_set_current_position c
                         (priv_set_final_position f
                            (priv_set_visible true (priv p)))));
         wdg := wdg_set_w_mapped (w_mapped (wdg p) || parent_mapped e)
                  (wdg_set_w_realized
                     (w_realized (wdg p) || (parent_mapped e && negb (w_mapped (wdg p))))
                     (wdg_set_w_visible true (wdg p)));
         trace := trace p ++ effects |} /\
    closed_count effects = 0%nat.
Proof.
  intros e p.
  unfold gtk_popover_show, gtk_widget_real_show, gtk_popover_map. cbv zeta.
  set (p0 := match window (priv p) with
             | Some _ => emit RaisePopover p
             | None => p
             end).
  assert (Hp0 : exists r, p0 = {| priv := priv p; wdg := wdg p; trace := trace p ++ r |}
                          /\ closed_count r = 0%nat).
  { subst p0. destruct (window (priv p)); [exists [RaisePopover]|exists []];
      (split; [by_fields|reflexivity]). }
  destruct Hp0 as (r & Hp0 & Hr). rewrite Hp0. clear Hp0 p0. fields.
  destruct (parent_mapped e), (w_mapped (wdg p)) eqn:Hm; cbn [andb negb orb]; fields;
    try step_update_position;
    (destruct (modal (priv p)) eqn:Hmod; [step_apply_modality|fields]);
    (destruct (w_realized (wdg p)) eqn:Hreal; cbn [orb]; fields;
     rewrite ?Hreal; cbv iota; fields);
    first [exists pf | exists (prev_focus_widget (priv p))];
    first [exists f, c
          | exists (final_position (priv p)), (current_position (priv p))];
    eexists;
    (split;
     [ apply popover_ext;
       [ apply priv_ext; fields; reflexivity
       | apply wdg_ext; fields; rewrite ?Hreal, ?Hm; reflexivity
       | fields; rewrite <- ?app_assoc; reflexivity ]
     | rewrite ?closed_count_app, ?Hr, ?Hc, ?Hc0; reflexivity ]).
Qed.

(* ------------------------------------------------------------------ *)
(** ** Popdown *)

(** C7, as the code has it: popdown does nothing in the states HIDING and
    HIDDEN.  In the states SHOWING and SHOWN (the widget is then visible)
    it enters HIDING when animations are enabled and the popover is
    realized, and hides at once into HIDDEN otherwise.  Either way it runs
    gtk_popover_hide_internal before it returns: if the popover was still
    marked visible, closed is emitted once, the grab is released when the
    popover is modal and has a window, and the input shape is emptied
    when the popover is realized; if it was not, nothing is emitted. *)
Theorem popdown_hides :
  forall (e : Env) (p : GtkPopover),
    ((state (priv p) = STATE_HIDING \/ state (priv p) = STATE_HIDDEN) ->
     gtk_popover_popdown e p = p) /\
    ((state (priv p) = STATE_SHOWING \/ state (priv p) = STATE_SHOWN) ->
     w_visible (wdg p) = true ->
     let q := gtk_popover_popdown e p in
     state (priv q)
     = (if enable_animations e && w_realized (wdg p)
        then STATE_HIDING else STATE_HIDDEN) /\
     visible (priv q) = false /\
     exists effects,
       trace q = trace p ++ effects /\
       if visible (priv p) then
         closed_count effects = 1%nat /\
         (modal (priv p) = true -> window (priv p) <> None ->
          In GrabRemove effects) /\
         (w_realized (wdg p) = true -> In InputShapeEmpty effects)
       else effects = []).
Proof.
  intros e p. split.
  - intros [H|H]; unfold gtk_popover_popdown; rewrite H; reflexivity.
  - intros Hst Hvis q. subst q.
    assert (Hpop : gtk_popover_popdown e p
                   = gtk_popover_hide_internal e
                       (if negb (transitions_enabled e) then gtk_widget_hide e p
                        else gtk_popover_set_state e STATE_HIDING p))
      by (unfold gtk_popover_popdown; destruct Hst as [H|H]; rewrite H; reflexivity).
    rewrite Hpop. clear Hpop Hst.
    unfold transitions_enabled.
    destruct (enable_animations e) eqn:Han; cbn [negb andb].
    + unfold gtk_popover_set_state, transitions_enabled. rewrite Han.
      cbn [negb orb].
      destruct (w_realized (wdg p)) eqn:Hreal; cbn [negb]; cbv zeta; cbv iota.
      * rewrite start_transition_shape. fields.
        destruct (tick_id (priv p) =? 0);
          step_hide_internal; rewrite ?Hreal in He;
          (split; [reflexivity|]); (split; [reflexivity|]);
          exists eff; (split; [reflexivity|exact He]).
      * unfold gtk_widget_set_visible, gtk_widget_hide. cbn [state_eqb].
        rewrite stop_transition_shape. fields. rewrite Hvis.
        step_hide. step_hide_internal. subst.
        rewrite ?Hreal in He.
        (split; [reflexivity|]); (split; [reflexivity|]).
        exists eff. split; [rewrite app_nil_r; reflexivity|exact He].
    + unfold gtk_widget_hide. rewrite Hvis.
      step_hide. step_hide_internal. subst.
      (split; [reflexivity|]); (split; [reflexivity|]).
      exists eff. split; [rewrite app_nil_r; reflexivity|exact He].
Qed.

Lemma popdown_hides_witness :
  let e := scenario_env false false true 100 100 in
  let p := gtk_popover_popup e (gtk_popover_new e (Some 1%nat)) in
  let q := gtk_popover_popdown e p in
  state (priv p) = STATE_SHOWING /\
  state (priv q) = STATE_HIDING /\
  visible (priv q) = false /\
  exists effects,
    trace q = trace p ++ effects /\
    closed_count effects = 1%nat /\
    (true = true -> Some 0%nat <> None -> In GrabRemove effects) /\
    (true = true -> In InputShapeEmpty effects).
Proof.
  split; [reflexivity|].
  apply (proj2 (popdown_hides
                  (scenario_env false false true 100 100)
                  (gtk_popover_popup (scenario_env false false true 100 100)
                     (gtk_popover_new (scenario_env false false true 100 100)
                                      (Some 1%nat))))).
  - left. reflexivity.
  - reflexivity.
Defined.

(** C7 as stated fails in two ways.  A popover shown while its parent
    is not mapped is in state SHOWN and not realized: with animations
    enabled, popdown takes it to HIDDEN, not to HIDING.  And a popover
    that is popped up again while its hide animation plays is in state
    SHOWING with its visible flag cleared: popdown takes it back to HIDING
    and emits nothing. *)
Lemma popdown_counterexample :
  (let e := parent_unmapped (scenario_env false false true 100 100) in
   let p := gtk_popover_popup e (gtk_popover_new e (Some 1%nat)) in
   enable_animations e = true /\
   state (priv p) = STATE_SHOWN /\
   w_realized (wdg p) = false /\
   state (priv (gtk_popover_popdown e p)) = STATE_HIDDEN) /\
  (let e := scenario_env false false true 100 100 in
   let p := gtk_popover_popup e
              (gtk_popover_popdown e
                 (gtk_popover_popup e (gtk_popover_new e (Some 1%nat)))) in
   state (priv p) = STATE_SHOWING /\
   visible (priv p) = false /\
   state (priv (gtk_popover_popdown e p)) = STATE_HIDING /\
   trace (gtk_popover_popdown e p) = trace p).
Proof.
  vm_compute. repeat split.
Qed.

(* ------------------------------------------------------------------ *)
(** ** Eased progress *)










(* ------------------------------------------------------------------ *)
(** ** One tick *)

(** show_animate_cb up to its test of the tracker state: the tracker is
    advanced (or the first-frame flag set), offset and opacity follow the
    eased progress, the position is recomputed. *)
Lemma tick_shape : forall e ft p,
  exists f c eff,
    closed_count eff = 0%nat /\
    let tr := tick_tracker ft p in
    let t := Tracker.get_ease_out_cubic tr in
    let q :=
      {| priv :=
           priv_set_current_position c
             (priv_set_final_position f
                (priv_set_transition_diff
                   (tick_diff (state (priv p)) t (transition_diff (priv p)))
                   (priv_set_tracker tr
                      (priv_set_first_frame_skipped true (priv p)))));
         wdg := wdg_set_w_opacity
                  (tick_opacity (state (priv p)) t (w_opacity (wdg p))) (wdg p);
         trace := trace p ++ eff |} in
    show_animate_cb e ft p
    = if Tracker.is_after tr then
        (on_priv (priv_set_tick_id 0)
           match state (priv p) with
           | STATE_SHOWING =>
               let p1 := gtk_popover_set_state e STATE_SHOWN q in
               if negb (visible (priv p1))
               then gtk_popover_set_state e STATE_HIDING p1
               else p1
           | _ => gtk_widget_hide e q
           end, false)
      else (q, true).
Proof.
  intros e ft p. unfold show_animate_cb, tick_tracker. cbv zeta.
  destruct (first_frame_skipped (priv p)) eqn:Hffs;
    destruct (state (priv p)) eqn:Hst; fields; rewrite ?Hst; fields;
    step_update_position;
    exists f, c, (tr ++ [QueueAllocateWindow]);
    (split; [rewrite closed_count_app, Hc; reflexivity|]);
    unfold tick_diff, tick_opacity;
    match goal with
    | |- context [(emit QueueAllocateWindow ?x, true)] =>
        match goal with
        | |- _ = if _ then _ else (?q, true) =>
            replace (emit QueueAllocateWindow x) with q by by_fields
        end
    end;
    fields; rewrite ?Hst; reflexivity.
Qed.

Ltac step_show :=
  match goal with
  | |- context [gtk_popover_show ?e ?x] =>
      let pf := fresh "pf" in
      let f := fresh "f" in
      let c := fresh "c" in
      let eff := fresh "eff" in
      let Heq := fresh "Heq" in
      let Hc := fresh "Hc" in
      destruct (show_shape e x) as (pf & f & c & eff & Heq & Hc);
      rewrite Heq; clear Heq; fields
  end.

Lemma set_state_shown : forall e p,
  gtk_popover_set_state e STATE_SHOWN p
  = gtk_widget_show e
      (gtk_popover_stop_transition (on_priv (priv_set_state STATE_SHOWN) p)).
Proof.
  intros e p. unfold gtk_popover_set_state, gtk_widget_set_visible.
  destruct (negb (transitions_enabled e) || negb (w_realized (wdg p))); reflexivity.
Qed.

Lemma tick_tracker_running : forall ft bound p,
  tracker_running bound (tracker (priv p)) ->
  tracker_running (Z.max bound ft) (tick_tracker ft p).
Proof.
  intros ft bound p H. unfold tick_tracker.
  apply (tracker_running_weaken bound (Z.max bound ft)) in H; [|lia].
  destruct (first_frame_skipped (priv p)); [|exact H].
  apply advance_frame_running; [exact H|lia].
Qed.









(* ------------------------------------------------------------------ *)
(** ** From popup to the end of popdown *)

Lemma animating_weaken : forall st vis b b' p,
  animating st vis b p -> b <= b' -> animating st vis b' p.
Proof.
  intros st vis b b' p (H1 & H2 & H3 & H4 & H5 & H6 & H7 & H8) Hb.
  repeat split; try assumption; try apply H8.
  destruct H8 as (_ & _ & _ & _ & Hl). lia.
Qed.

Lemma remove_single : forall id : Z, remove Z.eq_dec id [id] = [].
Proof.
  intro id. cbn. destruct (Z.eq_dec id id); [reflexivity|contradiction].
Qed.

Lemma frame_tick_idle : forall e t p,
  w_ticks (wdg p) = [] -> frame_tick e t p = p.
Proof.
  intros e t p H. unfold frame_tick. rewrite H. reflexivity.
Qed.

Lemma frame_tick_single : forall e t p,
  w_ticks (wdg p) = [tick_id (priv p)] ->
  frame_tick e t p
  = if snd (show_animate_cb e t p) then fst (show_animate_cb e t p)
    else gtk_widget_remove_tick_callback (tick_id (priv p))
           (fst (show_animate_cb e t p)).
Proof.
  intros e t p H. unfold frame_tick. rewrite H. cbn [fold_left].
  unfold run_tick_callback. rewrite H. cbn [existsb].
  rewrite Z.eqb_refl. cbn [orb].
  destruct (show_animate_cb e t p) as [q continue]. reflexivity.
Qed.


Ltac tick_id_nonzero Hid :=
  match goal with
  | |- context [tick_id (priv ?p) =? 0] =>
      destruct (Z.eqb_spec (tick_id (priv p)) 0) as [?H0|?H0];
      [contradiction Hid|]
  end.




Lemma after_popup_weaken : forall b b' p,
  after_popup b p -> b <= b' -> after_popup b' p.
Proof.
  intros b b' p [H|H] Hb; [left; exact H|right].
  apply (animating_weaken _ _ b); assumption.
Qed.


Lemma run_frames_idle : forall frames p,
  w_ticks (wdg p) = [] -> run_frames frames p = p.
Proof.
  induction frames as [|f frames IH]; intros p H; [reflexivity|].
  unfold run_frames. cbn [fold_left].
  rewrite frame_tick_idle by exact H. apply IH. exact H.
Qed.

Lemma frames_bound : forall (frames : list (Env * Z)) (b : Z),
  exists B, b <= B /\ Forall (fun f => snd f <= B) frames.
Proof.
  induction frames as [|f frames IH]; intro b.
  - exists b. split; [lia|constructor].
  - destruct (IH (Z.max b (snd f))) as (B & HB & Hall).
    exists B. split; [lia|]. constructor; [lia|exact Hall].
Qed.




(* ------------------------------------------------------------------ *)
(** ** The widget is visible in every state but HIDDEN

    This holds of a new popover and is kept by every request, so that the
    states SHOWING and SHOWN always come with a visible widget. *)

Lemma visible_update_position : forall e p,
  visible_unless_hidden p -> visible_unless_hidden (gtk_popover_update_position e p).
Proof.
  intros e p H. unfold visible_unless_hidden.
  destruct (update_position_shape e p) as (f & c & tr & Heq & _).
  rewrite Heq. exact H.
Qed.

Lemma widget_show_visible : forall e p,
  w_visible (wdg (gtk_widget_show e p)) = true.
Proof.
  intros e p. unfold gtk_widget_show.
  destruct (w_visible (wdg p)) eqn:H; [exact H|]. step_show. reflexivity.
Qed.

Lemma visible_widget_hide : forall e p,
  visible_unless_hidden p -> visible_unless_hidden (gtk_widget_hide e p).
Proof.
  intros e p H. unfold gtk_widget_hide.
  destruct (w_visible (wdg p)); [|exact H].
  unfold visible_unless_hidden. step_hide. left. reflexivity.
Qed.

Lemma visible_hide_internal : forall e p,
  visible_unless_hidden p -> visible_unless_hidden (gtk_popover_hide_internal e p).
Proof.
  intros e p H. unfold visible_unless_hidden. step_hide_internal. exact H.
Qed.

Lemma visible_set_state : forall e st p,
  w_visible (wdg p) = true -> visible_unless_hidden (gtk_popover_set_state e st p).
Proof.
  intros e st p Hwv. unfold gtk_popover_set_state. cbv zeta.
  set (st' := if negb (transitions_enabled e) || negb (w_realized (wdg p))
              then match st with
                   | STATE_SHOWING => STATE_SHOWN
                   | STATE_HIDING => STATE_HIDDEN
                   | _ => st
                   end
              else st).
  assert (Hanim : visible_unless_hidden
                    (gtk_popover_start_transition (on_priv (priv_set_state st') p))).
  { unfold visible_unless_hidden. rewrite start_transition_shape. fields.
    destruct (tick_id (priv p) =? 0); right; exact Hwv. }
  destruct st'; try exact Hanim.
  - unfold gtk_widget_set_visible. cbn [state_eqb].
    right. apply widget_show_visible.
  - unfold gtk_widget_set_visible, gtk_widget_hide. cbn [state_eqb].
    rewrite stop_transition_shape. fields. rewrite Hwv.
    unfold visible_unless_hidden. step_hide. left. reflexivity.
Qed.

Lemma visible_show_animate_cb : forall e t p,
  visible_unless_hidden p -> visible_unless_hidden (fst (show_animate_cb e t p)).
Proof.
  intros e t p H.
  destruct (tick_shape e t p) as (f & c & eff & Hc & Heq).
  cbv zeta in Heq. rewrite Heq. clear Heq.
  match goal with
  | |- context [gtk_widget_hide e ?x] => set (q := x)
  end.
  assert (Hq : visible_unless_hidden q) by exact H.
  destruct (Tracker.is_after (tick_tracker t p)); cbn [fst]; [|exact Hq].
  assert (Htick : forall x, visible_unless_hidden x ->
                            visible_unless_hidden (on_priv (priv_set_tick_id 0) x))
    by (intros x Hx; exact Hx).
  apply Htick.
  destruct (state (priv p)); try (apply visible_widget_hide; exact Hq).
  cbv zeta.
  assert (Hshown : w_visible (wdg (gtk_popover_set_state e STATE_SHOWN q)) = true)
    by (rewrite set_state_shown; apply widget_show_visible).
  destruct (negb (visible (priv (gtk_popover_set_state e STATE_SHOWN q)))).
  - apply visible_set_state. exact Hshown.
  - right. exact Hshown.
Qed.

Lemma visible_frame_tick : forall e t p,
  visible_unless_hidden p -> visible_unless_hidden (frame_tick e t p).
Proof.
  intros e t p. unfold frame_tick.
  generalize (w_ticks (wdg p)). intro l. revert p.
  induction l as [|id l IH]; intros p H; [exact H|].
  cbn [fold_left]. apply IH. unfold run_tick_callback.
  destruct (existsb _ _); [|exact H].
  pose proof (visible_show_animate_cb e t p H) as Hq.
  destruct (show_animate_cb e t p) as [q continue]. cbn [fst] in Hq.
  destruct continue; exact Hq.
Qed.

Lemma visible_popup : forall e p,
  visible_unless_hidden p -> visible_unless_hidden (gtk_popover_popup e p).
Proof.
  intros e p H. unfold gtk_popover_popup.
  assert (Hshow : visible_unless_hidden
                    (if transitions_enabled e
                     then gtk_popover_set_state e STATE_SHOWING (gtk_widget_show e p)
                     else gtk_widget_show e p)).
  { destruct (transitions_enabled e).
    - apply visible_set_state. apply widget_show_visible.
    - right. apply widget_show_visible. }
  destruct (state (priv p)); first [exact H | exact Hshow].
Qed.

Lemma visible_popdown : forall e p,
  visible_unless_hidden p -> visible_unless_hidden (gtk_popover_popdown e p).
Proof.
  intros e p H. unfold gtk_popover_popdown.
  assert (Hhide : visible_unless_hidden
                    (gtk_popover_hide_internal e
                       (if negb (transitions_enabled e) then gtk_widget_hide e p
                        else gtk_popover_set_state e STATE_HIDING p)) \/
                  state (priv p) = STATE_HIDDEN).
  { destruct H as [H|H]; [right; exact H|left].
    apply visible_hide_internal.
    destruct (negb (transitions_enabled e)).
    - apply visible_widget_hide. right. exact H.
    - apply visible_set_state. exact H. }
  destruct (state (priv p)) eqn:Hst; try exact H;
    (destruct Hhide as [Hhide|Hhide]; [exact Hhide|discriminate]).
Qed.

Lemma visible_request : forall p r,
  visible_unless_hidden p -> visible_unless_hidden (request p r).
Proof.
  intros p [e r] H. unfold request. cbn [fst snd].
  assert (Hon : forall f q,
             (forall x, state (f x) = state x) ->
             visible_unless_hidden q -> visible_unless_hidden (on_priv f q))
    by (intros f q Hf Hq; unfold visible_unless_hidden; fields; rewrite Hf;
        exact Hq).
  destruct r.
  - apply visible_popup. exact H.
  - apply visible_popdown. exact H.
  - right. apply widget_show_visible.
  - apply visible_widget_hide. exact H.
  - apply visible_frame_tick. exact H.
  - unfold gtk_popover_set_position. apply visible_update_position.
    destruct (position_eqb _ _); [exact H|]. apply Hon; [reflexivity|exact H].
  - unfold gtk_popover_set_constrain_to.
    destruct (constraint (priv p)), c; try exact H;
      apply visible_update_position; (apply Hon; [reflexivity|exact H]).
  - unfold gtk_popover_set_pointing_to, gtk_popover_update_pointing_to.
    apply visible_update_position. apply Hon; [reflexivity|exact H].
  - apply visible_update_position. exact H.
Qed.

(** Every popover reached from gtk_popover_new has a visible widget
    unless it is in state HIDDEN. *)
Lemma visible_reachable : forall reqs e relative_to,
  visible_unless_hidden (run reqs (gtk_popover_new e relative_to)).
Proof.
  intros reqs e relative_to.
  assert (Hnew : visible_unless_hidden (gtk_popover_new e relative_to)).
  { left. unfold gtk_popover_new, gtk_popover_set_relative_to.
    assert (Hrel : state (priv (gtk_popover_update_relative_to
                                  e relative_to (gtk_popover_init zero_instance)))
                   = STATE_HIDDEN).
    { unfold gtk_popover_update_relative_to.
      destruct relative_to as [w|]; [|reflexivity].
      cbn. destruct (ancestor_window e w); reflexivity. }
    destruct relative_to; [|exact Hrel].
    destruct (update_position_shape e
                (gtk_popover_update_relative_to e (Some g)
                   (gtk_popover_init zero_instance))) as (f & c & tr & Heq & _).
    rewrite Heq. exact Hrel. }
  revert Hnew. generalize (gtk_popover_new e relative_to).
  induction reqs as [|r reqs IH]; intros p H; [exact H|].
  unfold run. cbn [fold_left]. apply IH. apply visible_request. exact H.
Qed.

(* ================================================================== *)
(** * Further properties *)

(* ------------------------------------------------------------------ *)
(** ** Sides *)

(** X1: get_effective_position is its own inverse.  It leaves every side
    alone under left-to-right direction and the sides TOP and BOTTOM
    always; under right-to-left direction it turns LEFT and RIGHT into
    each other. *)
Theorem effective_position_mirror :
  forall (e : Env) (pos : GtkPositionType),
    get_effective_position e (get_effective_position e pos) = pos /\
    (text_dir_rtl e = false -> get_effective_position e pos = pos) /\
    (POS_IS_VERTICAL pos = true -> get_effective_position e pos = pos) /\
    (text_dir_rtl e = true -> POS_IS_VERTICAL pos = false ->
     get_effective_position e pos = opposite_position pos).
Proof.
  intros e pos. unfold get_effective_position.
  destruct (text_dir_rtl e), pos; repeat split; intros; try reflexivity; discriminate.
Qed.

Lemma effective_position_mirror_witness :
  let e := scenario_env true false true 100 100 in
  get_effective_position e (get_effective_position e GTK_POS_LEFT) = GTK_POS_LEFT /\
  get_effective_position e GTK_POS_LEFT = GTK_POS_RIGHT /\
  get_effective_position e GTK_POS_TOP = GTK_POS_TOP.
Proof.
  pose proof (effective_position_mirror (scenario_env true false true 100 100)
                GTK_POS_LEFT) as (H1 & _ & _ & H4).
  pose proof (effective_position_mirror (scenario_env true false true 100 100)
                GTK_POS_TOP) as (_ & _ & H3 & _).
  split; [exact H1|]. split; [apply H4; reflexivity|apply H3; reflexivity].
Defined.

(** X2: opposite_position is an involution without fixed point that
    keeps the axis of a side (TOP and BOTTOM are vertical, LEFT and RIGHT
    are not), and it commutes with the mirroring of
    get_effective_position. *)
Theorem opposite_position_involutive :
  forall (e : Env) (pos : GtkPositionType),
    opposite_position (opposite_position pos) = pos /\
    opposite_position pos <> pos /\
    POS_IS_VERTICAL (opposite_position pos) = POS_IS_VERTICAL pos /\
    get_effective_position e (opposite_position pos)
    = opposite_position (get_effective_position e pos).
Proof.
  intros e pos. unfold get_effective_position.
  destruct (text_dir_rtl e), pos; repeat split; discriminate.
Qed.

(* ------------------------------------------------------------------ *)
(** ** Position recomputation *)

Lemma position_eqb_eq : forall a b, position_eqb a b = true <-> a = b.
Proof.
  intros a b. split; [|intros ->; destruct b; reflexivity].
  destruct a, b; intro H; try reflexivity; discriminate H.
Qed.

(** Everything gtk_popover_update_position writes, when there is a window. *)
Lemma update_position_exact : forall e p w,
  window (priv p) = Some w ->
  let f := choose_final_position e p (anchor_rect e p) in
  gtk_popover_update_position e p
  = {| priv := priv_set_current_position f (priv_set_final_position f (priv p));
       wdg := wdg p;
       trace := trace p
                ++ SetPopoverPosition
                     f (offset_rect f (transition_diff (priv p)) (anchor_rect e p))
                   :: (if negb (position_eqb f (current_position (priv p)))
                          && popover_is_drawable p && negb (wayland_display e)
                       then [UpdateShape] else []) |}.
Proof.
  intros e p w Hw f.
  unfold gtk_popover_update_position. rewrite Hw. cbv zeta.
  rewrite anchor_rect_set_final.
  change (choose_final_position e
            (on_priv (fun q => priv_set_final_position (preferred_position q) q) p)
            (anchor_rect e p)) with f.
  fields.
  destruct (position_eqb f (current_position (priv p))) eqn:Heq; cbn [negb andb].
  - apply position_eqb_eq in Heq. by_fields.
  - unfold popover_is_drawable, gtk_popover_update_shape. fields.
    destruct (w_visible (wdg p) && w_mapped (wdg p)); cbn [andb];
      [destruct (wayland_display e); cbn [negb]|]; by_fields.
Qed.

(** X3: where placement is constrained (not both a Wayland display and
    the constraint NONE) and at least one of the four sides has room
    (overshoot <= 0), the side gtk_popover_update_position resolves has
    room too, its overshoot being read on its effective side. *)
Theorem update_position_fits_when_possible :
  forall (e : Env) (p : GtkPopover) (w : GtkWindow) (s : GtkPositionType),
    window (priv p) = Some w ->
    unconstrained e p = false ->
    overshoot e (anchor_rect e p) s <= 0 ->
    overshoot e (anchor_rect e p)
      (get_effective_position
         e (final_position (priv (gtk_popover_update_position e p)))) <= 0.
Proof.
  intros e p w s Hw Hun Hs.
  rewrite (update_position_final e p w Hw).
  unfold choose_final_position. rewrite Hun.
  destruct (Z.leb_spec
              (overshoot e (anchor_rect e p)
                 (get_effective_position e (preferred_position (priv p)))) 0)
    as [H1|H1]; [exact H1|].
  destruct (Z.leb_spec
              (overshoot e (anchor_rect e p)
                 (opposite_position
                    (get_effective_position e (preferred_position (priv p))))) 0)
    as [H2|H2]; [rewrite opposite_effective; exact H2|].
  destruct (best_position_first_minimum e (overshoot e (anchor_rect e p))
              (fun j => proj2 (overshoot_range e (anchor_rect e p) j)))
    as [Hmin _].
  specialize (Hmin (get_effective_position e s)).
  replace (get_effective_position e (get_effective_position e s)) with s in Hmin
    by (unfold get_effective_position; destruct (text_dir_rtl e), s; reflexivity).
  lia.
Qed.

Lemma update_position_fits_when_possible_witness :
  let e := crowded_env false false 100 30 40 10 in
  let p := scenario_popover e GTK_POS_LEFT GTK_POPOVER_CONSTRAINT_WINDOW in
  overshoot e (anchor_rect e p) GTK_POS_LEFT = 60 /\
  overshoot e (anchor_rect e p) GTK_POS_RIGHT = 60 /\
  overshoot e (anchor_rect e p) GTK_POS_TOP = 20 /\
  overshoot e (anchor_rect e p)
    (get_effective_position
       e (final_position (priv (gtk_popover_update_position e p)))) <= 0.
Proof.
  split; [reflexivity|]. split; [reflexivity|]. split; [reflexivity|].
  apply (update_position_fits_when_possible
           (crowded_env false false 100 30 40 10)
           (scenario_popover (crowded_env false false 100 30 40 10)
                             GTK_POS_LEFT GTK_POPOVER_CONSTRAINT_WINDOW)
           0%nat GTK_POS_BOTTOM).
  - reflexivity.
  - reflexivity.
  - vm_compute. discriminate.
Defined.

(** X4: after gtk_popover_update_position the current side equals the
    resolved side, and running it again in the same environment changes
    no field of the popover or of the widget: it only tells the window
    the same side and rectangle once more, and does not reshape. *)
Theorem update_position_idempotent :
  forall (e : Env) (p : GtkPopover) (w : GtkWindow),
    window (priv p) = Some w ->
    let q := gtk_popover_update_position e p in
    let q' := gtk_popover_update_position e q in
    current_position (priv q) = final_position (priv q) /\
    priv q' = priv q /\
    wdg q' = wdg q /\
    exists rect,
      trace q' = trace q ++ [SetPopoverPosition (final_position (priv q)) rect] /\
      In (SetPopoverPosition (final_position (priv q)) rect) (trace q).
Proof.
  intros e p w Hw q q'. subst q'.
  assert (Hq : q = gtk_popover_update_position e p) by reflexivity.
  rewrite (update_position_exact e p w Hw) in Hq. cbv zeta in Hq.
  set (f := choose_final_position e p (anchor_rect e p)) in *.
  assert (Hwq : window (priv q) = Some w) by (rewrite Hq; exact Hw).
  rewrite (update_position_exact e q w Hwq). cbv zeta.
  assert (Ha : anchor_rect e q = anchor_rect e p) by (rewrite Hq; reflexivity).
  assert (Hf : choose_final_position e q (anchor_rect e q) = f).
  { rewrite Ha. rewrite Hq. reflexivity. }
  rewrite Hf, Ha.
  assert (Hc : current_position (priv q) = f) by (rewrite Hq; reflexivity).
  assert (Hfin : final_position (priv q) = f) by (rewrite Hq; reflexivity).
  assert (Hd : transition_diff (priv q) = transition_diff (priv p))
    by (rewrite Hq; reflexivity).
  rewrite Hc, Hfin, Hd.
  replace (position_eqb f f) with true by (destruct f; reflexivity).
  cbn [negb andb]. fields.
  split; [reflexivity|].
  split; [apply priv_ext; fields; rewrite ?Hc, ?Hfin; reflexivity|].
  split; [reflexivity|].
  exists (offset_rect f (transition_diff (priv p)) (anchor_rect e p)).
  split; [reflexivity|].
  rewrite Hq. fields. apply in_or_app. right. left. reflexivity.
Qed.

Lemma update_position_idempotent_witness :
  let e := scenario_env false false true 100 5 in
  let q := gtk_popover_update_position e (gtk_popover_new e (Some 1%nat)) in
  let q' := gtk_popover_update_position e q in
  final_position (priv q) = GTK_POS_BOTTOM /\
  priv q' = priv q /\
  wdg q' = wdg q.
Proof.
  split; [reflexivity|].
  pose proof (update_position_idempotent
                (scenario_env false false true 100 5)
                (gtk_popover_new (scenario_env false false true 100 5) (Some 1%nat))
                0%nat eq_refl) as (_ & Hp & Hw & _).
  split; [exact Hp|exact Hw].
Defined.

(** X5: gtk_popover_set_relative_to with NULL leaves the popover without
    anchor and without window.  On such a popover
    gtk_popover_update_position and gtk_popover_apply_modality return at
    once and change nothing, and the setters of the side, the constraint
    and the pointing rectangle only store their argument.  The popover
    given is one whose window is NULL whenever its anchor is. *)
Theorem detached_popover_is_inert :
  forall (e e' : Env) (p : GtkPopover),
    (widget (priv p) = None -> window (priv p) = None) ->
    let q := gtk_popover_set_relative_to e None p in
    widget (priv q) = None /\
    window (priv q) = None /\
    gtk_popover_update_position e' q = q /\
    (forall m, gtk_popover_apply_modality e' m q = q) /\
    (forall pos,
        gtk_popover_set_position e' pos q
        = on_priv (priv_set_preferred_position pos) q) /\
    (forall c,
        gtk_popover_set_constrain_to e' c q = on_priv (priv_set_constraint c) q) /\
    (forall rect,
        gtk_popover_set_pointing_to e' rect q
        = on_priv (fun r => priv_set_has_pointing_to true (priv_set_pointing_to rect r)) q).
Proof.
  intros e e' p Hinv q.
  assert (Hq : widget (priv q) = None /\ window (priv q) = None).
  { subst q. unfold gtk_popover_set_relative_to, gtk_popover_update_relative_to.
    destruct (widget (priv p)) as [a|] eqn:Ha.
    - unfold popover_unset_prev_focus. fields.
      destruct (prev_focus_widget (priv p)); fields; repeat split.
    - rewrite Ha. auto. }
  destruct Hq as (Hwid & Hwin).
  repeat split; try assumption.
  - apply update_position_no_window. exact Hwin.
  - intro m. unfold gtk_popover_apply_modality. rewrite Hwin. reflexivity.
  - intro pos. unfold gtk_popover_set_position.
    rewrite update_position_no_window
      by (destruct (position_eqb _ _); [exact Hwin|fields; exact Hwin]).
    destruct (position_eqb (preferred_position (priv q)) pos) eqn:Heq;
      [|reflexivity].
    apply position_eqb_eq in Heq. by_fields.
  - intro c. unfold gtk_popover_set_constrain_to.
    destruct (constraint (priv q)) eqn:Hc, c;
      try (rewrite update_position_no_window by (fields; exact Hwin); reflexivity);
      by_fields.
  - intro rect. unfold gtk_popover_set_pointing_to, gtk_popover_update_pointing_to.
    apply update_position_no_window. fields. exact Hwin.
Qed.

Lemma detached_popover_is_inert_witness :
  let e := scenario_env false false true 100 100 in
  let p := gtk_popover_new e (Some 1%nat) in
  let q := gtk_popover_set_relative_to e None p in
  window (priv p) = Some 0%nat /\
  window (priv q) = None /\
  gtk_popover_update_position e q = q.
Proof.
  split; [reflexivity|].
  pose proof (detached_popover_is_inert
                (scenario_env false false true 100 100)
                (scenario_env false false true 100 100)
                (gtk_popover_new (scenario_env false false true 100 100) (Some 1%nat)))
    as H.
  cbv zeta in H.
  destruct H as (_ & Hw & Hu & _); [discriminate|].
  split; [exact Hw|exact Hu].
Defined.

(* ------------------------------------------------------------------ *)
(** ** Arrow geometry *)

Lemma CLAMP_shift : forall x low high k,
  CLAMP (x + k) (low + k) (high + k) = CLAMP x low high + k.
Proof.
  intros x low high k. unfold CLAMP.
  destruct (Z.ltb_spec (high + k) (x + k)), (Z.ltb_spec high x); try lia.
  destruct (Z.ltb_spec (x + k) (low + k)), (Z.ltb_spec x low); lia.
Qed.

(** X6: whatever the clamping does, the gap under the arrow is exactly
    TAIL_GAP_WIDTH = 24 wide, and its two ends lie on one line parallel
    to the edge: for TOP and BOTTOM final_x - initial_x = 24 and
    final_y = initial_y, for LEFT and RIGHT the same with x and y
    exchanged.  Coordinates and sizes are far from the gint limits. *)
Theorem gap_coords_gap_width :
  forall (e : Env) (p : GtkPopover),
    let rect := gap_rect e p in
    let g := gtk_popover_get_gap_coords e p in
    pixel (rx rect) -> pixel (ry rect) ->
    pixel (rwidth rect) -> pixel (rheight rect) ->
    pixel (popover_width e) -> pixel (popover_height e) ->
    pixel (border_radius e) ->
    match final_position (priv p) with
    | GTK_POS_TOP | GTK_POS_BOTTOM =>
        final_x g - initial_x g = TAIL_GAP_WIDTH /\ final_y g = initial_y g
    | GTK_POS_LEFT | GTK_POS_RIGHT =>
        final_y g - initial_y g = TAIL_GAP_WIDTH /\ final_x g = initial_x g
    end.
Proof.
  intros e p rect g Hx Hy Hw Hh Hpw Hph Hr.
  subst g. unfold gtk_popover_get_gap_coords.
  fold rect.
  rewrite effective_vertical.
  set (bt := match get_effective_position e (final_position (priv p)) with
             | GTK_POS_LEFT => _ | _ => _ end).
  destruct bt as [base tip].
  destruct (final_position (priv p));
    match goal with
    | |- context [POS_IS_VERTICAL ?s] =>
        let b := eval vm_compute in (POS_IS_VERTICAL s) in
        change (POS_IS_VERTICAL s) with b
    end;
    cbv beta iota zeta;
    cbn [initial_x initial_y tip_x tip_y final_x final_y];
    change (GInt.div TAIL_GAP_WIDTH 2) with 12;
    (split; [|reflexivity]);
    match goal with
    | |- CLAMP ?a ?b ?c - CLAMP ?x ?l ?h = _ =>
        replace a with (x + 24) by (gint_small; lia);
        replace b with (l + 24) by (gint_small; lia);
        replace c with (h + 24) by (gint_small; lia)
    end;
    rewrite CLAMP_shift; unfold TAIL_GAP_WIDTH; lia.
Qed.

Lemma gap_coords_gap_width_witness :
  let e := scenario_env false false true 100 100 in
  let p := scenario_popover e GTK_POS_TOP GTK_POPOVER_CONSTRAINT_WINDOW in
  let g := gtk_popover_get_gap_coords e p in
  final_position (priv p) = GTK_POS_TOP /\
  final_x g - initial_x g = TAIL_GAP_WIDTH /\ final_y g = initial_y g.
Proof.
  split; [reflexivity|].
  apply (gap_coords_gap_width
           (scenario_env false false true 100 100)
           (scenario_popover (scenario_env false false true 100 100)
                             GTK_POS_TOP GTK_POPOVER_CONSTRAINT_WINDOW));
    unfold pixel; vm_compute; split; discriminate.
Defined.

Lemma CLAMP_inside : forall x low high,
  low <= x <= high -> CLAMP x low high = x.
Proof.
  intros x low high H. unfold CLAMP.
  destruct (Z.ltb_spec high x); [lia|]. destruct (Z.ltb_spec x low); lia.
Qed.

(** X7: where the border radius is not negative and the midpoint of the
    anchor rectangle lies at least border_radius + 12 from both ends of the popover along the edge, no
    clamp applies: the tip is at the midpoint and the gap ends lie 12 on
    either side of it. *)
Theorem gap_coords_centered :
  forall (e : Env) (p : GtkPopover),
    let rect := gap_rect e p in
    let g := gtk_popover_get_gap_coords e p in
    let radius := border_radius e in
    pixel (rx rect) -> pixel (ry rect) ->
    pixel (rwidth rect) -> pixel (rheight rect) ->
    pixel (popover_width e) -> pixel (popover_height e) ->
    0 <= radius -> pixel radius ->
    match final_position (priv p) with
    | GTK_POS_TOP | GTK_POS_BOTTOM =>
        let mid := rx rect + Z.quot (rwidth rect) 2 in
        radius + 12 <= mid <= popover_width e - radius - 12 ->
        tip_x g = mid /\ initial_x g = mid - 12 /\ final_x g = mid + 12
    | GTK_POS_LEFT | GTK_POS_RIGHT =>
        let mid := ry rect + Z.quot (rheight rect) 2 in
        radius + 12 <= mid <= popover_height e - radius - 12 ->
        tip_y g = mid /\ initial_y g = mid - 12 /\ final_y g = mid + 12
    end.
Proof.
  intros e p rect g radius Hx Hy Hw Hh Hpw Hph Hr0 Hr.
  subst g. unfold gtk_popover_get_gap_coords.
  fold rect. fold radius.
  rewrite effective_vertical.
  set (bt := match get_effective_position e (final_position (priv p)) with
             | GTK_POS_LEFT => _ | _ => _ end).
  destruct bt as [base tip].
  change (GInt.div TAIL_GAP_WIDTH 2) with 12.
  unfold GInt.div.
  assert (Hw2 : pixel (Z.quot (rwidth rect) 2))
    by (unfold pixel in *; Z.to_euclidean_division_equations; lia).
  assert (Hh2 : pixel (Z.quot (rheight rect) 2))
    by (unfold pixel in *; Z.to_euclidean_division_equations; lia).
  set (w2 := Z.quot (rwidth rect) 2) in *.
  set (h2 := Z.quot (rheight rect) 2) in *.
  clearbody w2 h2. clear Hw Hh.
  destruct (final_position (priv p));
    match goal with
    | |- context [POS_IS_VERTICAL ?s] =>
        let b := eval vm_compute in (POS_IS_VERTICAL s) in
        change (POS_IS_VERTICAL s) with b
    end;
    cbv beta iota zeta;
    cbn [initial_x initial_y tip_x tip_y final_x final_y];
    intro Hmid;
    match goal with
    | |- CLAMP ?t _ _ = ?mid /\ _ => replace t with mid by (gint_small; lia)
    end;
    (split; [|split]);
    (rewrite CLAMP_inside; [gint_small; lia | gint_small; lia]).
Qed.

Lemma gap_coords_centered_witness :
  let e := scenario_env false false true 100 100 in
  let p := scenario_popover e GTK_POS_TOP GTK_POPOVER_CONSTRAINT_WINDOW in
  let g := gtk_popover_get_gap_coords e p in
  final_position (priv p) = GTK_POS_TOP /\
  tip_x g = 110 /\ initial_x g = 98 /\ final_x g = 122.
Proof.
  split; [reflexivity|].
  pose proof (gap_coords_centered
                (scenario_env false false true 100 100)
                (scenario_popover (scenario_env false false true 100 100)
                                  GTK_POS_TOP GTK_POPOVER_CONSTRAINT_WINDOW)) as H.
  vm_compute in H. vm_compute.
  apply H; try split; discriminate.
Defined.

(* ------------------------------------------------------------------ *)
(** ** Size negotiation *)

Lemma MAX_spec : forall a b, a <= MAX a b /\ b <= MAX a b /\ (MAX a b = a \/ MAX a b = b).
Proof.
  intros a b. unfold MAX. destruct (Z.ltb_spec b a); lia.
Qed.

Lemma minimal_size_value : forall e radius p o,
  pixel radius ->
  get_minimal_size e radius p o
  = 2 * radius
    + (if match o with
          | GTK_ORIENTATION_HORIZONTAL => POS_IS_VERTICAL (preferred_position (priv p))
          | GTK_ORIENTATION_VERTICAL =>
              negb (POS_IS_VERTICAL (preferred_position (priv p)))
          end
       then TAIL_GAP_WIDTH else 0).
Proof.
  intros e radius p o Hr. unfold get_minimal_size.
  rewrite effective_vertical.
  destruct (match o with
            | GTK_ORIENTATION_HORIZONTAL => _
            | GTK_ORIENTATION_VERTICAL => _
            end); gint_small; lia.
Qed.

(** X8: get_minimal_size is twice the border radius, plus the gap width
    of 24 along exactly one orientation: the horizontal one when the
    preferred side is TOP or BOTTOM, the vertical one when it is LEFT or
    RIGHT.  The text direction makes no difference. *)
Theorem minimal_size_gap_axis :
  forall (e : Env) (radius : Z) (p : GtkPopover),
    pixel radius ->
    let h := get_minimal_size e radius p GTK_ORIENTATION_HORIZONTAL in
    let v := get_minimal_size e radius p GTK_ORIENTATION_VERTICAL in
    match preferred_position (priv p) with
    | GTK_POS_TOP | GTK_POS_BOTTOM =>
        h = 2 * radius + TAIL_GAP_WIDTH /\ v = 2 * radius
    | GTK_POS_LEFT | GTK_POS_RIGHT =>
        h = 2 * radius /\ v = 2 * radius + TAIL_GAP_WIDTH
    end.
Proof.
  intros e radius p Hr h v. subst h v.
  rewrite !minimal_size_value by exact Hr.
  destruct (preferred_position (priv p));
    match goal with
    | |- context [POS_IS_VERTICAL ?s] =>
        let b := eval vm_compute in (POS_IS_VERTICAL s) in
        change (POS_IS_VERTICAL s) with b
    end;
    cbn [negb]; lia.
Qed.

Lemma minimal_size_gap_axis_witness :
  let e := scenario_env true false true 100 100 in
  let p := gtk_popover_set_position e GTK_POS_LEFT (gtk_popover_new e (Some 1%nat)) in
  preferred_position (priv p) = GTK_POS_LEFT /\
  get_minimal_size e 5 p GTK_ORIENTATION_HORIZONTAL = 10 /\
  get_minimal_size e 5 p GTK_ORIENTATION_VERTICAL = 34.
Proof.
  split; [reflexivity|].
  pose proof (minimal_size_gap_axis
                (scenario_env true false true 100 100) 5
                (gtk_popover_set_position (scenario_env true false true 100 100)
                   GTK_POS_LEFT
                   (gtk_popover_new (scenario_env true false true 100 100)
                      (Some 1%nat)))) as H.
  apply H. unfold pixel. lia.
Defined.

(** The value of gtk_popover_measure where no sum overflows. *)
Lemma measure_value :
  forall (e : Env) (radius : Z) (has_child : bool)
         (contents_measure : GtkOrientation -> Z -> Z * Z)
         (p : GtkPopover) (orientation : GtkOrientation) (for_size : Z),
    let c := contents_measure
               orientation (if 0 <=? for_size then for_size - TAIL_HEIGHT
                            else for_size) in
    let minimal_size := get_minimal_size e radius p orientation in
    0 <= radius -> pixel radius -> pixel (fst c) -> pixel (snd c) ->
    GInt.G_MININT <= for_size <= GInt.G_MAXINT ->
    0 <= minimal_size /\
    gtk_popover_measure e radius has_child contents_measure p orientation for_size
    = if has_child
      then (MAX (fst c) minimal_size + TAIL_HEIGHT,
            MAX (snd c) minimal_size + TAIL_HEIGHT)
      else (minimal_size + TAIL_HEIGHT, minimal_size + TAIL_HEIGHT).
Proof.
  intros e radius has_child cm p o for_size c minimal_size Hr0 Hr Hc1 Hc2 Hfs.
  assert (Hmin : 0 <= minimal_size <= 2000000000).
  { subst minimal_size. rewrite minimal_size_value by exact Hr.
    unfold pixel, TAIL_GAP_WIDTH in *.
    match goal with |- context [if ?c then _ else _] => destruct c end; lia. }
  split; [lia|]. clear Hr.
  unfold gtk_popover_measure. fold minimal_size.
  assert (Hfor : (if 0 <=? for_size then GInt.sub for_size TAIL_HEIGHT else for_size)
                 = (if 0 <=? for_size then for_size - TAIL_HEIGHT else for_size)).
  { destruct (Z.leb_spec 0 for_size); [|reflexivity].
    unfold GInt.sub. apply wrap_small.
    unfold GInt.G_MININT, GInt.G_MAXINT, TAIL_HEIGHT in *. lia. }
  rewrite Hfor. fold c.
  destruct has_child.
  - destruct c as [cmin cnat]. cbn [fst snd] in *.
    pose proof (MAX_spec cmin minimal_size). pose proof (MAX_spec cnat minimal_size).
    unfold GInt.add. unfold pixel, TAIL_HEIGHT in *.
    rewrite !wrap_small by (unfold GInt.G_MININT, GInt.G_MAXINT; lia).
    reflexivity.
  - pose proof (MAX_spec 0 minimal_size).
    unfold GInt.add. unfold TAIL_HEIGHT in *.
    rewrite !wrap_small by (unfold GInt.G_MININT, GInt.G_MAXINT; lia).
    replace (MAX 0 minimal_size) with minimal_size
      by (unfold MAX; destruct (Z.ltb_spec minimal_size 0); lia).
    reflexivity.
Qed.

(** X9: gtk_popover_measure asks the contents for a size with
    TAIL_HEIGHT taken off a non-negative for_size (a negative one is
    passed on as it is), and reports a minimum and a natural size that
    are each at least get_minimal_size + TAIL_HEIGHT and, with a child,
    at least what the contents report + TAIL_HEIGHT; the minimum does not
    exceed the natural size when that holds of the contents.  Without a
    child both are exactly get_minimal_size + TAIL_HEIGHT. *)
Theorem measure_reserves_arrow_room :
  forall (e : Env) (radius : Z) (has_child : bool)
         (contents_measure : GtkOrientation -> Z -> Z * Z)
         (p : GtkPopover) (orientation : GtkOrientation) (for_size : Z),
    let m := gtk_popover_measure e radius has_child contents_measure
                                 p orientation for_size in
    let c := contents_measure
               orientation (if 0 <=? for_size then for_size - TAIL_HEIGHT
                            else for_size) in
    let minimal_size := get_minimal_size e radius p orientation in
    0 <= radius -> pixel radius -> pixel (fst c) -> pixel (snd c) ->
    GInt.G_MININT <= for_size <= GInt.G_MAXINT ->
    minimal_size + TAIL_HEIGHT <= fst m /\
    minimal_size + TAIL_HEIGHT <= snd m /\
    (has_child = true ->
     fst c + TAIL_HEIGHT <= fst m /\
     snd c + TAIL_HEIGHT <= snd m /\
     (fst c <= snd c -> fst m <= snd m)) /\
    (has_child = false ->
     fst m = minimal_size + TAIL_HEIGHT /\ snd m = minimal_size + TAIL_HEIGHT).
Proof.
  intros e radius has_child cm p o for_size m c minimal_size Hr0 Hr Hc1 Hc2 Hfs.
  destruct (measure_value e radius has_child cm p o for_size Hr0 Hr Hc1 Hc2 Hfs)
    as [_ Hm].
  fold c minimal_size in Hm. subst m. rewrite Hm.
  pose proof (MAX_spec (fst c) minimal_size).
  pose proof (MAX_spec (snd c) minimal_size).
  destruct has_child; cbn [fst snd]; repeat split; try lia; discriminate.
Qed.

Lemma measure_reserves_arrow_room_witness :
  let e := scenario_env false false true 100 100 in
  let p := gtk_popover_new e (Some 1%nat) in
  let cm := fun (o : GtkOrientation) (for_size : Z) =>
              match o with
              | GTK_ORIENTATION_HORIZONTAL => (20, 180)
              | GTK_ORIENTATION_VERTICAL => (60, 80)
              end in
  gtk_popover_measure e 5 true cm p GTK_ORIENTATION_HORIZONTAL (-1) = (46, 192) /\
  get_minimal_size e 5 p GTK_ORIENTATION_HORIZONTAL + TAIL_HEIGHT
  <= fst (gtk_popover_measure e 5 true cm p GTK_ORIENTATION_HORIZONTAL (-1)).
Proof.
  split; [reflexivity|].
  apply (measure_reserves_arrow_room
           (scenario_env false false true 100 100) 5 true
           (fun (o : GtkOrientation) (for_size : Z) =>
              match o with
              | GTK_ORIENTATION_HORIZONTAL => (20, 180)
              | GTK_ORIENTATION_VERTICAL => (60, 80)
              end)
           (gtk_popover_new (scenario_env false false true 100 100) (Some 1%nat))
           GTK_ORIENTATION_HORIZONTAL (-1));
    unfold pixel; vm_compute; try split; discriminate.
Defined.

(** X10: gtk_popover_size_allocate hands the contents an allocation that
    is TAIL_HEIGHT smaller in each dimension and lies inside the
    allocation of the popover, leaving TAIL_HEIGHT free on the side the
    arrow of the current side sits on (the bottom for TOP, the top for
    BOTTOM, the right for LEFT, the left for RIGHT) and TAIL_HEIGHT / 2 on
    either end of the other axis. *)
Theorem size_allocate_contents_inside :
  forall (e : Env) (allocation : GdkRectangle) (p : GtkPopover),
    let c := fst (gtk_popover_size_allocate e allocation p) in
    let a := allocation in
    pixel (rx a) -> pixel (ry a) -> pixel (rwidth a) -> pixel (rheight a) ->
    rwidth c = rwidth a - TAIL_HEIGHT /\
    rheight c = rheight a - TAIL_HEIGHT /\
    rx a <= rx c /\ rx c + rwidth c <= rx a + rwidth a /\
    ry a <= ry c /\ ry c + rheight c <= ry a + rheight a /\
    match current_position (priv p) with
    | GTK_POS_TOP =>
        (ry a + rheight a) - (ry c + rheight c) = TAIL_HEIGHT /\
        rx c - rx a = 6 /\ (rx a + rwidth a) - (rx c + rwidth c) = 6
    | GTK_POS_BOTTOM =>
        ry c - ry a = TAIL_HEIGHT /\
        rx c - rx a = 6 /\ (rx a + rwidth a) - (rx c + rwidth c) = 6
    | GTK_POS_LEFT =>
        (rx a + rwidth a) - (rx c + rwidth c) = TAIL_HEIGHT /\
        ry c - ry a = 6 /\ (ry a + rheight a) - (ry c + rheight c) = 6
    | GTK_POS_RIGHT =>
        rx c - rx a = TAIL_HEIGHT /\
        ry c - ry a = 6 /\ (ry a + rheight a) - (ry c + rheight c) = 6
    end.
Proof.
  intros e allocation p c a Hx Hy Hw Hh. subst c a.
  unfold gtk_popover_size_allocate. cbv zeta. cbn [fst].
  change (GInt.div TAIL_HEIGHT 2) with 6.
  destruct (current_position (priv p)); cbn [rx ry rwidth rheight];
    gint_small; lia.
Qed.

Lemma size_allocate_contents_inside_witness :
  let e := scenario_env false false true 100 100 in
  let p := gtk_popover_new e (Some 1%nat) in
  let a := {| rx := 300; ry := 88; rwidth := 200; rheight := 112 |} in
  current_position (priv p) = GTK_POS_TOP /\
  fst (gtk_popover_size_allocate e a p)
  = {| rx := 306; ry := 88; rwidth := 188; rheight := 100 |} /\
  rx a <= rx (fst (gtk_popover_size_allocate e a p)).
Proof.
  split; [reflexivity|]. split; [reflexivity|].
  pose proof (size_allocate_contents_inside
                (scenario_env false false true 100 100)
                {| rx := 300; ry := 88; rwidth := 200; rheight := 112 |}
                (gtk_popover_new (scenario_env false false true 100 100)
                   (Some 1%nat))) as H.
  cbv zeta in H.
  destruct H as (_ & _ & H & _); [unfold pixel; cbn; lia ..|exact H].
Defined.

(** X11: measure and size_allocate agree.  If the popover is allocated
    at least the minimum gtk_popover_measure reports in each orientation,
    gtk_popover_size_allocate hands the contents at least the minimum
    they asked for, and at least get_minimal_size, in each
    orientation. *)
Theorem allocation_covers_contents_minimum :
  forall (e : Env) (radius : Z)
         (contents_measure : GtkOrientation -> Z -> Z * Z)
         (p : GtkPopover) (for_size : Z) (allocation : GdkRectangle),
    let measure := gtk_popover_measure e radius true contents_measure p in
    let asked := if 0 <=? for_size then for_size - TAIL_HEIGHT else for_size in
    let ch := contents_measure GTK_ORIENTATION_HORIZONTAL asked in
    let cv := contents_measure GTK_ORIENTATION_VERTICAL asked in
    let c := fst (gtk_popover_size_allocate e allocation p) in
    0 <= radius -> pixel radius ->
    pixel (fst ch) -> pixel (snd ch) -> pixel (fst cv) -> pixel (snd cv) ->
    GInt.G_MININT <= for_size <= GInt.G_MAXINT ->
    pixel (rwidth allocation) -> pixel (rheight allocation) ->
    fst (measure GTK_ORIENTATION_HORIZONTAL for_size) <= rwidth allocation ->
    fst (measure GTK_ORIENTATION_VERTICAL for_size) <= rheight allocation ->
    fst ch <= rwidth c /\
    fst cv <= rheight c /\
    get_minimal_size e radius p GTK_ORIENTATION_HORIZONTAL <= rwidth c /\
    get_minimal_size e radius p GTK_ORIENTATION_VERTICAL <= rheight c.
Proof.
  intros e radius cm p for_size a measure asked ch cv c
         Hr0 Hr Hch1 Hch2 Hcv1 Hcv2 Hfs Hw Hh Hmh Hmv.
  destruct (measure_value e radius true cm p
              GTK_ORIENTATION_HORIZONTAL for_size Hr0 Hr Hch1 Hch2 Hfs)
    as [_ Hh1].
  destruct (measure_value e radius true cm p
              GTK_ORIENTATION_VERTICAL for_size Hr0 Hr Hcv1 Hcv2 Hfs)
    as [_ Hv1].
  fold measure asked in Hh1, Hv1. fold ch in Hh1. fold cv in Hv1.
  rewrite Hh1 in Hmh. rewrite Hv1 in Hmv. cbn [fst] in Hmh, Hmv.
  pose proof (MAX_spec (fst ch) (get_minimal_size e radius p GTK_ORIENTATION_HORIZONTAL)).
  pose proof (MAX_spec (fst cv) (get_minimal_size e radius p GTK_ORIENTATION_VERTICAL)).
  assert (Hc : rwidth c = rwidth a - TAIL_HEIGHT /\ rheight c = rheight a - TAIL_HEIGHT).
  { subst c. unfold gtk_popover_size_allocate. cbv zeta. cbn [fst].
    destruct (current_position (priv p)); cbn [rwidth rheight];
      gint_small; lia. }
  destruct Hc as [Hcw Hchh]. rewrite Hcw, Hchh. lia.
Qed.

Lemma allocation_covers_contents_minimum_witness :
  let e := scenario_env false false true 100 100 in
  let p := gtk_popover_new e (Some 1%nat) in
  let cm := fun (o : GtkOrientation) (for_size : Z) =>
              match o with
              | GTK_ORIENTATION_HORIZONTAL => (150, 180)
              | GTK_ORIENTATION_VERTICAL => (60, 80)
              end in
  let a := {| rx := 300; ry := 88; rwidth := 162; rheight := 72 |} in
  fst (gtk_popover_measure e 5 true cm p GTK_ORIENTATION_HORIZONTAL (-1)) = 162 /\
  fst (gtk_popover_measure e 5 true cm p GTK_ORIENTATION_VERTICAL (-1)) = 72 /\
  150 <= rwidth (fst (gtk_popover_size_allocate e a p)) /\
  60 <= rheight (fst (gtk_popover_size_allocate e a p)).
Proof.
  split; [reflexivity|]. split; [reflexivity|].
  pose proof (allocation_covers_contents_minimum
                (scenario_env false false true 100 100) 5
                (fun (o : GtkOrientation) (for_size : Z) =>
                   match o with
                   | GTK_ORIENTATION_HORIZONTAL => (150, 180)
                   | GTK_ORIENTATION_VERTICAL => (60, 80)
                   end)
                (gtk_popover_new (scenario_env false false true 100 100)
                   (Some 1%nat))
                (-1)
                {| rx := 300; ry := 88; rwidth := 162; rheight := 72 |}) as H.
  cbv zeta in H.
  destruct H as (H1 & H2 & _);
    [unfold pixel; vm_compute; try split; discriminate ..|].
  split; [exact H1|exact H2].
Defined.

(* ------------------------------------------------------------------ *)
(** ** Inside a scrollable *)

(** X12: without a scrollable ancestor _gtk_popover_update_child_visible
    always makes the popover child-visible.  With one, it does so exactly
    when the stored pointing rectangle, moved into the coordinates of the
    parent of the scrollable, has a point in common with the area
    [0, width] x [0, height] of that parent, edges included. *)
Theorem child_visible_iff_rectangles_meet :
  forall (s : ScrollableParent) (p : GtkPopover),
    let rect := translate_rect (translate_to_parent s) (pointing_to (priv p)) in
    let area := {| rx := 0; ry := 0;
                   rwidth := alloc_width (parent_allocation s);
                   rheight := alloc_height (parent_allocation s) |} in
    pixel (rx rect) -> pixel (ry rect) ->
    0 <= rwidth rect -> pixel (rwidth rect) ->
    0 <= rheight rect -> pixel (rheight rect) ->
    0 <= rwidth area -> 0 <= rheight area ->
    (_gtk_popover_update_child_visible (Some s) p = true
     <-> rectangles_meet rect area) /\
    _gtk_popover_update_child_visible None p = true.
Proof.
  intros s p rect area Hx Hy Hw0 Hw Hh0 Hh Haw Hah.
  split; [|reflexivity].
  unfold _gtk_popover_update_child_visible. fold rect.
  subst area. cbn [rx ry rwidth rheight] in *.
  unfold rectangles_meet. cbn [rx ry rwidth rheight].
  replace (GInt.add (rx rect) (rwidth rect)) with (rx rect + rwidth rect)
    by (gint_small; lia).
  replace (GInt.add (ry rect) (rheight rect)) with (ry rect + rheight rect)
    by (gint_small; lia).
  destruct (Z.ltb_spec (rx rect + rwidth rect) 0) as [H1|H1];
    [cbn [orb]; split; [discriminate|intros (x & y & ?); lia]|].
  destruct (Z.ltb_spec (alloc_width (parent_allocation s)) (rx rect)) as [H2|H2];
    [cbn [orb]; split; [discriminate|intros (x & y & ?); lia]|].
  destruct (Z.ltb_spec (ry rect + rheight rect) 0) as [H3|H3];
    [cbn [orb]; split; [discriminate|intros (x & y & ?); lia]|].
  destruct (Z.ltb_spec (alloc_height (parent_allocation s)) (ry rect)) as [H4|H4];
    [cbn [orb]; split; [discriminate|intros (x & y & ?); lia]|].
  cbn [orb]. split; [intros _|reflexivity].
  exists (Z.max (rx rect) 0), (Z.max (ry rect) 0). lia.
Qed.

Lemma child_visible_iff_rectangles_meet_witness :
  let s := {| translate_to_parent := fun x y => (x + 10, y - 50);
              parent_allocation := {| alloc_width := 300; alloc_height := 200 |} |} in
  let e := scenario_env false false true 100 100 in
  let r := {| rx := 0; ry := 30; rwidth := 40; rheight := 20 |} in
  let p := gtk_popover_set_pointing_to e r (gtk_popover_new e (Some 1%nat)) in
  _gtk_popover_update_child_visible (Some s) p = true /\
  rectangles_meet {| rx := 10; ry := -20; rwidth := 40; rheight := 20 |}
                  {| rx := 0; ry := 0; rwidth := 300; rheight := 200 |}.
Proof.
  split; [reflexivity|].
  pose proof (child_visible_iff_rectangles_meet
                {| translate_to_parent := fun x y => (x + 10, y - 50);
                   parent_allocation := {| alloc_width := 300; alloc_height := 200 |} |}
                (gtk_popover_set_pointing_to
                   (scenario_env false false true 100 100)
                   {| rx := 0; ry := 30; rwidth := 40; rheight := 20 |}
                   (gtk_popover_new (scenario_env false false true 100 100)
                      (Some 1%nat)))) as H.
  cbv zeta in H.
  destruct H as ((H & _) & _);
    [unfold pixel; vm_compute; try split; discriminate ..|].
  apply H. reflexivity.
Defined.

(* ------------------------------------------------------------------ *)
(** ** What the state machine leaves alone

    A projection of the private fields that the writers of the state
    machine do not touch keeps its value through every request that is
    not its own setter. *)

Section Kept.

Variable A : Type.
Variable proj : GtkPopoverPrivate -> A.
Variable writes : Request -> bool.

Hypothesis kept_final : forall v q, proj (priv_set_final_position v q) = proj q.
Hypothesis kept_current : forall v q, proj (priv_set_current_position v q) = proj q.
Hypothesis kept_prev_focus : forall v q, proj (priv_set_prev_focus_widget v q) = proj q.
Hypothesis kept_visible : forall v q, proj (priv_set_visible v q) = proj q.
Hypothesis kept_state : forall v q, proj (priv_set_state v q) = proj q.
Hypothesis kept_tick_id : forall v q, proj (priv_set_tick_id v q) = proj q.
Hypothesis kept_tracker : forall v q, proj (priv_set_tracker v q) = proj q.
Hypothesis kept_first_frame :
  forall v q, proj (priv_set_first_frame_skipped v q) = proj q.
Hypothesis kept_diff : forall v q, proj (priv_set_transition_diff v q) = proj q.
Hypothesis kept_preferred :
  forall pos v q, writes (SetPosition pos) = false ->
                  proj (priv_set_preferred_position v q) = proj q.
Hypothesis kept_constraint :
  forall c v q, writes (SetConstrainTo c) = false ->
                proj (priv_set_constraint v q) = proj q.
Hypothesis kept_pointing :
  forall rect v b q, writes (SetPointingTo rect) = false ->
                     proj (priv_set_has_pointing_to b (priv_set_pointing_to v q))
                     = proj q.

Ltac kept :=
  cbn [priv on_priv on_wdg emit];
  repeat first [ rewrite kept_final | rewrite kept_current
               | rewrite kept_prev_focus | rewrite kept_visible
               | rewrite kept_state | rewrite kept_tick_id
               | rewrite kept_tracker | rewrite kept_first_frame
               | rewrite kept_diff ];
  try reflexivity.

Lemma kept_update_position : forall e p,
  proj (priv (gtk_popover_update_position e p)) = proj (priv p).
Proof.
  intros e p. destruct (update_position_shape e p) as (f & c & tr & Heq & _).
  rewrite Heq. kept.
Qed.

Lemma kept_hide : forall e p, proj (priv (gtk_popover_hide e p)) = proj (priv p).
Proof.
  intros e p. destruct (hide_shape e p) as (pf & eff & Heq & _). rewrite Heq. kept.
Qed.

Lemma kept_show : forall e p, proj (priv (gtk_popover_show e p)) = proj (priv p).
Proof.
  intros e p. destruct (show_shape e p) as (pf & f & c & eff & Heq & _).
  rewrite Heq. kept.
Qed.

Lemma kept_hide_internal : forall e p,
  proj (priv (gtk_popover_hide_internal e p)) = proj (priv p).
Proof.
  intros e p. destruct (hide_internal_shape e p) as (pf & eff & Heq & _).
  rewrite Heq. kept.
Qed.

Lemma kept_widget_show : forall e p,
  proj (priv (gtk_widget_show e p)) = proj (priv p).
Proof.
  intros e p. unfold gtk_widget_show.
  destruct (w_visible (wdg p)); [reflexivity|apply kept_show].
Qed.

Lemma kept_widget_hide : forall e p,
  proj (priv (gtk_widget_hide e p)) = proj (priv p).
Proof.
  intros e p. unfold gtk_widget_hide.
  destruct (w_visible (wdg p)); [apply kept_hide|reflexivity].
Qed.

Lemma kept_set_state : forall e st p,
  proj (priv (gtk_popover_set_state e st p)) = proj (priv p).
Proof.
  intros e st p. unfold gtk_popover_set_state, gtk_widget_set_visible. cbv zeta.
  match goal with
  | |- context [on_priv (priv_set_state ?s) p] => generalize s
  end.
  intro s.
  assert (Hstart : proj (priv (gtk_popover_start_transition
                                 (on_priv (priv_set_state s) p))) = proj (priv p)).
  { rewrite start_transition_shape.
    match goal with |- context [if ?c then _ else _] => destruct c end; kept. }
  assert (Hstop : forall v : bool,
             proj (priv (if v
                         then gtk_widget_show e
                                (gtk_popover_stop_transition
                                   (on_priv (priv_set_state s) p))
                         else gtk_widget_hide e
                                (gtk_popover_stop_transition
                                   (on_priv (priv_set_state s) p))))
             = proj (priv p)).
  { intro v. destruct v; [rewrite kept_widget_show|rewrite kept_widget_hide];
      rewrite stop_transition_shape; kept. }
  destruct s; first [exact Hstart | apply Hstop].
Qed.

Lemma kept_show_animate_cb : forall e t p,
  proj (priv (fst (show_animate_cb e t p))) = proj (priv p).
Proof.
  intros e t p. destruct (tick_shape e t p) as (f & c & eff & _ & Heq).
  cbv zeta in Heq. rewrite Heq.
  destruct (Tracker.is_after (tick_tracker t p)); cbn [fst]; [|kept].
  cbn [priv on_priv]. rewrite kept_tick_id.
  destruct (state (priv p));
    [ match goal with
      | |- context [if ?c then _ else _] => destruct c
      end; rewrite ?kept_set_state
    | rewrite kept_widget_hide .. ]; kept.
Qed.

Lemma kept_frame_tick : forall e t p,
  proj (priv (frame_tick e t p)) = proj (priv p).
Proof.
  intros e t p. unfold frame_tick.
  generalize (w_ticks (wdg p)). intro l. revert p.
  induction l as [|id l IH]; intro p; [reflexivity|].
  cbn [fold_left]. rewrite IH. unfold run_tick_callback.
  destruct (existsb _ _); [|reflexivity].
  pose proof (kept_show_animate_cb e t p) as H.
  destruct (show_animate_cb e t p) as [q continue]. cbn [fst] in H.
  destruct continue; exact H.
Qed.

Lemma kept_request : forall p r,
  writes (snd r) = false -> proj (priv (request p r)) = proj (priv p).
Proof.
  intros p [e r] H. unfold request. cbn [fst snd] in *.
  destruct r.
  - unfold gtk_popover_popup, transitions_enabled.
    destruct (state (priv p)); try reflexivity;
      (destruct (enable_animations e);
       [rewrite kept_set_state|]; apply kept_widget_show).
  - unfold gtk_popover_popdown, transitions_enabled.
    destruct (state (priv p)); try reflexivity;
      rewrite kept_hide_internal;
      (destruct (enable_animations e); cbn [negb];
       [apply kept_set_state|apply kept_widget_hide]).
  - apply kept_widget_show.
  - apply kept_widget_hide.
  - apply kept_frame_tick.
  - unfold gtk_popover_set_position. rewrite kept_update_position.
    destruct (position_eqb _ _); [reflexivity|].
    cbn [priv on_priv]. apply (kept_preferred pos). exact H.
  - unfold gtk_popover_set_constrain_to.
    destruct (constraint (priv p)), c; try reflexivity;
      rewrite kept_update_position; cbn [priv on_priv]; apply (kept_constraint _ _ _ H).
  - unfold gtk_popover_set_pointing_to, gtk_popover_update_pointing_to.
    rewrite kept_update_position. cbn [priv on_priv]. apply (kept_pointing rect). exact H.
  - apply kept_update_position.
Qed.

Lemma kept_run : forall reqs p,
  forallb (fun r => negb (writes (snd r))) reqs = true ->
  proj (priv (run reqs p)) = proj (priv p).
Proof.
  induction reqs as [|r reqs IH]; intros p H; [reflexivity|].
  cbn [forallb] in H. apply andb_true_iff in H. destruct H as [Hr Hrest].
  unfold run. cbn [fold_left]. fold (run reqs (request p r)).
  rewrite IH by exact Hrest.
  apply kept_request. apply negb_true_iff. exact Hr.
Qed.

End Kept.

(* ------------------------------------------------------------------ *)
(** ** Settings and their getters *)

(** X13: gtk_popover_get_position returns the side last given to
    gtk_popover_set_position, through any history of other requests
    (popup, popdown, show, hide, frames, the other setters), also when
    the side that was resolved is another one. *)
Theorem position_round_trip :
  forall (reqs : list (Env * Request)) (e : Env) (pos : GtkPositionType)
         (p : GtkPopover),
    forallb (fun r => negb (sets_position (snd r))) reqs = true ->
    gtk_popover_get_position (run reqs (gtk_popover_set_position e pos p)) = pos.
Proof.
  intros reqs e pos p H. unfold gtk_popover_get_position.
  rewrite (kept_run GtkPositionType preferred_position sets_position);
    try reflexivity; try exact H; try discriminate.
  unfold gtk_popover_set_position.
  rewrite (kept_update_position GtkPositionType preferred_position);
    try reflexivity.
  destruct (position_eqb (preferred_position (priv p)) pos) eqn:Heq; [|reflexivity].
  destruct (preferred_position (priv p)), pos; try reflexivity; discriminate Heq.
Qed.

Lemma position_round_trip_witness :
  let e := scenario_env false false true 100 5 in
  let reqs := [(e, Popup); (e, Frame 1000); (e, SetConstrainTo GTK_POPOVER_CONSTRAINT_NONE);
               (e, Popdown); (e, Frame 2000)] in
  let q := run reqs (gtk_popover_set_position e GTK_POS_TOP (gtk_popover_new e (Some 1%nat))) in
  gtk_popover_get_position q = GTK_POS_TOP /\
  final_position (priv q) = GTK_POS_BOTTOM.
Proof.
  split; [|reflexivity].
  apply (position_round_trip
           [(scenario_env false false true 100 5, Popup);
            (scenario_env false false true 100 5, Frame 1000);
            (scenario_env false false true 100 5,
             SetConstrainTo GTK_POPOVER_CONSTRAINT_NONE);
            (scenario_env false false true 100 5, Popdown);
            (scenario_env false false true 100 5, Frame 2000)]
           (scenario_env false false true 100 5) GTK_POS_TOP
           (gtk_popover_new (scenario_env false false true 100 5) (Some 1%nat))).
  reflexivity.
Defined.

(** X14: gtk_popover_get_constrain_to returns the constraint last given
    to gtk_popover_set_constrain_to, through any history of other
    requests. *)
Theorem constrain_to_round_trip :
  forall (reqs : list (Env * Request)) (e : Env) (c : GtkPopoverConstraint)
         (p : GtkPopover),
    forallb (fun r => negb (sets_constraint (snd r))) reqs = true ->
    gtk_popover_get_constrain_to (run reqs (gtk_popover_set_constrain_to e c p)) = c.
Proof.
  intros reqs e c p H. unfold gtk_popover_get_constrain_to.
  rewrite (kept_run GtkPopoverConstraint constraint sets_constraint);
    try reflexivity; try exact H; try discriminate.
  unfold gtk_popover_set_constrain_to.
  destruct (constraint (priv p)) eqn:Hc, c; try exact Hc;
    rewrite (kept_update_position GtkPopoverConstraint constraint);
    reflexivity.
Qed.

Lemma constrain_to_round_trip_witness :
  let e := scenario_env false true true 100 5 in
  let reqs := [(e, Popup); (e, SetPosition GTK_POS_LEFT); (e, Frame 1000)] in
  gtk_popover_get_constrain_to
    (run reqs (gtk_popover_set_constrain_to e GTK_POPOVER_CONSTRAINT_NONE
                 (gtk_popover_new e (Some 1%nat))))
  = GTK_POPOVER_CONSTRAINT_NONE.
Proof.
  apply (constrain_to_round_trip
           [(scenario_env false true true 100 5, Popup);
            (scenario_env false true true 100 5, SetPosition GTK_POS_LEFT);
            (scenario_env false true true 100 5, Frame 1000)]
           (scenario_env false true true 100 5) GTK_POPOVER_CONSTRAINT_NONE
           (gtk_popover_new (scenario_env false true true 100 5) (Some 1%nat))).
  reflexivity.
Defined.

(** X15: gtk_popover_get_relative_to returns the widget last given to
    gtk_popover_set_relative_to, and no request changes the anchor or the
    window of the popover.  When the anchor changes, the window becomes
    the window ancestor of the new anchor, or NULL without anchor. *)
Theorem relative_to_round_trip :
  forall (reqs : list (Env * Request)) (e : Env) (relative_to : option GtkWidget)
         (p : GtkPopover),
    let q := gtk_popover_set_relative_to e relative_to p in
    gtk_popover_get_relative_to (run reqs q) = relative_to /\
    window (priv (run reqs q)) = window (priv q) /\
    (widget (priv p) <> relative_to ->
     window (priv q) = match relative_to with
                       | Some w => ancestor_window e w
                       | None => None
                       end).
Proof.
  intros reqs e relative_to p q.
  assert (Hrun : forall r : GtkPopover,
             widget (priv (run reqs r)) = widget (priv r) /\
             window (priv (run reqs r)) = window (priv r)).
  { intro r. split.
    - apply (kept_run (option GtkWidget) widget (fun _ => false));
        try reflexivity.
      clear. induction reqs; [reflexivity|exact IHreqs].
    - apply (kept_run (option GtkWindow) window (fun _ => false));
        try reflexivity.
      clear. induction reqs; [reflexivity|exact IHreqs]. }
  unfold gtk_popover_get_relative_to.
  destruct (Hrun q) as [Hw Hwin]. rewrite Hw. split; [|split; [exact Hwin|]].
  - subst q. unfold gtk_popover_set_relative_to.
    assert (Hu : widget (priv (gtk_popover_update_relative_to e relative_to p))
                 = relative_to).
    { unfold gtk_popover_update_relative_to.
      destruct (widget (priv p)) as [a|] eqn:Ha, relative_to as [b|];
        try (destruct (Nat.eqb_spec a b); [subst; exact Ha|]);
        try exact Ha;
        unfold popover_unset_prev_focus; fields;
        destruct (prev_focus_widget (priv p)); fields;
        try destruct (ancestor_window e _); reflexivity. }
    destruct relative_to;
      [rewrite (kept_update_position (option GtkWidget) widget)|];
      try reflexivity; exact Hu.
  - intro Hne. subst q. unfold gtk_popover_set_relative_to.
    assert (Hu : window (priv (gtk_popover_update_relative_to e relative_to p))
                 = match relative_to with
                   | Some w => ancestor_window e w
                   | None => None
                   end).
    { unfold gtk_popover_update_relative_to.
      destruct (widget (priv p)) as [a|] eqn:Ha, relative_to as [b|];
        try (destruct (Nat.eqb_spec a b); [subst; contradiction|]);
        try contradiction;
        unfold popover_unset_prev_focus; fields;
        destruct (prev_focus_widget (priv p)); fields; reflexivity. }
    destruct relative_to;
      [rewrite (kept_update_position (option GtkWindow) window)|];
      try reflexivity; exact Hu.
Qed.

Lemma relative_to_round_trip_witness :
  let e := scenario_env false false true 100 100 in
  let p := gtk_popover_new e None in
  let q := gtk_popover_set_relative_to e (Some 4%nat) p in
  gtk_popover_get_relative_to p = None /\
  gtk_popover_get_relative_to
    (run [(e, Popup); (e, Frame 1000); (e, Popdown)] q) = Some 4%nat /\
  window (priv q) = Some 0%nat.
Proof.
  split; [reflexivity|].
  pose proof (relative_to_round_trip
                [(scenario_env false false true 100 100, Popup);
                 (scenario_env false false true 100 100, Frame 1000);
                 (scenario_env false false true 100 100, Popdown)]
                (scenario_env false false true 100 100)
                (Some 4%nat)
                (gtk_popover_new (scenario_env false false true 100 100) None))
    as (H1 & _ & H3).
  split; [exact H1|]. apply H3. discriminate.
Defined.

(** X16: gtk_popover_get_modal returns the value last given to
    gtk_popover_set_modal, which no request changes.  Setting the value
    the popover already has changes nothing.  Otherwise the state, the
    visible flag and the widget are untouched and closed is not emitted;
    nothing at all is emitted on a widget that is not visible, and on a
    visible one with a window the grab is taken (and the focus of the
    window saved) when modality is switched on and released (and the
    saved focus forgotten) when it is switched off. *)
Theorem set_modal_applies_modality :
  forall (reqs : list (Env * Request)) (e : Env) (is_visible m : bool)
         (p : GtkPopover),
    let q := gtk_popover_set_modal e is_visible m p in
    gtk_popover_get_modal q = m /\
    gtk_popover_get_modal (run reqs q) = m /\
    (modal (priv p) = m -> q = p) /\
    state (priv q) = state (priv p) /\
    visible (priv q) = visible (priv p) /\
    wdg q = wdg p /\
    exists effects,
      trace q = trace p ++ effects /\
      closed_count effects = 0%nat /\
      (is_visible = false -> effects = []) /\
      (is_visible = true -> modal (priv p) <> m -> window (priv p) <> None ->
       if m
       then In GrabAdd effects /\ prev_focus_widget (priv q) = window_focus e
       else In GrabRemove effects /\ prev_focus_widget (priv q) = None).
Proof.
  intros reqs e is_visible m p q.
  assert (Hrun : modal (priv (run reqs q)) = modal (priv q)).
  { apply (kept_run bool modal (fun _ => false)); try reflexivity.
    clear. induction reqs; [reflexivity|exact IHreqs]. }
  unfold gtk_popover_get_modal. rewrite Hrun. clear Hrun.
  subst q. unfold gtk_popover_set_modal.
  destruct (Bool.eqb (modal (priv p)) m) eqn:Heq.
  - apply Bool.eqb_prop in Heq.
    repeat split; try assumption; try reflexivity.
    exists []. rewrite app_nil_r.
    repeat split; try reflexivity. intros _ Hne. contradiction.
  - apply Bool.eqb_false_iff in Heq. cbv zeta. fields.
    destruct is_visible.
    + unfold gtk_popover_apply_modality, popover_unset_prev_focus. fields.
      destruct (window (priv p)) as [win|] eqn:Hwin.
      * destruct m; fields.
        -- repeat split; try reflexivity; try contradiction.
           exists [GrabAdd; WindowSetFocusNull; GrabFocusPopover;
                   ConnectWindowHandlers].
           split; [rewrite <- !app_assoc; reflexivity|].
           split; [reflexivity|]. split; [discriminate|].
           intros _ _ _. split; [left; reflexivity|reflexivity].
        -- destruct (prev_focus_widget (priv p)) as [w|] eqn:Hpf;
             [destruct (is_drawable e w); [destruct (is_entry e w)|]|];
             fields; rewrite ?Hpf; cbv iota; fields;
             (repeat split; try reflexivity; try contradiction);
             eexists;
             (split; [rewrite <- !app_assoc; reflexivity|]);
             (split; [reflexivity|]); (split; [discriminate|]);
             intros _ _ _;
             (split; [right; left; reflexivity|rewrite ?Hpf; reflexivity]).
      * repeat split; try reflexivity; try contradiction.
        exists []. rewrite app_nil_r.
        repeat split; try reflexivity. intros _ _ Hw. contradiction.
    + fields. repeat split; try reflexivity; try contradiction.
      exists []. rewrite app_nil_r.
      repeat split; try reflexivity. discriminate.
Qed.

Lemma set_modal_applies_modality_witness :
  let e := scenario_env false false false 100 100 in
  let p := gtk_popover_popup e (gtk_popover_new e (Some 1%nat)) in
  let q := gtk_popover_set_modal e true false p in
  state (priv p) = STATE_SHOWN /\
  prev_focus_widget (priv p) = Some 7%nat /\
  gtk_popover_get_modal q = false /\
  exists effects,
    trace q = trace p ++ effects /\
    In GrabRemove effects /\ prev_focus_widget (priv q) = None.
Proof.
  split; [reflexivity|]. split; [reflexivity|].
  pose proof (set_modal_applies_modality
                [] (scenario_env false false false 100 100) true false
                (gtk_popover_popup (scenario_env false false false 100 100)
                   (gtk_popover_new (scenario_env false false false 100 100)
                      (Some 1%nat))))
    as (H1 & _ & _ & _ & _ & _ & effects & Ht & _ & _ & Hg).
  split; [exact H1|]. exists effects. split; [exact Ht|].
  apply Hg; [reflexivity|discriminate|discriminate].
Defined.

(* ------------------------------------------------------------------ *)
(** ** Modality *)

(** X17: taking modality and releasing it again, on a popover with a
    window, forgets the saved focus and changes no other field.  In
    between, the grab is added, the window focus cleared, the popover
    focused and the window handlers connected; then the handlers are
    disconnected, the grab removed, and the focus goes back to the widget
    that had it when modality was taken - without selecting if it is an
    entry - or to the window if there was none or it is no longer
    drawable. *)
Theorem modality_round_trip :
  forall (e1 e2 : Env) (p : GtkPopover) (win : GtkWindow),
    window (priv p) = Some win ->
    let q := gtk_popover_apply_modality
               e2 false (gtk_popover_apply_modality e1 true p) in
    priv q = priv_set_prev_focus_widget None (priv p) /\
    wdg q = wdg p /\
    trace q
    = trace p
      ++ [GrabAdd; WindowSetFocusNull; GrabFocusPopover; ConnectWindowHandlers;
          DisconnectWindowHandlers; GrabRemove;
          restore_focus e2 (window_focus e1)].
Proof.
  intros e1 e2 p win Hw q. subst q.
  assert (Hin : gtk_popover_apply_modality e1 true p
                = {| priv := priv_set_prev_focus_widget (window_focus e1) (priv p);
                     wdg := wdg p;
                     trace := trace p ++ [GrabAdd; WindowSetFocusNull;
                                          GrabFocusPopover; ConnectWindowHandlers] |}).
  { unfold gtk_popover_apply_modality. rewrite Hw. by_fields. }
  rewrite Hin. clear Hin.
  unfold gtk_popover_apply_modality, popover_unset_prev_focus, restore_focus.
  fields. rewrite Hw.
  destruct (window_focus e1) as [w|];
    [destruct (is_drawable e2 w); [destruct (is_entry e2 w)|]|];
    fields;
    (split; [apply priv_ext; reflexivity|]);
    (split; [reflexivity|]);
    rewrite <- !app_assoc; reflexivity.
Qed.

Lemma modality_round_trip_witness :
  let e := scenario_env false false false 100 100 in
  let p := gtk_popover_new e (Some 1%nat) in
  let q := gtk_popover_apply_modality e false (gtk_popover_apply_modality e true p) in
  window (priv p) = Some 0%nat /\
  priv q = priv_set_prev_focus_widget None (priv p) /\
  In (GrabFocusWidget 7%nat) (trace q).
Proof.
  split; [reflexivity|].
  pose proof (modality_round_trip
                (scenario_env false false false 100 100)
                (scenario_env false false false 100 100)
                (gtk_popover_new (scenario_env false false false 100 100)
                   (Some 1%nat))
                0%nat eq_refl) as (H1 & _ & H3).
  split; [exact H1|]. rewrite H3. apply in_or_app. right.
  do 6 right. left. reflexivity.
Defined.

(* ------------------------------------------------------------------ *)
(** ** The lifecycle state agrees with the widget flags *)

Lemma consistent_same : forall p q,
  state (priv q) = state (priv p) ->
  visible (priv q) = visible (priv p) ->
  w_visible (wdg q) = w_visible (wdg p) ->
  lifecycle_consistent p -> lifecycle_consistent q.
Proof.
  intros p q Hs Hv Hw H. unfold lifecycle_consistent in *.
  rewrite Hs, Hv, Hw. exact H.
Qed.

Lemma consistent_visible_widget : forall p,
  lifecycle_consistent p -> state (priv p) <> STATE_HIDDEN ->
  w_visible (wdg p) = true.
Proof.
  intros p [[_ H] _] Hne. destruct (w_visible (wdg p)); [reflexivity|].
  contradiction Hne. apply H. reflexivity.
Qed.

Lemma consistent_update_position : forall e p,
  lifecycle_consistent p -> lifecycle_consistent (gtk_popover_update_position e p).
Proof.
  intros e p. destruct (update_position_shape e p) as (f & c & tr & Heq & _).
  rewrite Heq. apply consistent_same; reflexivity.
Qed.

Lemma consistent_widget_show : forall e p,
  lifecycle_consistent p -> lifecycle_consistent (gtk_widget_show e p).
Proof.
  intros e p H. unfold gtk_widget_show.
  destruct (w_visible (wdg p)); [exact H|].
  unfold lifecycle_consistent. step_show.
  split; [split; discriminate|reflexivity].
Qed.

Lemma consistent_widget_hide : forall e p,
  lifecycle_consistent p -> lifecycle_consistent (gtk_widget_hide e p).
Proof.
  intros e p H. unfold gtk_widget_hide.
  destruct (w_visible (wdg p)); [|exact H].
  unfold lifecycle_consistent. step_hide.
  split; [split; reflexivity|discriminate].
Qed.

Lemma consistent_hide_internal : forall e p,
  lifecycle_consistent p -> lifecycle_consistent (gtk_popover_hide_internal e p).
Proof.
  intros e p [H1 H2]. unfold lifecycle_consistent. step_hide_internal.
  split; [exact H1|discriminate].
Qed.

Lemma consistent_set_state : forall e st p,
  w_visible (wdg p) = true ->
  lifecycle_consistent (gtk_popover_set_state e st p) /\
  (forall s, state (priv (gtk_popover_set_state e st p)) = s ->
             s <> STATE_HIDDEN ->
             w_visible (wdg (gtk_popover_set_state e st p)) = true).
Proof.
  intros e st p Hwv. unfold gtk_popover_set_state. cbv zeta.
  set (st' := if negb (transitions_enabled e) || negb (w_realized (wdg p))
              then match st with
                   | STATE_SHOWING => STATE_SHOWN
                   | STATE_HIDING => STATE_HIDDEN
                   | _ => st
                   end
              else st).
  clearbody st'.
  assert (Hanim : st' <> STATE_HIDDEN ->
                  let q := gtk_popover_start_transition
                             (on_priv (priv_set_state st') p) in
                  lifecycle_consistent q /\
                  (forall s, state (priv q) = s -> s <> STATE_HIDDEN ->
                             w_visible (wdg q) = true)).
  { intros Hne q. subst q. unfold lifecycle_consistent.
    rewrite start_transition_shape. fields.
    destruct (tick_id (priv p) =? 0); fields; rewrite Hwv;
      (split; [split; [split; [intro; contradiction|discriminate]|reflexivity]
              |reflexivity]). }
  destruct st'.
  - apply Hanim. discriminate.
  - unfold gtk_widget_set_visible, gtk_widget_show. cbn [state_eqb].
    rewrite stop_transition_shape. fields. rewrite Hwv.
    unfold lifecycle_consistent. fields. rewrite Hwv.
    split; [split; [split; discriminate|reflexivity]|reflexivity].
  - apply Hanim. discriminate.
  - unfold gtk_widget_set_visible, gtk_widget_hide. cbn [state_eqb].
    rewrite stop_transition_shape. fields. rewrite Hwv.
    unfold lifecycle_consistent. step_hide.
    split; [split; [split; reflexivity|discriminate]|].
    intros s Hs Hne. subst s. contradiction.
Qed.

Lemma consistent_show_animate_cb : forall e t p,
  lifecycle_consistent p -> lifecycle_consistent (fst (show_animate_cb e t p)).
Proof.
  intros e t p H.
  destruct (tick_shape e t p) as (f & c & eff & Hc & Heq).
  cbv zeta in Heq. rewrite Heq. clear Heq.
  match goal with
  | |- context [gtk_widget_hide e ?x] => set (q := x)
  end.
  assert (Hq : lifecycle_consistent q)
    by (revert H; apply consistent_same; reflexivity).
  destruct (Tracker.is_after (tick_tracker t p)); cbn [fst]; [|exact Hq].
  assert (Htick : forall x, lifecycle_consistent x ->
                            lifecycle_consistent (on_priv (priv_set_tick_id 0) x))
    by (intros x; apply consistent_same; reflexivity).
  apply Htick.
  destruct (state (priv p)) eqn:Hst; try (apply consistent_widget_hide; exact Hq).
  cbv zeta.
  assert (Hwq : w_visible (wdg q) = true).
  { apply consistent_visible_widget; [exact Hq|].
    subst q. fields. rewrite Hst. discriminate. }
  destruct (consistent_set_state e STATE_SHOWN q Hwq) as [Hs1 _].
  assert (Hshown : w_visible (wdg (gtk_popover_set_state e STATE_SHOWN q)) = true)
    by (rewrite set_state_shown; apply widget_show_visible).
  destruct (negb (visible (priv (gtk_popover_set_state e STATE_SHOWN q)))).
  - apply consistent_set_state. exact Hshown.
  - exact Hs1.
Qed.

Lemma consistent_frame_tick : forall e t p,
  lifecycle_consistent p -> lifecycle_consistent (frame_tick e t p).
Proof.
  intros e t p. unfold frame_tick.
  generalize (w_ticks (wdg p)). intro l. revert p.
  induction l as [|id l IH]; intros p H; [exact H|].
  cbn [fold_left]. apply IH. unfold run_tick_callback.
  destruct (existsb _ _); [|exact H].
  pose proof (consistent_show_animate_cb e t p H) as Hq.
  destruct (show_animate_cb e t p) as [q continue]. cbn [fst] in Hq.
  destruct continue; [exact Hq|].
  revert Hq. apply consistent_same; reflexivity.
Qed.

Lemma consistent_popup : forall e p,
  lifecycle_consistent p -> lifecycle_consistent (gtk_popover_popup e p).
Proof.
  intros e p H. unfold gtk_popover_popup.
  assert (Hshow : lifecycle_consistent
                    (if transitions_enabled e
                     then gtk_popover_set_state e STATE_SHOWING (gtk_widget_show e p)
                     else gtk_widget_show e p)).
  { destruct (transitions_enabled e).
    - apply consistent_set_state. apply widget_show_visible.
    - apply consistent_widget_show. exact H. }
  destruct (state (priv p)); first [exact H | exact Hshow].
Qed.

Lemma consistent_popdown : forall e p,
  lifecycle_consistent p -> lifecycle_consistent (gtk_popover_popdown e p).
Proof.
  intros e p H. unfold gtk_popover_popdown.
  assert (Hhide : state (priv p) <> STATE_HIDDEN ->
                  lifecycle_consistent
                    (gtk_popover_hide_internal e
                       (if negb (transitions_enabled e) then gtk_widget_hide e p
                        else gtk_popover_set_state e STATE_HIDING p))).
  { intro Hne. apply consistent_hide_internal.
    destruct (negb (transitions_enabled e)).
    - apply consistent_widget_hide. exact H.
    - apply consistent_set_state. apply consistent_visible_widget; assumption. }
  destruct (state (priv p)) eqn:Hst; try exact H; apply Hhide; discriminate.
Qed.

Lemma consistent_request : forall p r,
  lifecycle_consistent p -> lifecycle_consistent (request p r).
Proof.
  intros p [e r] H. unfold request. cbn [fst snd].
  assert (Hon : forall f q,
             (forall x, state (f x) = state x) ->
             (forall x, visible (f x) = visible x) ->
             lifecycle_consistent q -> lifecycle_consistent (on_priv f q)).
  { intros f q Hf Hv. apply consistent_same; fields;
      [apply Hf|apply Hv|reflexivity]. }
  destruct r.
  - apply consistent_popup. exact H.
  - apply consistent_popdown. exact H.
  - apply consistent_widget_show. exact H.
  - apply consistent_widget_hide. exact H.
  - apply consistent_frame_tick. exact H.
  - unfold gtk_popover_set_position. apply consistent_update_position.
    destruct (position_eqb _ _); [exact H|].
    apply Hon; [reflexivity|reflexivity|exact H].
  - unfold gtk_popover_set_constrain_to.
    destruct (constraint (priv p)), c; try exact H;
      apply consistent_update_position;
      (apply Hon; [reflexivity|reflexivity|exact H]).
  - unfold gtk_popover_set_pointing_to, gtk_popover_update_pointing_to.
    apply consistent_update_position.
    apply Hon; [reflexivity|reflexivity|exact H].
  - apply consistent_update_position. exact H.
Qed.

Lemma consistent_notify : forall p n,
  lifecycle_consistent p -> lifecycle_consistent (notify p n).
Proof.
  intros p [e n] H. unfold notify. cbn [fst snd].
  destruct n.
  - apply consistent_request. exact H.
  - unfold _gtk_popover_parent_unmap.
    destruct (state (priv p)) eqn:Hst; try exact H.
    + destruct H as [H1 H2]. unfold lifecycle_consistent. fields.
      split; [exact H1|discriminate].
    + apply consistent_set_state. apply consistent_visible_widget; [exact H|].
      rewrite Hst. discriminate.
  - unfold gtk_popover_set_modal.
    destruct (Bool.eqb (modal (priv p)) m); [exact H|]. cbv zeta.
    destruct is_visible.
    + destruct (apply_modality_shape e (modal (priv (on_priv (priv_set_modal m) p)))
                  (on_priv (priv_set_modal m) p)) as (pf & eff & Heq & _).
      rewrite Heq. revert H. apply consistent_same; reflexivity.
    + revert H. apply consistent_same; reflexivity.
Qed.

(** X18: in every popover reached from gtk_popover_new by requests of a
    client, unmappings of the anchor and changes of modality, the state is
    HIDDEN exactly when the widget is not visible, and a popover marked
    visible is a visible widget. *)
Theorem lifecycle_consistent_reachable :
  forall (ns : list (Env * Notification)) (e : Env) (relative_to : option GtkWidget),
    lifecycle_consistent (play ns (gtk_popover_new e relative_to)).
Proof.
  intros ns e relative_to.
  assert (Hnew : lifecycle_consistent (gtk_popover_new e relative_to)).
  { unfold gtk_popover_new, gtk_popover_set_relative_to.
    assert (Hrel : lifecycle_consistent
                     (gtk_popover_update_relative_to
                        e relative_to (gtk_popover_init zero_instance))).
    { unfold gtk_popover_update_relative_to, lifecycle_consistent.
      destruct relative_to as [w|];
        [cbn; destruct (ancestor_window e w)|];
        (split; [split; reflexivity|discriminate]). }
    destruct relative_to; [|exact Hrel].
    apply consistent_update_position. exact Hrel. }
  revert Hnew. generalize (gtk_popover_new e relative_to).
  induction ns as [|n ns IH]; intros p H; [exact H|].
  unfold play. cbn [fold_left]. apply IH. apply consistent_notify. exact H.
Qed.

(* ------------------------------------------------------------------ *)
(** ** Without animations *)

(** X19: with animations disabled, popup on a hidden popover at rest
    shows it at once (state SHOWN, no tick callback subscribed, closed not
    emitted), and popdown then hides it at once (state HIDDEN, closed
    emitted once, opacity 1, offset 0); frames change neither. *)
Theorem popup_popdown_without_animations :
  forall (e1 e2 : Env) (p : GtkPopover),
    hidden_idle p ->
    enable_animations e1 = false ->
    enable_animations e2 = false ->
    let shown := gtk_popover_popup e1 p in
    let q := gtk_popover_popdown e2 shown in
    shown_idle shown /\
    closed_count (trace shown) = closed_count (trace p) /\
    hidden_idle q /\
    closed_count (trace q) = S (closed_count (trace p)) /\
    w_opacity (wdg q) = 1%Q /\
    transition_diff (priv q) = 0 /\
    forall frames, run_frames frames shown = shown /\ run_frames frames q = q.
Proof.
  intros e1 e2 p (Hst & Hvis & Hwv & Htick & Hticks & Hlast) Han1 Han2 shown q.
  assert (Hshown : shown_idle shown /\
                   closed_count (trace shown) = closed_count (trace p)).
  { subst shown. unfold gtk_popover_popup, gtk_widget_show, transitions_enabled.
    rewrite Hst, Hwv, Han1. step_show.
    split; [|rewrite closed_count_app, Hc; apply Nat.add_0_r].
    unfold shown_idle. fields. repeat split; assumption. }
  destruct Hshown as [Hs Hcs]. clearbody shown.
  assert (Hq : hidden_idle q /\
               closed_count (trace q) = S (closed_count (trace shown)) /\
               w_opacity (wdg q) = 1%Q /\ transition_diff (priv q) = 0).
  { destruct Hs as (Hst' & Hvis' & Hwv' & Htick' & Hticks' & Hlast').
    subst q. unfold gtk_popover_popdown, gtk_widget_hide, transitions_enabled.
    rewrite Hst', Han2, Hwv'. cbn [negb].
    step_hide. rewrite Hvis' in He. destruct He as (Hc1 & _).
    step_hide_internal. subst eff0.
    rewrite Htick'. change (0 =? 0) with true. cbv iota.
    split; [unfold hidden_idle; fields;
            repeat (split; [first [reflexivity | assumption]|]); lia|].
    split; [rewrite app_nil_r, closed_count_app, Hc1; lia|].
    split; reflexivity. }
  destruct Hq as (Hq & Hcq & Ho & Hd).
  repeat split; try assumption; try apply Hs; try apply Hq.
  - rewrite Hcq, Hcs. reflexivity.
  - apply run_frames_idle. apply Hs.
  - apply run_frames_idle. apply Hq.
Qed.

Lemma popup_popdown_without_animations_witness :
  let e := scenario_env false false false 100 100 in
  let p := gtk_popover_new e (Some 1%nat) in
  let shown := gtk_popover_popup e p in
  let q := gtk_popover_popdown e shown in
  shown_idle shown /\ hidden_idle q /\ closed_count (trace q) = 1%nat.
Proof.
  pose proof (popup_popdown_without_animations
                (scenario_env false false false 100 100)
                (scenario_env false false false 100 100)
                (gtk_popover_new (scenario_env false false false 100 100)
                   (Some 1%nat))) as H.
  cbv zeta in H.
  destruct H as (H1 & _ & H3 & H4 & _).
  - unfold hidden_idle. repeat split. vm_compute. discriminate.
  - reflexivity.
  - reflexivity.
  - split; [exact H1|]. split; [exact H3|exact H4].
Defined.

(* ------------------------------------------------------------------ *)
(** ** Popup while the hide transition plays *)




(* ------------------------------------------------------------------ *)
(** ** The anchor is unmapped *)

(** A frame while the hide transition plays on a popover that is still
    marked visible. *)
Lemma visible_hiding_tick_phase : forall e t b p,
  animating STATE_HIDING true b p ->
  let p' := frame_tick e t p in
  if Tracker.is_after (tick_tracker t p)
  then hidden_idle p' /\ closed_count (trace p') = S (closed_count (trace p))
  else animating STATE_HIDING true (Z.max b t) p' /\
       first_frame_skipped (priv p') = true /\
       tracker (priv p') = tick_tracker t p /\
       closed_count (trace p') = closed_count (trace p).
Proof.
  intros e t b p (Hst & Hvis & Hwv & Hreal & Hid & Hticks & Hlast & Hrun) p'.
  subst p'. rewrite frame_tick_single by exact Hticks.
  destruct (tick_shape e t p) as (f & c & eff & Hc & Heq).
  cbv zeta in Heq. rewrite Heq. clear Heq. rewrite Hst.
  destruct (Tracker.is_after (tick_tracker t p)) eqn:Hafter; cbn [fst snd]; cbv iota.
  - unfold gtk_widget_hide, gtk_widget_remove_tick_callback. fields.
    rewrite Hwv. step_hide. rewrite Hvis in He. destruct He as (Hc1 & _).
    tick_id_nonzero Hid. rewrite Hticks, remove_single.
    split; [|rewrite !closed_count_app, Hc, Hc1; lia].
    unfold hidden_idle. fields.
    repeat (split; [first [reflexivity | assumption]|]). assumption.
  - split; [|split; [reflexivity|split; [reflexivity|]]];
      [|fields; rewrite closed_count_app, Hc; apply Nat.add_0_r].
    unfold animating. fields.
    repeat (split; [first [reflexivity | assumption]|]).
    apply tick_tracker_running. exact Hrun.
Qed.

(** The popover between the unmapping of its anchor and the end of the
    hide transition: still marked visible and closed not emitted yet, or
    hidden with closed emitted once.  [n] counts the closed signals before
    the anchor was unmapped. *)
Lemma visible_hiding_frames : forall frames B n p,
  (animating STATE_HIDING true B p /\ closed_count (trace p) = n) \/
  (hidden_idle p /\ closed_count (trace p) = S n) ->
  Forall (fun f => snd f <= B) frames ->
  (animating STATE_HIDING true B (run_frames frames p) /\
   closed_count (trace (run_frames frames p)) = n) \/
  (hidden_idle (run_frames frames p) /\
   closed_count (trace (run_frames frames p)) = S n).
Proof.
  induction frames as [|[e t] frames IH]; intros B n p Hp Hall; [exact Hp|].
  inversion Hall as [|x l Ht Hrest]. subst. cbn [snd] in Ht.
  unfold run_frames. cbn [fold_left fst snd].
  fold (run_frames frames (frame_tick e t p)).
  apply IH; [|exact Hrest].
  destruct Hp as [[Hanim Hn]|[Hidle Hn]].
  - pose proof (visible_hiding_tick_phase e t B p Hanim) as H. cbv zeta in H.
    destruct (Tracker.is_after (tick_tracker t p)).
    + right. destruct H as [H1 H2]. split; [exact H1|]. rewrite H2, Hn. reflexivity.
    + left. destruct H as (H1 & _ & _ & H4). rewrite Z.max_l in H1 by lia.
      split; [exact H1|]. rewrite H4. exact Hn.
  - right. rewrite frame_tick_idle by apply Hidle. split; assumption.
Qed.

Lemma visible_hiding_completes : forall ea a eb b ec c rest a0 p,
  animating STATE_HIDING true a0 p ->
  a0 <= a -> 0 < a -> a <= b -> b + TRANSITION_DURATION < c ->
  let r := run_frames ((ea, a) :: (eb, b) :: (ec, c) :: rest) p in
  hidden_idle r /\ closed_count (trace r) = S (closed_count (trace p)).
Proof.
  intros ea a eb b ec c rest a0 p Hp Ha0 Ha Hab Hbc r. subst r.
  assert (Hidle : forall fs q n, hidden_idle q -> closed_count (trace q) = n ->
                                 hidden_idle (run_frames fs q) /\
                                 closed_count (trace (run_frames fs q)) = n).
  { intros fs q n Hq Hn. rewrite run_frames_idle; [split; assumption|apply Hq]. }
  apply (animating_weaken _ _ a0 a) in Hp; [|exact Ha0].
  unfold run_frames. cbn [fold_left fst snd].
  fold (run_frames rest
          (frame_tick ec c (frame_tick eb b (frame_tick ea a p)))).
  pose proof (visible_hiding_tick_phase ea a a p Hp) as H1. cbv zeta in H1.
  destruct (Tracker.is_after (tick_tracker a p)).
  { destruct H1 as [H1 C1]. apply Hidle.
    - rewrite (frame_tick_idle eb b (frame_tick ea a p)) by apply H1.
      rewrite (frame_tick_idle ec c (frame_tick ea a p)) by apply H1.
      exact H1.
    - rewrite (frame_tick_idle eb b (frame_tick ea a p)) by apply H1.
      rewrite (frame_tick_idle ec c (frame_tick ea a p)) by apply H1.
      exact C1. }
  destruct H1 as (Hp1 & Hffs1 & Htr1 & C1). rewrite Z.max_id in Hp1.
  set (p1 := frame_tick ea a p) in *.
  pose proof (visible_hiding_tick_phase eb b a p1 Hp1) as H2. cbv zeta in H2.
  assert (Ht2 : tick_tracker b p1 = Tracker.advance_frame (tracker (priv p1)) b)
    by (unfold tick_tracker; rewrite Hffs1; reflexivity).
  destruct (Tracker.is_after (tick_tracker b p1)).
  { destruct H2 as [H2 C2]. apply Hidle.
    - rewrite (frame_tick_idle ec c (frame_tick eb b p1)) by apply H2.
      exact H2.
    - rewrite (frame_tick_idle ec c (frame_tick eb b p1)) by apply H2.
      rewrite C2, C1. reflexivity. }
  destruct H2 as (Hp2 & Hffs2 & Htr2 & C2). rewrite Z.max_r in Hp2 by lia.
  set (p2 := frame_tick eb b p1) in *.
  pose proof (visible_hiding_tick_phase ec c b p2 Hp2) as H3. cbv zeta in H3.
  assert (Hrun1 : tracker_running a (tracker (priv p1))) by apply Hp1.
  assert (Hlast : last_frame_time (tracker (priv p2)) = b).
  { rewrite Htr2, Ht2. apply advance_frame_sets_baseline; [apply Hrun1|].
    destruct Hrun1 as (_ & _ & _ & _ & Hl). lia. }
  assert (Hafter : Tracker.is_after (tick_tracker c p2) = true).
  { unfold tick_tracker. rewrite Hffs2.
    apply (advance_frame_completes b); [apply Hp2|lia|lia]. }
  rewrite Hafter in H3. destruct H3 as [H3 C3].
  apply Hidle; [exact H3|]. rewrite C3, C2, C1. reflexivity.
Qed.

(** X21: when the anchor is unmapped while the popover is shown and at
    rest, a realized popover with animations enabled enters HIDING
    without emitting anything and still marked visible; through any
    frames it is either still in HIDING with closed not emitted, or
    hidden at rest with closed emitted once, which it is once the frame
    clock has moved on by more than the duration (frames at 0 < a <= b and
    c > b + 150 ms).  Without animations, or unrealized, it is hidden at
    once and closed is emitted once. *)
Theorem anchor_unmap_hides_after_transition :
  forall (e : Env) (p : GtkPopover),
    shown_idle p ->
    let q := _gtk_popover_parent_unmap e p in
    (enable_animations e = true -> w_realized (wdg p) = true ->
     state (priv q) = STATE_HIDING /\
     visible (priv q) = true /\
     trace q = trace p /\
     (forall frames,
         let r := run_frames frames q in
         (state (priv r) = STATE_HIDING /\
          closed_count (trace r) = closed_count (trace p)) \/
         (hidden_idle r /\ closed_count (trace r) = S (closed_count (trace p)))) /\
     (forall ea a eb b ec c rest,
         0 < a -> a <= b -> b + TRANSITION_DURATION < c ->
         let r := run_frames ((ea, a) :: (eb, b) :: (ec, c) :: rest) q in
         hidden_idle r /\ closed_count (trace r) = S (closed_count (trace p)))) /\
    (enable_animations e = false \/ w_realized (wdg p) = false ->
     hidden_idle q /\ closed_count (trace q) = S (closed_count (trace p))).
Proof.
  intros e p (Hst & Hvis & Hwv & Htick & Hticks & Hlast) q.
  subst q. unfold _gtk_popover_parent_unmap. rewrite Hst.
  unfold gtk_popover_set_state, transitions_enabled.
  split.
  - intros Han Hreal. rewrite Han, Hreal. cbn [negb orb]. cbv iota. cbv zeta.
    rewrite start_transition_shape. fields. rewrite Htick.
    change (0 =? 0) with true. cbv iota.
    match goal with
    | |- context [run_frames _ ?x] => set (q := x)
    end.
    assert (Hq : animating STATE_HIDING true 0 q).
    { subst q. unfold animating. fields. rewrite Hticks.
      repeat (split; [first [reflexivity | assumption | lia]|]).
      apply start_running. lia. }
    assert (Hcq : closed_count (trace q) = closed_count (trace p)) by reflexivity.
    split; [reflexivity|]. split; [exact Hvis|]. split; [reflexivity|]. split.
    + intros frames.
      destruct (frames_bound frames 0) as (B & HB & Hall).
      destruct (visible_hiding_frames frames B (closed_count (trace p)) q) as [H|H].
      * left. split; [apply (animating_weaken _ _ 0); assumption|exact Hcq].
      * exact Hall.
      * left. split; [apply H|apply H].
      * right. exact H.
    + intros ea a eb b ec c rest Ha Hab Hbc.
      rewrite <- Hcq.
      apply (visible_hiding_completes ea a eb b ec c rest 0); try assumption. lia.
  - intro Hoff.
    assert (Hdeg : negb (enable_animations e) || negb (w_realized (wdg p)) = true).
    { destruct Hoff as [H|H]; rewrite H; cbn [negb orb];
        [reflexivity|apply orb_true_r]. }
    rewrite Hdeg. cbv iota. cbv zeta.
    unfold gtk_widget_set_visible, gtk_widget_hide. cbn [state_eqb].
    rewrite stop_transition_shape. fields. rewrite Hwv.
    step_hide. rewrite Hvis in He. destruct He as (Hc1 & _).
    rewrite Htick. change (0 =? 0) with true. cbv iota.
    split; [|rewrite closed_count_app, Hc1; lia].
    unfold hidden_idle. fields.
    repeat (split; [first [reflexivity | assumption]|]). assumption.
Qed.

Lemma anchor_unmap_hides_after_transition_witness :
  let e := scenario_env false false true 100 100 in
  let p := run_frames [(e, 100); (e, 200); (e, 400000)]
             (gtk_popover_popup e (gtk_popover_new e (Some 1%nat))) in
  let q := _gtk_popover_parent_unmap e p in
  let r := run_frames [(e, 500000); (e, 510000); (e, 700000)] q in
  state (priv p) = STATE_SHOWN /\
  state (priv q) = STATE_HIDING /\
  closed_count (trace q) = 0%nat /\
  hidden_idle r /\ closed_count (trace r) = 1%nat.
Proof.
  split; [reflexivity|].
  pose proof (anchor_unmap_hides_after_transition
                (scenario_env false false true 100 100)
                (run_frames
                   [(scenario_env false false true 100 100, 100);
                    (scenario_env false false true 100 100, 200);
                    (scenario_env false false true 100 100, 400000)]
                   (gtk_popover_popup (scenario_env false false true 100 100)
                      (gtk_popover_new (scenario_env false false true 100 100)
                         (Some 1%nat))))) as H.
  cbv zeta in H.
  destruct H as (H & _).
  - unfold shown_idle. repeat split; try reflexivity. vm_compute. discriminate.
  - destruct (H eq_refl eq_refl) as (H1 & _ & H3 & _ & H5).
    split; [exact H1|]. split; [rewrite H3; reflexivity|].
    apply (H5 (scenario_env false false true 100 100) 500000
              (scenario_env false false true 100 100) 510000
              (scenario_env false false true 100 100) 700000 []).
    + lia.
    + lia.
    + vm_compute. reflexivity.
Defined.

(* ------------------------------------------------------------------ *)
(** ** The closed signal and the visible flag *)

Lemma drops_refl : forall p, drops p p.
Proof.
  intro p. split; [auto|]. unfold closed_on_drop.
  destruct (visible (priv p)); cbn; lia.
Qed.

Lemma drops_trans : forall p q r, drops p q -> drops q r -> drops p r.
Proof.
  intros p q r [H1 C1] [H2 C2]. split; [auto|].
  unfold closed_on_drop in *. rewrite C2, C1.
  destruct (visible (priv p)), (visible (priv q)), (visible (priv r));
    cbn; try lia;
    first [discriminate (H1 eq_refl) | discriminate (H2 eq_refl)].
Qed.

Lemma drops_same : forall p q,
  visible (priv q) = visible (priv p) ->
  closed_count (trace q) = closed_count (trace p) ->
  drops p q.
Proof.
  intros p q Hv Hc. split; [rewrite Hv; auto|].
  unfold closed_on_drop. rewrite Hv, Hc.
  destruct (visible (priv p)); cbn; lia.
Qed.

Lemma drops_hide : forall e p, drops p (gtk_popover_hide e p).
Proof.
  intros e p. unfold drops, closed_on_drop. step_hide.
  split; [discriminate|].
  destruct (visible (priv p)); cbn [andb negb].
  - destruct He as (Hc & _). rewrite closed_count_app, Hc. reflexivity.
  - subst eff. rewrite app_nil_r. lia.
Qed.

Lemma drops_widget_hide : forall e p, drops p (gtk_widget_hide e p).
Proof.
  intros e p. unfold gtk_widget_hide.
  destruct (w_visible (wdg p)); [apply drops_hide|apply drops_refl].
Qed.

Lemma drops_hide_internal : forall e p, drops p (gtk_popover_hide_internal e p).
Proof.
  intros e p. unfold drops, closed_on_drop. step_hide_internal.
  split; [discriminate|].
  destruct (visible (priv p)); cbn [andb negb].
  - destruct He as (Hc & _). rewrite closed_count_app, Hc. reflexivity.
  - subst eff. rewrite app_nil_r. lia.
Qed.

Lemma drops_update_position : forall e p, drops p (gtk_popover_update_position e p).
Proof.
  intros e p. destruct (update_position_shape e p) as (f & c & tr & Heq & Hc).
  rewrite Heq. apply drops_same; [reflexivity|].
  fields. rewrite closed_count_app, Hc. lia.
Qed.

(** gtk_popover_set_state on a visible widget. *)
Lemma drops_set_state : forall e st p,
  w_visible (wdg p) = true ->
  let q := gtk_popover_set_state e st p in
  drops p q /\
  (st = STATE_SHOWING \/ st = STATE_SHOWN ->
   visible (priv q) = visible (priv p) /\
   closed_count (trace q) = closed_count (trace p) /\
   w_visible (wdg q) = true).
Proof.
  intros e st p Hwv q. subst q. unfold gtk_popover_set_state. cbv zeta.
  set (st' := if negb (transitions_enabled e) || negb (w_realized (wdg p))
              then match st with
                   | STATE_SHOWING => STATE_SHOWN
                   | STATE_HIDING => STATE_HIDDEN
                   | _ => st
                   end
              else st).
  assert (Hst' : st = STATE_SHOWING \/ st = STATE_SHOWN ->
                 st' = STATE_SHOWING \/ st' = STATE_SHOWN).
  { subst st'. intros [H|H]; subst st;
      destruct (negb (transitions_enabled e) || negb (w_realized (wdg p))); auto. }
  clearbody st'.
  assert (Hanim : let q := gtk_popover_start_transition
                             (on_priv (priv_set_state st') p) in
                  visible (priv q) = visible (priv p) /\
                  closed_count (trace q) = closed_count (trace p) /\
                  w_visible (wdg q) = true).
  { cbv zeta. rewrite start_transition_shape. fields.
    destruct (tick_id (priv p) =? 0); fields; repeat split; assumption. }
  assert (Hshown : let q := gtk_widget_set_visible
                              e true
                              (gtk_popover_stop_transition
                                 (on_priv (priv_set_state st') p)) in
                   visible (priv q) = visible (priv p) /\
                   closed_count (trace q) = closed_count (trace p) /\
                   w_visible (wdg q) = true).
  { cbv zeta. unfold gtk_widget_set_visible, gtk_widget_show.
    rewrite stop_transition_shape. fields. rewrite Hwv. fields.
    repeat split; assumption. }
  cbv zeta in Hanim, Hshown.
  destruct st'; cbn [state_eqb].
  - destruct Hanim as (Hv & Hc & Hw).
    split; [apply drops_same; assumption|intros _; repeat split; assumption].
  - destruct Hshown as (Hv & Hc & Hw).
    split; [apply drops_same; assumption|intros _; repeat split; assumption].
  - destruct Hanim as (Hv & Hc & Hw).
    split; [apply drops_same; assumption|intros _; repeat split; assumption].
  - split; [|intro H; destruct (Hst' H); discriminate].
    unfold gtk_widget_set_visible.
    apply (drops_trans _ (gtk_popover_stop_transition
                            (on_priv (priv_set_state STATE_HIDDEN) p)));
      [|apply drops_widget_hide].
    rewrite stop_transition_shape. apply drops_same; reflexivity.
Qed.

Lemma drops_show_animate_cb : forall e t p,
  lifecycle_consistent p -> drops p (fst (show_animate_cb e t p)).
Proof.
  intros e t p H.
  destruct (tick_shape e t p) as (f & c & eff & Hc & Heq).
  cbv zeta in Heq. rewrite Heq. clear Heq.
  match goal with
  | |- context [gtk_widget_hide e ?x] => set (q := x)
  end.
  assert (Hq : drops p q).
  { apply drops_same; [reflexivity|].
    subst q. fields. rewrite closed_count_app, Hc. lia. }
  destruct (Tracker.is_after (tick_tracker t p)); cbn [fst]; [|exact Hq].
  assert (Htick : forall x, drops p x -> drops p (on_priv (priv_set_tick_id 0) x)).
  { intros x Hx. apply (drops_trans _ x); [exact Hx|].
    apply drops_same; reflexivity. }
  apply Htick.
  destruct (state (priv p)) eqn:Hst;
    try (apply (drops_trans _ q); [exact Hq|apply drops_widget_hide]).
  cbv zeta.
  assert (Hwq : w_visible (wdg q) = true).
  { subst q. fields. apply consistent_visible_widget; [exact H|].
    rewrite Hst. discriminate. }
  destruct (drops_set_state e STATE_SHOWN q Hwq) as [Hd1 Hs1].
  destruct (Hs1 (or_intror eq_refl)) as (_ & _ & Hw1).
  apply (drops_trans _ q); [exact Hq|].
  destruct (negb (visible (priv (gtk_popover_set_state e STATE_SHOWN q))));
    [|exact Hd1].
  apply (drops_trans _ (gtk_popover_set_state e STATE_SHOWN q)); [exact Hd1|].
  apply drops_set_state. exact Hw1.
Qed.

Lemma drops_frame_tick : forall e t p,
  lifecycle_consistent p -> drops p (frame_tick e t p).
Proof.
  intros e t p. unfold frame_tick.
  generalize (w_ticks (wdg p)). intro l.
  assert (Hgen : forall p0 p, drops p0 p -> lifecycle_consistent p ->
                              drops p0 (fold_left (run_tick_callback e t) l p)).
  { induction l as [|id l IH]; intros p0 q Hd Hq; [exact Hd|].
    cbn [fold_left].
    assert (Hstep : drops q (run_tick_callback e t q id) /\
                    lifecycle_consistent (run_tick_callback e t q id)).
    { unfold run_tick_callback.
      destruct (existsb _ _); [|split; [apply drops_refl|exact Hq]].
      pose proof (drops_show_animate_cb e t q Hq) as Hd'.
      pose proof (consistent_show_animate_cb e t q Hq) as Hc'.
      destruct (show_animate_cb e t q) as [q' continue]. cbn [fst] in Hd', Hc'.
      destruct continue; [split; assumption|].
      split.
      - apply (drops_trans _ q'); [exact Hd'|]. apply drops_same; reflexivity.
      - revert Hc'. apply consistent_same; reflexivity. }
    destruct Hstep as [Hd' Hc'].
    apply IH; [apply (drops_trans _ q); assumption|exact Hc']. }
  intro H. apply Hgen; [apply drops_refl|exact H].
Qed.

(** A request emits closed exactly once if it takes the visible flag
    from set to cleared, and not at all otherwise. *)
Lemma request_closed_on_drop : forall (p : GtkPopover) (r : Env * Request),
  lifecycle_consistent p -> closed_on_drop p (request p r).
Proof.
  intros p [e r] H. unfold request. cbn [fst snd].
  assert (Hshow : forall x, closed_on_drop x (gtk_widget_show e x) /\
                            (w_visible (wdg x) = false ->
                             visible (priv (gtk_widget_show e x)) = true /\
                             closed_count (trace (gtk_widget_show e x))
                             = closed_count (trace x))).
  { intro x. unfold gtk_widget_show, closed_on_drop.
    destruct (w_visible (wdg x)) eqn:Hw.
    - split; [|discriminate]. destruct (visible (priv x)); cbn; lia.
    - step_show. rewrite andb_false_r, closed_count_app, Hc.
      split; [lia|intros _; split; [reflexivity|lia]]. }
  assert (Hon : forall f x,
             (forall y, visible (f y) = visible y) ->
             drops x (on_priv f x))
    by (intros f x Hf; apply drops_same; [apply Hf|reflexivity]).
  destruct r.
  - unfold gtk_popover_popup.
    assert (Hpop : closed_on_drop p
                     (if transitions_enabled e
                      then gtk_popover_set_state e STATE_SHOWING (gtk_widget_show e p)
                      else gtk_widget_show e p)).
    { destruct (transitions_enabled e); [|apply Hshow].
      destruct (drops_set_state e STATE_SHOWING (gtk_widget_show e p)
                  (widget_show_visible e p)) as [_ Hs].
      destruct (Hs (or_introl eq_refl)) as (Hv & Hc & _).
      unfold closed_on_drop. rewrite Hv, Hc. apply Hshow. }
    destruct (state (priv p)); try exact Hpop;
      unfold closed_on_drop; destruct (visible (priv p)); cbn; lia.
  - unfold gtk_popover_popdown.
    assert (Hpop : state (priv p) <> STATE_HIDDEN ->
                   closed_on_drop p
                     (gtk_popover_hide_internal e
                        (if negb (transitions_enabled e) then gtk_widget_hide e p
                         else gtk_popover_set_state e STATE_HIDING p))).
    { intro Hne.
      assert (Hd : drops p (if negb (transitions_enabled e) then gtk_widget_hide e p
                            else gtk_popover_set_state e STATE_HIDING p)).
      { destruct (negb (transitions_enabled e)); [apply drops_widget_hide|].
        apply drops_set_state. apply consistent_visible_widget; assumption. }
      apply (drops_trans _ _ _ Hd). apply drops_hide_internal. }
    destruct (state (priv p)) eqn:Hst;
      try (apply Hpop; discriminate);
      unfold closed_on_drop; destruct (visible (priv p)); cbn; lia.
  - apply Hshow.
  - apply drops_widget_hide.
  - apply drops_frame_tick. exact H.
  - unfold gtk_popover_set_position.
    destruct (position_eqb _ _); [apply drops_update_position|].
    apply (drops_trans _ (on_priv (priv_set_preferred_position pos) p));
      [apply Hon; reflexivity|apply drops_update_position].
  - unfold gtk_popover_set_constrain_to.
    destruct (constraint (priv p)), c; try apply drops_refl;
      match goal with
      | |- context [on_priv ?f p] =>
          apply (drops_trans _ (on_priv f p));
          [apply Hon; reflexivity|apply drops_update_position]
      end.
  - unfold gtk_popover_set_pointing_to, gtk_popover_update_pointing_to.
    match goal with
    | |- context [on_priv ?f p] =>
        apply (drops_trans _ (on_priv f p));
        [apply Hon; reflexivity|apply drops_update_position]
    end.
  - apply drops_update_position.
Qed.

(** X23: on a popover whose state agrees with its flags (X18), every
    request - popup, popdown, show, hide, a frame, a setter - emits
    closed exactly once if it takes the visible flag from set to cleared,
    and not at all otherwise. *)
Theorem closed_when_visible_flag_drops :
  forall (p : GtkPopover) (r : Env * Request),
    lifecycle_consistent p ->
    closed_on_drop p (request p r).
Proof.
  intros p r H. apply request_closed_on_drop. exact H.
Qed.

Lemma closed_when_visible_flag_drops_witness :
  let e := scenario_env false false true 100 100 in
  let p := gtk_popover_popup e (gtk_popover_new e (Some 1%nat)) in
  lifecycle_consistent p /\
  visible (priv p) = true /\
  closed_on_drop p (request p (e, Popdown)) /\
  closed_on_drop (request p (e, Popdown)) (request (request p (e, Popdown)) (e, Hide)).
Proof.
  assert (H1 : lifecycle_consistent
                 (gtk_popover_popup (scenario_env false false true 100 100)
                    (gtk_popover_new (scenario_env false false true 100 100)
                       (Some 1%nat))))
    by (unfold lifecycle_consistent; vm_compute;
        split; [split; discriminate|reflexivity]).
  assert (H2 : lifecycle_consistent
                 (request
                    (gtk_popover_popup (scenario_env false false true 100 100)
                       (gtk_popover_new (scenario_env false false true 100 100)
                          (Some 1%nat)))
                    (scenario_env false false true 100 100, Popdown)))
    by (unfold lifecycle_consistent; vm_compute;
        split; [split; discriminate|discriminate]).
  split; [exact H1|]. split; [vm_compute; reflexivity|]. split.
  - exact (closed_when_visible_flag_drops _ _ H1).
  - exact (closed_when_visible_flag_drops _ _ H2).
Defined.

(* ------------------------------------------------------------------ *)
(** ** Closed once for every way to hide but one *)




(* ------------------------------------------------------------------ *)
(** ** The default widget of the window *)

Lemma widget_eqb_eq : forall a b, widget_eqb a b = true <-> a = b.
Proof.
  intros [x|] [y|]; cbn; split; intro H; try discriminate; try reflexivity.
  - apply Nat.eqb_eq in H. subst. reflexivity.
  - injection H as ->. apply Nat.eqb_refl.
Qed.

(** The popover after gtk_popover_map and some calls of
    gtk_popover_set_default_widget. *)
Lemma mapped_with_defaults : forall can_default e s ws win,
  window (priv (core s)) = Some win ->
  let m := fold_left (fun s w => gtk_popover_set_default_widget can_default w s) ws
                     (Instance.gtk_popover_map e s) in
  window (priv (core m)) = Some win /\
  w_mapped (wdg (core m)) = true /\
  prev_default m = window_default s /\
  window_default m = default_widget m /\
  button_pressed m = button_pressed s.
Proof.
  intros can_default e s ws win Hw.
  assert (Hmap : let m := Instance.gtk_popover_map e s in
                 window (priv (core m)) = Some win /\
                 w_mapped (wdg (core m)) = true /\
                 prev_default m = window_default s /\
                 window_default m = default_widget m /\
                 button_pressed m = button_pressed s).
  { cbv zeta. unfold Instance.gtk_popover_map, gtk_window_get_default_widget,
      gtk_window_set_default, gtk_popover_map. cbv zeta.
    cbn [core set_core set_prev_default default_widget].
    rewrite Hw.
    destruct (update_position_shape e (on_wdg (wdg_set_w_mapped true) (core s)))
      as (f & c & tr & Heq & _).
    rewrite Heq. fields. rewrite Hw.
    cbn [core set_window_default prev_default window_default default_widget
         button_pressed priv wdg]. fields.
    repeat split; first [reflexivity | exact Hw]. }
  cbv zeta in Hmap. revert Hmap.
  generalize (Instance.gtk_popover_map e s). clear Hw.
  induction ws as [|w ws IH]; intros m Hm; [exact Hm|].
  cbn [fold_left]. apply IH.
  destruct Hm as (H1 & H2 & H3 & H4 & H5).
  unfold gtk_popover_set_default_widget.
  destruct (negb _); [repeat split; assumption|].
  destruct (widget_eqb (default_widget m) w); [repeat split; assumption|].
  cbv zeta. cbn [core set_default_widget default_widget]. rewrite H2.
  unfold gtk_window_set_default. cbn [core set_default_widget]. rewrite H1.
  cbn [core set_window_default set_default_widget prev_default window_default
       default_widget button_pressed].
  repeat split; first [assumption | reflexivity].
Qed.

(** X24: gtk_popover_set_default_widget refuses a widget that cannot be
    the default and leaves everything as it is; it stores NULL or a widget
    that can be the default, and on a mapped popover makes it the default
    widget of the window.  While a popover with a window is mapped,
    through any such calls, the default widget of the window is the
    default widget of the popover.  gtk_popover_unmap then gives the
    window back the default widget it had when the popover was mapped and
    forgets it; if the window was given another default widget in the
    meantime, that one is left in place. *)
Theorem default_widget_restored :
  forall (can_default : GtkWidget -> bool) (e : Env) (s : PopoverInstance)
         (ws : list (option GtkWidget)) (win : GtkWindow),
    window (priv (core s)) = Some win ->
    let setter := gtk_popover_set_default_widget can_default in
    let m := fold_left (fun s w => setter w s) ws (Instance.gtk_popover_map e s) in
    window_default m = gtk_popover_get_default_widget m /\
    window_default (Instance.gtk_popover_unmap m) = window_default s /\
    prev_default (Instance.gtk_popover_unmap m) = None /\
    (forall other,
        other <> gtk_popover_get_default_widget m ->
        window_default (Instance.gtk_popover_unmap (set_window_default other m))
        = other) /\
    (forall w : GtkWidget, can_default w = false -> setter (Some w) m = m) /\
    (forall w : option GtkWidget,
        match w with
        | Some x => can_default x = true
        | None => True
        end ->
        gtk_popover_get_default_widget (setter w m) = w /\
        window_default (setter w m) = w).
Proof.
  intros can_default e s ws win Hw setter m.
  destruct (mapped_with_defaults can_default e s ws win Hw)
    as (H1 & H2 & H3 & H4 & _).
  fold setter in H1, H2, H3, H4. fold m in H1, H2, H3, H4.
  unfold gtk_popover_get_default_widget.
  split; [exact H4|].
  unfold Instance.gtk_popover_unmap, gtk_window_get_default_widget,
    gtk_window_set_default.
  cbn [core set_core set_button_pressed set_prev_default set_window_default
       default_widget prev_default window_default priv wdg on_wdg].
  rewrite H1, H4.
  replace (widget_eqb (default_widget m) (default_widget m)) with true
    by (symmetry; apply widget_eqb_eq; reflexivity).
  cbn [core set_core set_button_pressed set_prev_default set_window_default
       default_widget prev_default window_default priv wdg on_wdg].
  split; [exact H3|]. split; [reflexivity|]. split; [|split].
  - intros other Hne.
    destruct (widget_eqb other (default_widget m)) eqn:Heq;
      [apply widget_eqb_eq in Heq; contradiction|].
    reflexivity.
  - intros w Hno. subst setter. unfold gtk_popover_set_default_widget.
    rewrite Hno. reflexivity.
  - intros w Hcan. subst setter. unfold gtk_popover_set_default_widget.
    replace (negb match w with
                  | Some x => can_default x
                  | None => true
                  end) with false
      by (destruct w; [rewrite Hcan|]; reflexivity).
    destruct (widget_eqb (default_widget m) w) eqn:Heq.
    + apply widget_eqb_eq in Heq. rewrite H4. split; exact Heq.
    + cbv zeta. cbn [core set_default_widget default_widget]. rewrite H2.
      unfold gtk_window_set_default. cbn [core set_default_widget]. rewrite H1.
      cbn [set_window_default set_default_widget window_default default_widget].
      split; reflexivity.
Qed.

Lemma default_widget_restored_witness :
  let e := scenario_env false false true 100 100 in
  let can_default := fun w : GtkWidget => Nat.eqb w 6 in
  let s := {| core := gtk_popover_new e (Some 1%nat);
              button_pressed := false;
              default_widget := Some 5%nat;
              prev_default := None;
              window_default := Some 9%nat |} in
  let m := gtk_popover_set_default_widget can_default (Some 7%nat)
             (gtk_popover_set_default_widget can_default (Some 6%nat)
                (Instance.gtk_popover_map e s)) in
  window_default (Instance.gtk_popover_map e s) = Some 5%nat /\
  window_default m = Some 6%nat /\
  window_default (Instance.gtk_popover_unmap m) = Some 9%nat.
Proof.
  split; [vm_compute; reflexivity|].
  pose proof (default_widget_restored
                (fun w : GtkWidget => Nat.eqb w 6)
                (scenario_env false false true 100 100)
                {| core := gtk_popover_new (scenario_env false false true 100 100)
                             (Some 1%nat);
                   button_pressed := false;
                   default_widget := Some 5%nat;
                   prev_default := None;
                   window_default := Some 9%nat |}
                [Some 6%nat; Some 7%nat] 0%nat eq_refl) as H.
  cbv zeta in H. destruct H as (H1 & H2 & _).
  vm_compute in H1. vm_compute in H2. vm_compute.
  split; [exact H1|exact H2].
Defined.

(* ------------------------------------------------------------------ *)
(** ** Button events *)

(** The test on the coordinates of a button release is the geometric
    one, where the sums do not overflow. *)
Lemma outside_child_spec : forall a x y,
  pixel (rx a) -> pixel (ry a) -> pixel (rwidth a) -> pixel (rheight a) ->
  (outside_child a x y = false <-> within_allocation a x y) /\
  (outside_child a x y = true <-> ~ within_allocation a x y).
Proof.
  intros a x y Hx Hy Hw Hh.
  assert (Hiff : outside_child a x y = false <-> within_allocation a x y).
  { unfold outside_child, within_allocation.
    replace (GInt.add (rx a) (rwidth a)) with (rx a + rwidth a)
      by (gint_small; lia).
    replace (GInt.add (ry a) (rheight a)) with (ry a + rheight a)
      by (gint_small; lia).
    rewrite !orb_false_iff, !negb_false_iff, !Qle_bool_iff. tauto. }
  split; [exact Hiff|].
  destruct (outside_child a x y); split; intro H.
  - intro Hin. apply Hiff in Hin. discriminate.
  - reflexivity.
  - discriminate.
  - exfalso. apply H. apply Hiff. reflexivity.
Qed.

(** X25: on a popover with a child, gtk_popover_event lets every event
    propagate.  A button press only sets button_pressed.  A button
    release pops the popover down exactly if a press was seen before,
    the event has coordinates and they lie outside the allocation of the
    child, edges counting as inside; otherwise it changes nothing.  Any
    other event changes nothing.  A release on a popover that was
    unmapped since the last press does nothing.  Without a child the
    handler reads the allocation of NULL exactly on a release with
    coordinates after a press. *)
Theorem click_outside_dismisses :
  forall (popdown : PopoverInstance -> PopoverInstance)
         (child_alloc : GdkRectangle) (event : GdkEvent) (s : PopoverInstance),
    pixel (rx child_alloc) -> pixel (ry child_alloc) ->
    pixel (rwidth child_alloc) -> pixel (rheight child_alloc) ->
    let handle := gtk_popover_event popdown (Some child_alloc) in
    (exists s', handle event s = Some (s', GDK_EVENT_PROPAGATE)) /\
    match event_type event with
    | GDK_BUTTON_PRESS =>
        handle event s = Some (set_button_pressed true s, GDK_EVENT_PROPAGATE)
    | GDK_BUTTON_RELEASE =>
        match event_coords event with
        | Some (x, y) =>
            (button_pressed s = true -> ~ within_allocation child_alloc x y ->
             handle event s = Some (popdown s, GDK_EVENT_PROPAGATE)) /\
            (button_pressed s = true -> within_allocation child_alloc x y ->
             handle event s = Some (s, GDK_EVENT_PROPAGATE)) /\
            (button_pressed s = false ->
             handle event s = Some (s, GDK_EVENT_PROPAGATE))
        | None => handle event s = Some (s, GDK_EVENT_PROPAGATE)
        end
    | GDK_OTHER_EVENT => handle event s = Some (s, GDK_EVENT_PROPAGATE)
    end /\
    (event_type event = GDK_BUTTON_RELEASE ->
     handle event (Instance.gtk_popover_unmap s)
     = Some (Instance.gtk_popover_unmap s, GDK_EVENT_PROPAGATE)) /\
    (gtk_popover_event popdown None event s = None <->
     event_type event = GDK_BUTTON_RELEASE /\
     button_pressed s = true /\
     event_coords event <> None).
Proof.
  intros popdown a event s Hx Hy Hw Hh handle. subst handle.
  assert (Hunmap : button_pressed (Instance.gtk_popover_unmap s) = false).
  { unfold Instance.gtk_popover_unmap. cbv zeta.
    cbn [button_pressed set_prev_default].
    destruct (widget_eqb _ _); [|reflexivity].
    unfold gtk_window_set_default.
    destruct (window _); reflexivity. }
  unfold gtk_popover_event. rewrite Hunmap. cbn [negb].
  destruct event as [ty coords]. cbn [event_type event_coords].
  destruct ty.
  - split; [eexists; reflexivity|]. split; [reflexivity|].
    split; [discriminate|].
    split; [discriminate|intros (H & _); discriminate].
  - destruct coords as [[x y]|].
    + destruct (outside_child_spec a x y Hx Hy Hw Hh) as [Hin Hout].
      destruct (button_pressed s) eqn:Hb; cbn [negb].
      * split; [destruct (outside_child a x y); eexists; reflexivity|].
        split; [|split; [intros _; reflexivity|]].
        -- split; [|split; [|discriminate]].
           ++ intros _ Hno. apply Hout in Hno. rewrite Hno. reflexivity.
           ++ intros _ Hyes. apply Hin in Hyes. rewrite Hyes. reflexivity.
        -- split; [intros _; repeat split; discriminate|reflexivity].
      * split; [eexists; reflexivity|].
        split; [|split; [intros _; reflexivity|]].
        -- split; [discriminate|]. split; [discriminate|reflexivity].
        -- split; [discriminate|intros (_ & H & _); discriminate].
    + destruct (button_pressed s); cbn [negb];
        (split; [eexists; reflexivity|]);
        (split; [reflexivity|]);
        (split; [intros _; reflexivity|]);
        (split; [discriminate|intros (_ & _ & H); contradiction]).
  - split; [eexists; reflexivity|]. split; [reflexivity|].
    split; [discriminate|].
    split; [discriminate|intros (H & _); discriminate].
Qed.

Lemma click_outside_dismisses_witness :
  let a := {| rx := 6; ry := 0; rwidth := 188; rheight := 100 |} in
  let s := {| core := zero_instance; button_pressed := true;
              default_widget := None; prev_default := None;
              window_default := None |} in
  let popdown := set_default_widget (Some 3%nat) in
  let release (x y : Z) :=
    {| event_type := GDK_BUTTON_RELEASE;
       event_coords := Some (inject_Z x, inject_Z y) |} in
  gtk_popover_event popdown (Some a) (release 194 100) s
  = Some (s, GDK_EVENT_PROPAGATE) /\
  gtk_popover_event popdown (Some a) (release 195 100) s
  = Some (popdown s, GDK_EVENT_PROPAGATE).
Proof.
  pose proof (click_outside_dismisses
                (set_default_widget (Some 3%nat))
                {| rx := 6; ry := 0; rwidth := 188; rheight := 100 |}
                {| event_type := GDK_BUTTON_RELEASE;
                   event_coords := Some (inject_Z 194, inject_Z 100) |}
                {| core := zero_instance; button_pressed := true;
                   default_widget := None; prev_default := None;
                   window_default := None |}) as H1.
  pose proof (click_outside_dismisses
                (set_default_widget (Some 3%nat))
                {| rx := 6; ry := 0; rwidth := 188; rheight := 100 |}
                {| event_type := GDK_BUTTON_RELEASE;
                   event_coords := Some (inject_Z 195, inject_Z 100) |}
                {| core := zero_instance; button_pressed := true;
                   default_widget := None; prev_default := None;
                   window_default := None |}) as H2.
  cbv zeta in H1, H2. cbn [event_type event_coords] in H1, H2.
  destruct H1 as (_ & (_ & Hin & _) & _);
    try (unfold pixel; vm_compute; split; discriminate).
  destruct H2 as (_ & (Hout & _) & _);
    try (unfold pixel; vm_compute; split; discriminate).
  split.
  - apply Hin; [reflexivity|].
    unfold within_allocation, Qle. vm_compute. repeat split; discriminate.
  - apply Hout; [reflexivity|].
    unfold within_allocation, Qle. vm_compute.
    intros [[_ H] _]. apply H. reflexivity.
Defined.

(* ------------------------------------------------------------------ *)
(** ** The anchor is unmapped while the show transition plays *)

Lemma remove_other : forall id x : Z, id <> x -> remove Z.eq_dec id [x] = [x].
Proof.
  intros id x H. cbn. destruct (Z.eq_dec id x); [contradiction|reflexivity].
Qed.

Lemma cancelled_tick_phase : forall e t b p,
  cancelled_showing b p ->
  let p' := frame_tick e t p in
  closed_count (trace p') = closed_count (trace p) /\
  if Tracker.is_after (tick_tracker t p)
  then orphan_hiding (Z.max b t) p' \/ hidden_idle p'
  else cancelled_showing (Z.max b t) p' /\
       first_frame_skipped (priv p') = true /\
       tracker (priv p') = tick_tracker t p.
Proof.
  intros e t b p
         ((Hst & Hvis & Hwv & Hreal & Hid & Hticks & Hlast & Hrun) & Hle & Hb) p'.
  subst p'. rewrite frame_tick_single by exact Hticks.
  destruct (tick_shape e t p) as (f & c & eff & Hc & Heq).
  cbv zeta in Heq. rewrite Heq. clear Heq. rewrite Hst.
  destruct (Tracker.is_after (tick_tracker t p)) eqn:Hafter; cbn [fst snd]; cbv iota.
  - cbv zeta. rewrite set_state_shown, stop_transition_shape.
    unfold gtk_widget_show, gtk_widget_remove_tick_callback. fields.
    rewrite Hwv. fields. rewrite Hvis. cbn [negb]. cbv iota.
    tick_id_nonzero Hid. rewrite Hticks, remove_single.
    unfold gtk_popover_set_state, transitions_enabled. fields. rewrite Hreal.
    destruct (enable_animations e); cbn [negb orb]; cbv iota; cbv zeta.
    + rewrite start_transition_shape. fields.
      change (0 =? 0) with true. cbv iota. fields.
      split; [rewrite closed_count_app, Hc; apply Nat.add_0_r|].
      left. unfold orphan_hiding. fields. cbn [app].
      rewrite remove_other by lia.
      repeat (split; [first [reflexivity | assumption | lia]|]).
      split; [exists (w_last_tick_id (wdg p) + 1); split; [lia|reflexivity]|].
      split; [lia|]. apply start_running. lia.
    + unfold gtk_widget_set_visible, gtk_widget_hide. cbn [state_eqb].
      rewrite stop_transition_shape. fields. rewrite Hwv.
      step_hide. rewrite Hvis in He. subst eff0.
      change (0 =? 0) with true. cbv iota. cbn [remove].
      split; [rewrite app_nil_r, closed_count_app, Hc; apply Nat.add_0_r|].
      right. unfold hidden_idle. fields.
      repeat (split; [first [reflexivity | assumption]|]). assumption.
  - split; [fields; rewrite closed_count_app, Hc; apply Nat.add_0_r|].
    split; [|split; reflexivity].
    split; [|split; [exact Hle|lia]].
    unfold animating. fields.
    repeat (split; [first [reflexivity | assumption]|]).
    apply tick_tracker_running. exact Hrun.
Qed.

Lemma orphan_tick_phase : forall e t b p,
  orphan_hiding b p ->
  let p' := frame_tick e t p in
  closed_count (trace p') = closed_count (trace p) /\
  if Tracker.is_after (tick_tracker t p) then hidden_idle p'
  else orphan_hiding (Z.max b t) p' /\
       first_frame_skipped (priv p') = true /\
       tracker (priv p') = tick_tracker t p.
Proof.
  intros e t b p
         (Hst & Hvis & Hwv & Hreal & Htick & (id & Hid & Hticks) & Hlast & Hrun) p'.
  subst p'. unfold frame_tick. rewrite Hticks. cbn [fold_left].
  unfold run_tick_callback. rewrite Hticks. cbn [existsb].
  rewrite Z.eqb_refl. cbn [orb].
  destruct (tick_shape e t p) as (f & c & eff & Hc & Heq).
  cbv zeta in Heq. rewrite Heq. clear Heq. rewrite Hst.
  destruct (Tracker.is_after (tick_tracker t p)) eqn:Hafter; cbv iota.
  - unfold gtk_widget_hide, gtk_widget_remove_tick_callback. fields.
    rewrite Hwv. step_hide. rewrite Hvis in He. subst eff0.
    rewrite Htick. change (0 =? 0) with true. cbv iota.
    split; [rewrite app_nil_r, closed_count_app, Hc; apply Nat.add_0_r|].
    unfold hidden_idle. fields. rewrite Hticks, remove_single.
    repeat (split; [first [reflexivity | assumption]|]). assumption.
  - split; [fields; rewrite closed_count_app, Hc; apply Nat.add_0_r|].
    split; [|split; reflexivity].
    unfold orphan_hiding. fields.
    repeat (split; [first [reflexivity | assumption]|]).
    split; [exists id; split; assumption|].
    split; [assumption|]. apply tick_tracker_running. exact Hrun.
Qed.

Lemma orphan_weaken : forall b b' p,
  orphan_hiding b p -> b <= b' -> orphan_hiding b' p.
Proof.
  intros b b' p (H1 & H2 & H3 & H4 & H5 & H6 & H7 & H8) Hb.
  repeat (split; [assumption|]).
  apply (tracker_running_weaken b); assumption.
Qed.

Lemma frames_orphan : forall frames B p,
  orphan_hiding B p \/ hidden_idle p ->
  Forall (fun f => snd f <= B) frames ->
  (orphan_hiding B (run_frames frames p) \/ hidden_idle (run_frames frames p)) /\
  closed_count (trace (run_frames frames p)) = closed_count (trace p).
Proof.
  induction frames as [|[e t] frames IH]; intros B p Hp Hall.
  - split; [exact Hp|reflexivity].
  - inversion Hall as [|x l Ht Hrest]. subst. cbn [snd] in Ht.
    unfold run_frames. cbn [fold_left fst snd].
    fold (run_frames frames (frame_tick e t p)).
    destruct Hp as [Ho|Hidle].
    + pose proof (orphan_tick_phase e t B p Ho) as [Hcount Hphase].
      cbv zeta in Hcount, Hphase.
      assert (Hnext : orphan_hiding B (frame_tick e t p)
                      \/ hidden_idle (frame_tick e t p)).
      { destruct (Tracker.is_after (tick_tracker t p)).
        - right. exact Hphase.
        - left. destruct Hphase as [Ha _]. rewrite Z.max_l in Ha by lia. exact Ha. }
      destruct (IH B _ Hnext Hrest) as [H1 H2].
      split; [exact H1|]. rewrite H2. exact Hcount.
    + rewrite frame_tick_idle by apply Hidle.
      apply IH; [right; exact Hidle|exact Hrest].
Qed.

Lemma frames_after_cancel : forall frames B p,
  after_cancel B p ->
  Forall (fun f => snd f <= B) frames ->
  after_cancel B (run_frames frames p) /\
  closed_count (trace (run_frames frames p)) = closed_count (trace p).
Proof.
  induction frames as [|[e t] frames IH]; intros B p Hp Hall.
  - split; [exact Hp|reflexivity].
  - inversion Hall as [|x l Ht Hrest]. subst. cbn [snd] in Ht.
    destruct Hp as [Hc|Hp].
    + unfold run_frames. cbn [fold_left fst snd].
      fold (run_frames frames (frame_tick e t p)).
      pose proof (cancelled_tick_phase e t B p Hc) as [Hcount Hphase].
      cbv zeta in Hcount, Hphase.
      assert (Hnext : after_cancel B (frame_tick e t p)).
      { destruct (Tracker.is_after (tick_tracker t p)).
        - right. destruct Hphase as [Ho|Hi]; [left|right; exact Hi].
          rewrite Z.max_l in Ho by lia. exact Ho.
        - left. destruct Hphase as [Ha _]. rewrite Z.max_l in Ha by lia. exact Ha. }
      destruct (IH B _ Hnext Hrest) as [H1 H2].
      split; [exact H1|]. rewrite H2. exact Hcount.
    + destruct (frames_orphan ((e, t) :: frames) B p Hp Hall) as [H1 H2].
      split; [right; exact H1|exact H2].
Qed.

(** Three frames of a clock that moves on, the last more than one
    duration after the second, end the transition of an orphan. *)
Lemma orphan_completes : forall ea a eb b ec c rest a0 p,
  orphan_hiding a0 p \/ hidden_idle p ->
  a0 <= a -> 0 < a -> a <= b -> b + TRANSITION_DURATION < c ->
  hidden_idle (run_frames ((ea, a) :: (eb, b) :: (ec, c) :: rest) p).
Proof.
  intros ea a eb b ec c rest a0 p Hp Ha0 Ha Hab Hbc.
  assert (Hidle : forall fs q, hidden_idle q -> hidden_idle (run_frames fs q)).
  { intros fs q Hq. rewrite run_frames_idle; [exact Hq|apply Hq]. }
  destruct Hp as [Hp|Hp]; [|apply Hidle; exact Hp].
  apply (orphan_weaken a0 a) in Hp; [|exact Ha0].
  unfold run_frames. cbn [fold_left fst snd].
  fold (run_frames rest
          (frame_tick ec c (frame_tick eb b (frame_tick ea a p)))).
  pose proof (orphan_tick_phase ea a a p Hp) as [_ H1]. cbv zeta in H1.
  destruct (Tracker.is_after (tick_tracker a p)).
  { apply Hidle.
    rewrite (frame_tick_idle eb b (frame_tick ea a p)) by apply H1.
    rewrite (frame_tick_idle ec c (frame_tick ea a p)) by apply H1.
    exact H1. }
  destruct H1 as (Hp1 & Hffs1 & Htr1). rewrite Z.max_id in Hp1.
  set (p1 := frame_tick ea a p) in *.
  pose proof (orphan_tick_phase eb b a p1 Hp1) as [_ H2]. cbv zeta in H2.
  assert (Ht2 : tick_tracker b p1 = Tracker.advance_frame (tracker (priv p1)) b)
    by (unfold tick_tracker; rewrite Hffs1; reflexivity).
  destruct (Tracker.is_after (tick_tracker b p1)).
  { apply Hidle.
    rewrite (frame_tick_idle ec c (frame_tick eb b p1)) by apply H2.
    exact H2. }
  destruct H2 as (Hp2 & Hffs2 & Htr2). rewrite Z.max_r in Hp2 by lia.
  set (p2 := frame_tick eb b p1) in *.
  pose proof (orphan_tick_phase ec c b p2 Hp2) as [_ H3]. cbv zeta in H3.
  assert (Hrun1 : tracker_running a (tracker (priv p1))) by apply Hp1.
  assert (Hlast : last_frame_time (tracker (priv p2)) = b).
  { rewrite Htr2, Ht2. apply advance_frame_sets_baseline; [apply Hrun1|].
    destruct Hrun1 as (_ & _ & _ & _ & Hl). lia. }
  assert (Hafter : Tracker.is_after (tick_tracker c p2) = true).
  { unfold tick_tracker. rewrite Hffs2.
    apply (advance_frame_completes b); [apply Hp2|lia|lia]. }
  rewrite Hafter in H3. apply Hidle. exact H3.
Qed.

Lemma cancelled_weaken : forall b b' p,
  cancelled_showing b p -> b <= b' -> cancelled_showing b' p.
Proof.
  intros b b' p (H1 & H2 & H3) Hb.
  split; [apply (animating_weaken _ _ b); assumption|]. split; [exact H2|lia].
Qed.

(** The same three frames end a show transition that was cancelled. *)
Lemma cancelled_completes : forall ea a eb b ec c a0 p,
  cancelled_showing a0 p ->
  a0 <= a -> 0 < a -> a <= b -> b + TRANSITION_DURATION < c ->
  let r := run_frames [(ea, a); (eb, b); (ec, c)] p in
  orphan_hiding c r \/ hidden_idle r.
Proof.
  intros ea a eb b ec c a0 p Hp Ha0 Ha Hab Hbc r. subst r.
  assert (Hbc' : b < c) by (unfold TRANSITION_DURATION in Hbc; lia).
  apply (cancelled_weaken a0 a) in Hp; [|exact Ha0].
  unfold run_frames. cbn [fold_left fst snd].
  pose proof (cancelled_tick_phase ea a a p Hp) as [_ H1]. cbv zeta in H1.
  destruct (Tracker.is_after (tick_tracker a p)).
  { rewrite Z.max_id in H1.
    assert (H1' : orphan_hiding c (frame_tick ea a p)
                  \/ hidden_idle (frame_tick ea a p)).
    { destruct H1 as [H1|H1]; [left|right; exact H1].
      apply (orphan_weaken a); [exact H1|lia]. }
    destruct (frames_orphan [(eb, b); (ec, c)] c _ H1') as [H _].
    - repeat constructor; cbn [snd]; lia.
    - exact H. }
  destruct H1 as (Hp1 & Hffs1 & Htr1). rewrite Z.max_id in Hp1.
  set (p1 := frame_tick ea a p) in *.
  pose proof (cancelled_tick_phase eb b a p1 Hp1) as [_ H2]. cbv zeta in H2.
  assert (Ht2 : tick_tracker b p1 = Tracker.advance_frame (tracker (priv p1)) b)
    by (unfold tick_tracker; rewrite Hffs1; reflexivity).
  destruct (Tracker.is_after (tick_tracker b p1)).
  { rewrite Z.max_r in H2 by lia.
    assert (H2' : orphan_hiding c (frame_tick eb b p1)
                  \/ hidden_idle (frame_tick eb b p1)).
    { destruct H2 as [H2|H2]; [left|right; exact H2].
      apply (orphan_weaken b); [exact H2|lia]. }
    destruct (frames_orphan [(ec, c)] c _ H2') as [H _].
    - repeat constructor; cbn [snd]; lia.
    - exact H. }
  destruct H2 as (Hp2 & Hffs2 & Htr2). rewrite Z.max_r in Hp2 by lia.
  set (p2 := frame_tick eb b p1) in *.
  pose proof (cancelled_tick_phase ec c b p2 Hp2) as [_ H3]. cbv zeta in H3.
  assert (Hrun1 : tracker_running a (tracker (priv p1))) by apply Hp1.
  assert (Hlast : last_frame_time (tracker (priv p2)) = b).
  { rewrite Htr2, Ht2. apply advance_frame_sets_baseline; [apply Hrun1|].
    destruct Hrun1 as (_ & _ & _ & _ & Hl). lia. }
  assert (Hafter : Tracker.is_after (tick_tracker c p2) = true).
  { unfold tick_tracker. rewrite Hffs2.
    apply (advance_frame_completes b); [apply Hp2|lia|lia]. }
  rewrite Hafter in H3. rewrite Z.max_r in H3 by lia. exact H3.
Qed.

(** X22: when the anchor is unmapped while the show transition plays on
    a popover marked visible, the handler only clears the visible flag.
    Through any frames that follow, closed is never emitted, the flag
    stays cleared and the state is never SHOWN at the end of a frame.
    Once the frame clock has moved on by more than the duration the show
    transition is over (state HIDING or HIDDEN), and a popover found in
    HIDING is hidden and at rest after it has moved on by more than the
    duration once more. *)
Theorem anchor_unmap_while_showing :
  forall (e : Env) (b : Z) (p : GtkPopover),
    animating STATE_SHOWING true b p ->
    tick_id (priv p) <= w_last_tick_id (wdg p) ->
    0 <= b ->
    let q := _gtk_popover_parent_unmap e p in
    q = on_priv (priv_set_visible false) p /\
    (forall frames,
        let r := run_frames frames q in
        closed_count (trace r) = closed_count (trace p) /\
        state (priv r) <> STATE_SHOWN /\
        visible (priv r) = false) /\
    (forall ea a eb b' ec c rest,
        b <= a -> 0 < a -> a <= b' -> b' + TRANSITION_DURATION < c ->
        let r := run_frames ((ea, a) :: (eb, b') :: (ec, c) :: rest) q in
        state (priv r) = STATE_HIDING \/ state (priv r) = STATE_HIDDEN) /\
    (forall frames ea a eb b' ec c rest,
        state (priv (run_frames frames q)) = STATE_HIDING ->
        Forall (fun f => snd f <= a) frames ->
        b <= a -> 0 < a -> a <= b' -> b' + TRANSITION_DURATION < c ->
        hidden_idle
          (run_frames (frames ++ (ea, a) :: (eb, b') :: (ec, c) :: rest) q)).
Proof.
  intros e b p Hp Hle Hb q.
  assert (Hq : q = on_priv (priv_set_visible false) p).
  { subst q. unfold _gtk_popover_parent_unmap.
    destruct Hp as (Hst & _). rewrite Hst. reflexivity. }
  assert (Hc : cancelled_showing b q).
  { rewrite Hq.
    destruct Hp as (Hst & Hvis & Hwv & Hreal & Hid & Hticks & Hlast & Hrun).
    split; [|split; [exact Hle|exact Hb]].
    unfold animating. fields.
    repeat (split; [first [reflexivity | assumption]|]). exact Hrun. }
  assert (Hcq : closed_count (trace q) = closed_count (trace p))
    by (rewrite Hq; reflexivity).
  assert (Hfacts : forall B r, after_cancel B r ->
                     state (priv r) <> STATE_SHOWN /\ visible (priv r) = false /\
                     (state (priv r) = STATE_HIDING -> orphan_hiding B r) /\
                     (state (priv r) <> STATE_SHOWING ->
                      state (priv r) = STATE_HIDING \/ state (priv r) = STATE_HIDDEN)).
  { intros B r [((H1 & H2 & _) & _)|[Ho|(H1 & H2 & _)]].
    - rewrite H1. split; [discriminate|]. split; [exact H2|].
      split; [discriminate|]. intro Hne. contradiction.
    - pose proof Ho as (H1 & H2 & _). rewrite H1.
      split; [discriminate|]. split; [exact H2|].
      split; [intros _; exact Ho|]. intros _. left. reflexivity.
    - rewrite H1. split; [discriminate|]. split; [exact H2|].
      split; [discriminate|]. intros _. right. reflexivity. }
  clearbody q.
  split; [exact Hq|]. split; [|split].
  - intros frames r. subst r.
    destruct (frames_bound frames b) as (B & HB & Hall).
    destruct (frames_after_cancel frames B q) as [H1 H2].
    + left. apply (cancelled_weaken b); assumption.
    + exact Hall.
    + destruct (Hfacts B _ H1) as (F1 & F2 & _).
      split; [rewrite H2; exact Hcq|]. split; assumption.
  - intros ea a eb b' ec c rest Hba Ha Hab Hbc r. subst r.
    change ((ea, a) :: (eb, b') :: (ec, c) :: rest)
      with ([(ea, a); (eb, b'); (ec, c)] ++ rest).
    unfold run_frames. rewrite fold_left_app.
    fold (run_frames [(ea, a); (eb, b'); (ec, c)] q).
    fold (run_frames rest (run_frames [(ea, a); (eb, b'); (ec, c)] q)).
    pose proof (cancelled_completes ea a eb b' ec c b q Hc Hba Ha Hab Hbc) as H.
    cbv zeta in H.
    destruct (frames_bound rest c) as (B & HB & Hall).
    destruct (frames_orphan rest B (run_frames [(ea, a); (eb, b'); (ec, c)] q))
      as [[H1|H1] _].
    + destruct H as [H|H]; [left|right; exact H].
      apply (orphan_weaken c); assumption.
    + exact Hall.
    + left. apply H1.
    + right. apply H1.
  - intros frames ea a eb b' ec c rest Hst Hall Hba Ha Hab Hbc.
    unfold run_frames. rewrite fold_left_app.
    fold (run_frames frames q).
    fold (run_frames ((ea, a) :: (eb, b') :: (ec, c) :: rest) (run_frames frames q)).
    destruct (frames_after_cancel frames a q) as [H1 _].
    + left. apply (cancelled_weaken b); assumption.
    + exact Hall.
    + destruct (Hfacts a _ H1) as (_ & _ & F3 & _).
      apply (orphan_completes ea a eb b' ec c rest a); try assumption;
        [left; apply F3; exact Hst|lia].
Qed.

Lemma anchor_unmap_while_showing_witness :
  let e := scenario_env false false true 100 100 in
  let p := run_frames [(e, 100); (e, 200)]
             (gtk_popover_popup e (gtk_popover_new e (Some 1%nat))) in
  let q := _gtk_popover_parent_unmap e p in
  let r := run_frames [(e, 300); (e, 400); (e, 200000);
                       (e, 200100); (e, 200200); (e, 400000)] q in
  state (priv p) = STATE_SHOWING /\
  visible (priv p) = true /\
  state (priv (run_frames [(e, 300); (e, 400); (e, 200000)] q)) = STATE_HIDING /\
  hidden_idle r /\
  closed_count (trace r) = 0%nat.
Proof.
  split; [reflexivity|]. split; [reflexivity|]. split; [reflexivity|].
  pose proof (anchor_unmap_while_showing
                (scenario_env false false true 100 100) 200
                (run_frames
                   [(scenario_env false false true 100 100, 100);
                    (scenario_env false false true 100 100, 200)]
                   (gtk_popover_popup (scenario_env false false true 100 100)
                      (gtk_popover_new (scenario_env false false true 100 100)
                         (Some 1%nat))))) as H.
  cbv zeta in H.
  destruct H as (_ & Hsafe & _ & Hlive).
  - unfold animating, tracker_running.
    repeat split; try reflexivity; vm_compute; discriminate.
  - vm_compute. discriminate.
  - lia.
  - split.
    + apply (Hlive [(scenario_env false false true 100 100, 300);
                    (scenario_env false false true 100 100, 400);
                    (scenario_env false false true 100 100, 200000)]
                   (scenario_env false false true 100 100) 200100
                   (scenario_env false false true 100 100) 200200
                   (scenario_env false false true 100 100) 400000 []).
      * reflexivity.
      * repeat constructor; cbn [snd]; lia.
      * lia.
      * lia.
      * lia.
      * vm_compute. reflexivity.
    + apply (Hsafe [(scenario_env false false true 100 100, 300);
                    (scenario_env false false true 100 100, 400);
                    (scenario_env false false true 100 100, 200000);
                    (scenario_env false false true 100 100, 200100);
                    (scenario_env false false true 100 100, 200200);
                    (scenario_env false false true 100 100, 400000)]).
Defined.
